(** * CMU universal domain adaptation driver: a shallow embedding

    Source: [examples/domain_adaptation/universal_domain_adaptation/cmu.py].

    The driver trains neural networks; what the networks compute on a batch is
    outside the driver and is taken here as data (per-sample ensemble
    statistics, softmax rows, predictions).  Everything the driver itself
    does with those numbers (score combination, running bounds, selection,
    averaging, thresholding, label remapping, H-score, optimizer and
    scheduler stepping, the order of the stages) is modelled as written.

    Tensor entries and Python floats are modelled as exact rationals
    extended with the IEEE special values [+inf], [-inf] and [nan]; rounding
    and overflow are not modelled, and every zero is the positive zero. *)

From Stdlib Require Import QArith Qcanon ZArith Lia String.
From stdpp Require Import base option list numbers strings.

Local Open Scope Qc_scope.

(** ** Extended rationals *)

Inductive fval : Type :=
  | Fin (q : Qc)
  | PInf
  | NInf
  | NaN.

#[global] Instance fval_eq_dec : EqDecision fval.
Proof. solve_decision. Defined.

#[global] Instance fval_inhabited : Inhabited fval := populate (Fin 0).

Definition is_finite (x : fval) : Prop :=
  match x with Fin _ => True | _ => False end.

#[global] Instance is_finite_dec x : Decision (is_finite x).
Proof. destruct x; simpl; apply _. Defined.

Definition is_nan (x : fval) : Prop := x = NaN.

Definition fneg (x : fval) : fval :=
  match x with
  | Fin q => Fin (- q)
  | PInf => NInf
  | NInf => PInf
  | NaN => NaN
  end.

Definition fadd (x y : fval) : fval :=
  match x, y with
  | NaN, _ | _, NaN => NaN
  | Fin a, Fin b => Fin (a + b)
  | PInf, NInf | NInf, PInf => NaN
  | PInf, _ | _, PInf => PInf
  | NInf, _ | _, NInf => NInf
  end.

Definition fsub (x y : fval) : fval := fadd x (fneg y).

(** Sign of an infinity scaled by a finite factor; [inf * 0] is [nan]. *)
Definition scale_inf (inf : fval) (a : Qc) : fval :=
  if decide (a = 0) then NaN
  else if decide (0 < a) then inf else fneg inf.

Definition fmul (x y : fval) : fval :=
  match x, y with
  | NaN, _ | _, NaN => NaN
  | Fin a, Fin b => Fin (a * b)
  | Fin a, inf => scale_inf inf a
  | inf, Fin b => scale_inf inf b
  | PInf, PInf | NInf, NInf => PInf
  | PInf, NInf | NInf, PInf => NInf
  end.

(** Tensor division never raises: a zero divisor gives [nan] or an infinity. *)
Definition fdiv (x y : fval) : fval :=
  match x, y with
  | NaN, _ | _, NaN => NaN
  | Fin a, Fin b =>
      if decide (b = 0) then
        (if decide (a = 0) then NaN
         else if decide (0 < a) then PInf else NInf)
      else Fin (a / b)
  | Fin _, _ => Fin 0
  | inf, Fin b => if decide (0 ≤ b) then inf else fneg inf
  | _, _ => NaN
  end.

(** Comparisons; every comparison with [nan] is false. *)
Definition fltb (x y : fval) : bool :=
  match x, y with
  | NaN, _ | _, NaN => false
  | Fin a, Fin b => bool_decide (a < b)
  | NInf, NInf | PInf, PInf => false
  | NInf, _ | _, PInf => true
  | _, _ => false
  end.

Definition feqb (x y : fval) : bool :=
  match x, y with
  | NaN, _ | _, NaN => false
  | _, _ => bool_decide (x = y)
  end.

Definition fleb (x y : fval) : bool := fltb x y || feqb x y.
Definition fgtb (x y : fval) : bool := fltb y x.
Definition fgeb (x y : fval) : bool := fleb y x.

Declare Scope fval_scope.
Delimit Scope fval_scope with F.
Bind Scope fval_scope with fval.
Infix "+" := fadd : fval_scope.
Infix "-" := fsub : fval_scope.
Infix "*" := fmul : fval_scope.
Infix "/" := fdiv : fval_scope.

(** Decimal literals of the source, as exact rationals. *)
Definition dec (q : Q) : fval := Fin (Q2Qc q).

(** ** Python results *)

Inductive exn : Type :=
  | RuntimeError
  | ZeroDivisionError
  | IndexError
  | FileNotFoundError.

Inductive result (A : Type) : Type :=
  | Ok (a : A)
  | Raise (e : exn).
Arguments Ok {A} a.
Arguments Raise {A} e.

#[global] Instance exn_eq_dec : EqDecision exn.
Proof. solve_decision. Defined.

#[global] Instance result_eq_dec {A} `{EqDecision A} : EqDecision (result A).
Proof. solve_decision. Defined.

#[global] Instance result_ret : MRet result := @Ok.
#[global] Instance result_bind : MBind result := λ A B f m,
  match m with
  | Ok a => f a
  | Raise e => Raise e
  end.

(** ** Tensors *)

(** A one-dimensional float tensor is the list of its entries, a
    two-dimensional one the list of its rows. *)
Abbreviation tensor := (list fval).
Abbreviation matrix := (list (list fval)).

(** [torch.max] / [torch.min] over all entries: a [nan] entry makes the
    result [nan]; an empty tensor raises. *)
Definition fmax2 (x y : fval) : fval :=
  match x, y with
  | NaN, _ | _, NaN => NaN
  | _, _ => if fltb x y then y else x
  end.

Definition fmin2 (x y : fval) : fval :=
  match x, y with
  | NaN, _ | _, NaN => NaN
  | _, _ => if fltb y x then y else x
  end.

Definition tensor_max (t : tensor) : result fval :=
  match t with
  | [] => Raise RuntimeError
  | x :: r => Ok (foldl fmax2 x r)
  end.

Definition tensor_min (t : tensor) : result fval :=
  match t with
  | [] => Raise RuntimeError
  | x :: r => Ok (foldl fmin2 x r)
  end.

(** [torch.cat(ts, dim=0)]: an empty list of tensors raises. *)
Definition torch_cat {A} (ts : list (list A)) : result (list A) :=
  match ts with
  | [] => Raise RuntimeError
  | _ => Ok (concat ts)
  end.

(** [t.mean(dim=0)] of a matrix with [ncols] columns: the sum of the rows
    divided by their number.  With no rows every entry is [0/0 = nan]. *)
Definition sum_dim0 (ncols : nat) (m : matrix) : tensor :=
  foldr (zip_with fadd) (replicate ncols (Fin 0)) m.

Definition mean_dim0 (ncols : nat) (m : matrix) : tensor :=
  (λ s, fdiv s (Fin (Qc_of_Z (Z.of_nat (length m))))) <$> sum_dim0 ncols m.

(** [m[mask]]: the rows of [m] whose mask entry is true. *)
Definition mask_select {A} (m : list A) (mask : list bool) : list A :=
  fst <$> filter (λ p, p.2 = true) (zip m mask).

(** [t[idx]] for a tensor of indices: negative indices count from the end,
    an index out of range raises. *)
Definition index_select (t : tensor) (idx : list Z) : result tensor :=
  mapM (λ i : Z,
    let n := Z.of_nat (length t) in
    let j := if decide (i < 0)%Z then (i + n)%Z else i in
    if decide (0 ≤ j < n)%Z
    then match t !! Z.to_nat j with Some v => Ok v | None => Raise IndexError end
    else Raise IndexError) idx.

(** Modelled from the spec: [tllib.alignment.cmu.norm], the static per-pass
    normalisation, is imported by the driver but its file is not part of the
    sources at hand.  The spec gives [(x - min(x)) / (max(x) - min(x))] over
    the pass and asks that the all-equal case [max == min] return a constant,
    [0.5]. *)
Definition norm (x : tensor) : result tensor :=
  min_val ← tensor_min x;
  max_val ← tensor_max x;
  if feqb max_val min_val
  then Ok ((λ _, dec 0.5) <$> x)
  else Ok ((λ v, (v - min_val) / (max_val - min_val))%F <$> x).

(** Modelled from the spec: [tllib.utils.metric.ConfusionMatrix] is
    imported, not part of the sources at hand.  The spec describes an
    [n x n] integer matrix accumulated over (label, prediction) pairs, row =
    label, column = prediction, and a per-class accuracy
    [diagonal / row-sum]. *)
Record ConfusionMatrix : Type := {
  cm_num_classes : nat;
  cm_mat : list (list nat);
}.

Definition ConfusionMatrix_new (num_classes : nat) : ConfusionMatrix :=
  {| cm_num_classes := num_classes;
     cm_mat := replicate num_classes (replicate num_classes 0%nat) |}.

Definition count_pairs (r c : Z) (pairs : list (Z * Z)) : nat :=
  length (filter (λ p, p = (r, c)) pairs).

Definition ConfusionMatrix_update (cm : ConfusionMatrix)
    (labels predictions : list Z) : ConfusionMatrix :=
  let n := cm_num_classes cm in
  {| cm_num_classes := n;
     cm_mat :=
       imap (λ r row,
         imap (λ c old,
           (old + count_pairs (Z.of_nat r) (Z.of_nat c) (zip labels predictions))%nat)
           row) (cm_mat cm) |}.

Definition of_count (n : nat) : fval := Fin (Qc_of_Z (Z.of_nat n)).

(** Per-class accuracy, the second component of [compute()]. *)
Definition ConfusionMatrix_accs (cm : ConfusionMatrix) : tensor :=
  imap (λ r row, (of_count (default 0%nat (row !! r)) / of_count (sum_list row))%F)
       (cm_mat cm).

(** ** Command-line arguments *)

Inductive phase : Type := PhaseTrain | PhaseTest | PhaseAnalysis.

#[global] Instance phase_eq_dec : EqDecision phase.
Proof. solve_decision. Defined.

Record args : Type := {
  arg_root : string;
  arg_data : string;
  arg_source : string;
  arg_target : string;
  arg_threshold : fval;
  arg_src_threshold : fval;
  arg_cut : fval;
  arg_trade_off : fval;
  arg_batch_size : Z;
  arg_epochs : Z;
  arg_epochs_pretrain : Z;
  arg_iters_per_epoch : Z;
  arg_print_freq : Z;
  arg_phase : phase;
}.

(** The parser's defaults (lines 524-561). *)
Definition default_args (root source target : string) : args :=
  {| arg_root := root;
     arg_data := "Office31";
     arg_source := source;
     arg_target := target;
     arg_threshold := dec 0.7;
     arg_src_threshold := dec 0.4;
     arg_cut := dec 0.1;
     arg_trade_off := dec 1;
     arg_batch_size := 32;
     arg_epochs := 30;
     arg_epochs_pretrain := 5;
     arg_iters_per_epoch := 200;
     arg_print_freq := 50;
     arg_phase := PhaseTrain |}.

(** ** Datasets and loaders (main, lines 99-131) *)

Inductive domain : Type := SourceDomain | TargetDomain.

Inductive transform : Type :=
  | train_transform
  | val_transform
  | ens_transforms (i : nat).

Inductive split : Type := SplitDefault | SplitTest.

Record dataset : Type := {
  ds_domain : domain;       (* universal(dataset, source=...) *)
  ds_task : string;
  ds_split : split;
  ds_transform : transform;
}.

Record DataLoader : Type := {
  dl_dataset : dataset;
  dl_batch_size : Z;
  dl_shuffle : bool;
  dl_drop_last : bool;
}.

#[global] Instance domain_eq_dec : EqDecision domain.
Proof. solve_decision. Defined.
#[global] Instance transform_eq_dec : EqDecision transform.
Proof. solve_decision. Defined.
#[global] Instance split_eq_dec : EqDecision split.
Proof. solve_decision. Defined.
#[global] Instance dataset_eq_dec : EqDecision dataset.
Proof. solve_decision. Defined.
#[global] Instance DataLoader_eq_dec : EqDecision DataLoader.
Proof. solve_decision. Defined.

Definition source_dataset (task : string) (t : transform) : dataset :=
  {| ds_domain := SourceDomain; ds_task := task;
     ds_split := SplitDefault; ds_transform := t |}.

Definition target_dataset (task : string) (s : split) (t : transform) : dataset :=
  {| ds_domain := TargetDomain; ds_task := task;
     ds_split := s; ds_transform := t |}.

Definition train_source_dataset (a : args) : dataset :=
  source_dataset (arg_source a) train_transform.
Definition train_target_dataset (a : args) : dataset :=
  target_dataset (arg_target a) SplitDefault train_transform.
Definition ens_datasets (a : args) : list dataset :=
  (λ i, source_dataset (arg_source a) (ens_transforms i)) <$> seq 0 5.
Definition val_dataset (a : args) : dataset :=
  target_dataset (arg_target a) SplitDefault val_transform.
Definition test_dataset (a : args) : dataset :=
  if decide (arg_data a = "DomainNet")
  then target_dataset (arg_target a) SplitTest val_transform
  else val_dataset a.

Definition train_source_loader (a : args) : DataLoader :=
  {| dl_dataset := train_source_dataset a; dl_batch_size := arg_batch_size a;
     dl_shuffle := true; dl_drop_last := true |}.
Definition train_target_loader (a : args) : DataLoader :=
  {| dl_dataset := train_target_dataset a; dl_batch_size := arg_batch_size a;
     dl_shuffle := true; dl_drop_last := true |}.
Definition val_loader (a : args) : DataLoader :=
  {| dl_dataset := val_dataset a; dl_batch_size := arg_batch_size a;
     dl_shuffle := false; dl_drop_last := false |}.
Definition test_loader (a : args) : DataLoader :=
  {| dl_dataset := test_dataset a; dl_batch_size := arg_batch_size a;
     dl_shuffle := false; dl_drop_last := false |}.
Definition ens_loader (a : args) (i : nat) : DataLoader :=
  {| dl_dataset := source_dataset (arg_source a) (ens_transforms i);
     dl_batch_size := arg_batch_size a;
     dl_shuffle := true; dl_drop_last := true |}.

(** The seven [ForeverDataIterator]s of [main]. *)
Inductive iterator : Type :=
  | train_source_iter
  | train_target_iter
  | ens_iters (i : nat).

#[global] Instance iterator_eq_dec : EqDecision iterator.
Proof. solve_decision. Defined.

Definition iterator_loader (a : args) (it : iterator) : DataLoader :=
  match it with
  | train_source_iter => train_source_loader a
  | train_target_iter => train_target_loader a
  | ens_iters i => ens_loader a i
  end.

(** ** What the networks and the data are to the driver *)

(** One sample of an evaluation-mode pass: its label, the softmax row of the
    backbone's own head, that row's argmax, and the two ensemble statistics
    ([get_marginal_confidence], [get_entropy] of the five heads). *)
Record eval_sample : Type := {
  es_label : Z;
  es_output : tensor;
  es_prediction : Z;
  es_marginal_confidence : fval;
  es_entropy : fval;
}.

(** One target sample of a training iteration: the two ensemble statistics. *)
Record target_sample : Type := {
  ts_marginal_confidence : fval;
  ts_entropy : fval;
}.

(** The learning rate an optimizer holds: the constructor's [args.lr], or
    [base_lr * lr_lambda(last_epoch)] once a [LambdaLR] wrote it. *)
Inductive lr_value : Type :=
  | lr_initial
  | lr_lambda (last_epoch : Z).

Inductive module_id : Type := classifier | ens_classifier | domain_discri.

#[global] Instance lr_value_eq_dec : EqDecision lr_value.
Proof. solve_decision. Defined.
#[global] Instance module_id_eq_dec : EqDecision module_id.
Proof. solve_decision. Defined.

(** One [optimizer.step()] with the gradients of the iteration before it. *)
Inductive update (batch : Type) : Type :=
  | pretrain_update (x_s : batch) (x_ens : list batch)
  | adversarial_update (x_s x_t : batch) (w_s w_t : tensor)
  | ensemble_update (classifier_index : Z) (x_s : batch).
Arguments pretrain_update {batch}.
Arguments adversarial_update {batch}.
Arguments ensemble_update {batch}.

(** The collaborators: [net] is the joint parameter state of the backbone
    classifier, the five ensemble heads and the discriminator, [batch] a
    batch of images with labels. *)
Record collaborators (net batch : Type) : Type := {
  (* number of source classes and of classes shared with the target *)
  num_classes : nat;
  num_common_classes : nat;
  (* the batches a finite loader yields in one pass *)
  loader_batches : DataLoader → list batch;
  (* the k-th batch a ForeverDataIterator over a loader yields *)
  iterator_stream : DataLoader → nat → batch;
  labels_of : batch → list Z;
  (* the networks in eval mode on one batch *)
  eval_forward : net → batch → list eval_sample;
  (* the ensemble statistics of a target batch during training *)
  target_forward : net → batch → list target_sample;
  (* parameters after one optimizer step over the given modules *)
  sgd_step : net → list module_id → lr_value → update batch → net;
  (* load_state_dict of classifier and ens_classifier from a checkpoint *)
  load_state_dict : net → net → net;
}.
Arguments num_classes {net batch}.
Arguments num_common_classes {net batch}.
Arguments loader_batches {net batch}.
Arguments iterator_stream {net batch}.
Arguments labels_of {net batch}.
Arguments eval_forward {net batch}.
Arguments target_forward {net batch}.
Arguments sgd_step {net batch}.
Arguments load_state_dict {net batch}.

(** ** The state of a run *)

Definition loc := nat.

Record optimizer_obj : Type := {
  opt_modules : list module_id;   (* whose parameters it updates *)
  opt_lr : lr_value;
  opt_steps : nat;                (* calls of step() so far *)
}.

Record scheduler_obj : Type := {
  sched_optimizer : loc;
  sched_last_epoch : Z;
}.

Inductive network : Type :=
  | backbone                      (* model(x) *)
  | ensemble (index : Z).         (* ens_classifier(f, index); -1 is all heads *)

Inductive event : Type :=
  | call_pretrain (epoch : nat)
  | call_calc_source_class_weight (loader : DataLoader)
  | call_train (epoch : nat) (target_score_upper target_score_lower : fval)
  | call_train_ens_classifier (classifier_index epoch : nat) (optimizer lr_scheduler : loc)
  | call_validate (loader : DataLoader)
  | call_analysis
  | forward (n : network) (grad : bool) (loader : DataLoader) (k : nat)
  | score_meter (score_upper score_lower : fval)
  | optimizer_step (optimizer : loc)
  | scheduler_step (lr_scheduler : loc).

#[global] Instance network_eq_dec : EqDecision network.
Proof. solve_decision. Defined.
#[global] Instance event_eq_dec : EqDecision event.
Proof. solve_decision. Defined.

(** Objects live in one store per class: the driver's shape-[1] tensors, the
    SGD optimizers and the LambdaLR schedulers.  A variable holds a location;
    tensor arithmetic builds a new tensor, [step()] changes its object in
    place. *)
Record world (net : Type) : Type := {
  tensors : list fval;
  optimizers : list optimizer_obj;
  schedulers : list scheduler_obj;
  parameters : net;
  positions : iterator → nat;       (* batches drawn from each iterator *)
  latest_checkpoint : option net;
  best_checkpoint : option net;
  trace : list event;
}.
Arguments tensors {net}.
Arguments optimizers {net}.
Arguments schedulers {net}.
Arguments parameters {net}.
Arguments positions {net}.
Arguments latest_checkpoint {net}.
Arguments best_checkpoint {net}.
Arguments trace {net}.

(** The process start: no object yet, fresh parameters, whatever checkpoint
    an earlier run left on disk. *)
Definition initial_world {net} (init : net) (on_disk : option net) : world net :=
  {| tensors := []; optimizers := []; schedulers := [];
     parameters := init; positions := λ _, 0%nat;
     latest_checkpoint := None; best_checkpoint := on_disk; trace := [] |}.

Section Driver.
Context {net batch : Type} (K : collaborators net batch).

Definition M (A : Type) : Type := world net → result A * world net.

#[local] Instance M_ret : MRet M := λ A a w, (Ok a, w).
#[local] Instance M_bind : MBind M := λ A B f m w,
  match m w with
  | (Ok a, w') => f a w'
  | (Raise e, w') => (Raise e, w')
  end.

Definition raise {A} (e : exn) : M A := λ w, (Raise e, w).

Definition lift {A} (r : result A) : M A := λ w, (r, w).

Definition set_trace (t : list event) (w : world net) : world net :=
  {| tensors := tensors w; optimizers := optimizers w;
     schedulers := schedulers w; parameters := parameters w;
     positions := positions w;
     latest_checkpoint := latest_checkpoint w;
     best_checkpoint := best_checkpoint w; trace := t |}.

Definition emit (e : event) : M unit := λ w,
  (Ok (), set_trace (trace w ++ [e]) w).

Definition set_tensors (ts : list fval) (w : world net) : world net :=
  {| tensors := ts; optimizers := optimizers w;
     schedulers := schedulers w; parameters := parameters w;
     positions := positions w;
     latest_checkpoint := latest_checkpoint w;
     best_checkpoint := best_checkpoint w; trace := trace w |}.

Definition set_optimizers (os : list optimizer_obj) (w : world net) : world net :=
  {| tensors := tensors w; optimizers := os;
     schedulers := schedulers w; parameters := parameters w;
     positions := positions w;
     latest_checkpoint := latest_checkpoint w;
     best_checkpoint := best_checkpoint w; trace := trace w |}.

Definition set_schedulers (ss : list scheduler_obj) (w : world net) : world net :=
  {| tensors := tensors w; optimizers := optimizers w;
     schedulers := ss; parameters := parameters w;
     positions := positions w;
     latest_checkpoint := latest_checkpoint w;
     best_checkpoint := best_checkpoint w; trace := trace w |}.

Definition set_parameters (p : net) (w : world net) : world net :=
  {| tensors := tensors w; optimizers := optimizers w;
     schedulers := schedulers w; parameters := p;
     positions := positions w;
     latest_checkpoint := latest_checkpoint w;
     best_checkpoint := best_checkpoint w; trace := trace w |}.

Definition set_positions (ps : iterator → nat) (w : world net) : world net :=
  {| tensors := tensors w; optimizers := optimizers w;
     schedulers := schedulers w; parameters := parameters w;
     positions := ps;
     latest_checkpoint := latest_checkpoint w;
     best_checkpoint := best_checkpoint w; trace := trace w |}.

Definition set_checkpoints (latest best : option net) (w : world net) : world net :=
  {| tensors := tensors w; optimizers := optimizers w;
     schedulers := schedulers w; parameters := parameters w;
     positions := positions w;
     latest_checkpoint := latest; best_checkpoint := best;
     trace := trace w |}.

Definition get_parameters : M net := λ w, (Ok (parameters w), w).

(** A new tensor object; nothing the driver does writes into one. *)
Definition new_tensor (v : fval) : M loc := λ w,
  (Ok (length (tensors w)), set_tensors (tensors w ++ [v]) w).

Definition read_tensor (l : loc) : M fval := λ w,
  match tensors w !! l with
  | Some v => (Ok v, w)
  | None => (Raise RuntimeError, w)
  end.

(** [SGD(params, args.lr, ...)] *)
Definition SGD (modules : list module_id) : M loc := λ w,
  (Ok (length (optimizers w)),
   set_optimizers (optimizers w ++
     [{| opt_modules := modules; opt_lr := lr_initial; opt_steps := 0 |}]) w).

Definition set_lr (o : loc) (lr : lr_value) : M unit := λ w,
  match optimizers w !! o with
  | Some ob =>
      (Ok (), set_optimizers (<[o := {| opt_modules := opt_modules ob;
                                        opt_lr := lr;
                                        opt_steps := opt_steps ob |}]>
                               (optimizers w)) w)
  | None => (Raise RuntimeError, w)
  end.

(** [LambdaLR(optimizer, lr_lambda)]: the constructor takes the initial
    step, so the new scheduler stands at epoch 0 and has written
    [lr_lambda(0)] into its optimizer. *)
Definition new_scheduler (o : loc) : M loc := λ w,
  (Ok (length (schedulers w)),
   set_schedulers (schedulers w ++
     [{| sched_optimizer := o; sched_last_epoch := 0 |}]) w).

Definition LambdaLR (o : loc) : M loc :=
  set_lr o (lr_lambda 0);; new_scheduler o.

(** [optimizer.step()] after [loss.backward()]. *)
Definition optimizer_step_ (o : loc) (u : update batch) : M unit := λ w,
  match optimizers w !! o with
  | Some ob =>
      emit (optimizer_step o)
        (set_parameters
           (sgd_step K (parameters w) (opt_modules ob) (opt_lr ob) u)
           (set_optimizers (<[o := {| opt_modules := opt_modules ob;
                                      opt_lr := opt_lr ob;
                                      opt_steps := S (opt_steps ob) |}]>
                              (optimizers w)) w))
  | None => (Raise RuntimeError, w)
  end.

(** [lr_scheduler.step()]: the one scheduler object moves on by one epoch
    and writes the new rate into its optimizer. *)
Definition scheduler_step_ (s : loc) : M unit := λ w,
  match schedulers w !! s with
  | Some sb =>
      let e := (sched_last_epoch sb + 1)%Z in
      ((set_lr (sched_optimizer sb) (lr_lambda e);;
        emit (scheduler_step s)) : M unit)
        (set_schedulers (<[s := {| sched_optimizer := sched_optimizer sb;
                                   sched_last_epoch := e |}]>
                           (schedulers w)) w)
  | None => (Raise RuntimeError, w)
  end.

(** [next(it)] on a ForeverDataIterator: the batch and its number. *)
Definition next (a : args) (it : iterator) : M (nat * batch) := λ w,
  let k := positions w it in
  (Ok (k, iterator_stream K (iterator_loader a it) k),
   set_positions (λ j, if decide (j = it) then S k else positions w j) w).

Definition range (n : Z) : list nat := seq 0 (Z.to_nat n).

(** [for x in l: body(x)] *)
Fixpoint for_each {A} (l : list A) (body : A → M unit) : M unit :=
  match l with
  | [] => mret ()
  | x :: r => body x;; for_each r body
  end.

(** A loop that rebinds local variables [s] in its body. *)
Fixpoint for_fold {A S} (l : list A) (s : S) (body : A → S → M S) : M S :=
  match l with
  | [] => mret s
  | x :: r => s' ← body x s; for_fold r s' body
  end.

(** [if i % args.print_freq == 0: progress.display(i)], the last statement
    of every training iteration: the remainder raises on a zero frequency;
    the display itself changes nothing. *)
Definition display (a : args) (i : nat) : M unit :=
  if decide (arg_print_freq a = 0%Z) then raise ZeroDivisionError
  else mret ().

(** *** Scores (lines 318-320, 370, 473-475) *)

(** [(marginal_confidence + 1 - entropy) / 2], entry by entry. *)
Definition combine (marginal_confidence entropy : tensor) : tensor :=
  zip_with (λ m e, (m + Fin 1 - e) / Fin 2)%F marginal_confidence entropy.

(** The one-shot passes: each statistic is concatenated over the pass and
    normalised by [norm] on its own, then the two are combined. *)
Definition static_score (all_marginal_confidence all_entropy : list tensor)
    : result tensor :=
  all_marginal_confidence ← torch_cat all_marginal_confidence ≫= norm;
  all_entropy ← torch_cat all_entropy ≫= norm;
  mret (combine all_marginal_confidence all_entropy).

(** *** Pretraining (lines 242-292) *)

Definition pretrain (a : args) (optimizer_pretrain lr_scheduler_pretrain : loc)
    (epoch : nat) : M unit :=
  emit (call_pretrain epoch);;
  for_each (range (arg_iters_per_epoch a)) (λ i,
    '(k, x_s) ← next a train_source_iter;
    emit (forward backbone true (train_source_loader a) k);;
    x_ens ← for_fold (seq 0 5) [] (λ classifier_idx acc,
      '(k, x) ← next a (ens_iters classifier_idx);
      emit (forward backbone true (ens_loader a classifier_idx) k);;
      emit (forward (ensemble (Z.of_nat classifier_idx)) true
              (ens_loader a classifier_idx) k);;
      mret (acc ++ [x]));
    optimizer_step_ optimizer_pretrain (pretrain_update x_s x_ens);;
    scheduler_step_ lr_scheduler_pretrain;;
    display a i).

(** *** Source class weights (lines 295-326) *)

Definition calc_source_class_weight (a : args) (val_loader : DataLoader)
    : M tensor :=
  emit (call_calc_source_class_weight val_loader);;
  model ← get_parameters;
  '(all_marginal_confidence, all_entropy, all_output) ←
    for_fold (imap pair (loader_batches K val_loader)) ([], [], [])
      (λ '(k, images) '(all_mc, all_ent, all_out),
        (* with torch.no_grad() *)
        emit (forward backbone false val_loader k);;
        emit (forward (ensemble (-1)) false val_loader k);;
        let rows := eval_forward K model images in
        mret (all_mc ++ [es_marginal_confidence <$> rows],
              all_ent ++ [es_entropy <$> rows],
              all_out ++ [es_output <$> rows]));
  all_score ← lift (static_score all_marginal_confidence all_entropy);
  all_output ← lift (torch_cat all_output);
  let source_class_weight :=
    mean_dim0 (num_classes K)
      (mask_select all_output ((λ s, fgeb s (arg_src_threshold a)) <$> all_score)) in
  lift (norm source_class_weight).

(** [(source_class_weight > args.cut).float()] (line 200) *)
Definition cut_mask (a : args) (source_class_weight : tensor) : tensor :=
  (λ w, if fgtb w (arg_cut a) then Fin 1 else Fin 0) <$> source_class_weight.

(** *** Adversarial training (lines 329-404) *)

(** Lines 371-372: the new bound from the old one and the batch extreme. *)
Definition smooth (bound extreme : fval) : fval :=
  (bound * dec 0.01 + extreme * dec 0.99)%F.

(** Line 373 *)
Definition running_normalize (w_t : tensor) (upper lower : fval) : tensor :=
  (λ w, (w - lower) / (upper - lower))%F <$> w_t.

(** One iteration of the loop.  [target_score_upper] and
    [target_score_lower] are the function's local names: an assignment
    binds the name to the new tensor and leaves the old tensor as it was. *)
Definition train_iteration (a : args) (optimizer lr_scheduler : loc)
    (source_class_weight : tensor) (i : nat)
    (locals : loc * loc) : M (loc * loc) :=
  let '(target_score_upper, target_score_lower) := locals in
  '(k_s, x_s) ← next a train_source_iter;
  '(k_t, x_t) ← next a train_target_iter;
  let labels_s := labels_of K x_s in
  model ← get_parameters;
  emit (forward backbone true (train_source_loader a) k_s);;
  emit (forward backbone true (train_target_loader a) k_t);;
  (* with torch.no_grad() *)
  emit (forward (ensemble (-1)) false (train_target_loader a) k_t);;
  let stats := target_forward K model x_t in
  let marginal_confidence := ts_marginal_confidence <$> stats in
  let entropy := ts_entropy <$> stats in
  let w_t := combine marginal_confidence entropy in
  upper ← read_tensor target_score_upper;
  w_max ← lift (tensor_max w_t);
  target_score_upper ← new_tensor (smooth upper w_max);
  lower ← read_tensor target_score_lower;
  w_min ← lift (tensor_min w_t);
  target_score_lower ← new_tensor (smooth lower w_min);
  upper ← read_tensor target_score_upper;
  lower ← read_tensor target_score_lower;
  let w_t := running_normalize w_t upper lower in
  w_s ← lift (index_select source_class_weight labels_s);
  emit (score_meter upper lower);;
  optimizer_step_ optimizer (adversarial_update x_s x_t w_s w_t);;
  scheduler_step_ lr_scheduler;;
  display a i;;
  mret (target_score_upper, target_score_lower).

Definition train (a : args) (optimizer lr_scheduler : loc)
    (source_class_weight : tensor)
    (target_score_upper target_score_lower : loc) (epoch : nat) : M unit :=
  upper ← read_tensor target_score_upper;
  lower ← read_tensor target_score_lower;
  emit (call_train epoch upper lower);;
  for_fold (range (arg_iters_per_epoch a))
    (target_score_upper, target_score_lower)
    (train_iteration a optimizer lr_scheduler source_class_weight);;
  mret ().

(** *** Ensemble refresh (lines 407-443) *)

Definition train_ens_classifier (a : args) (train_source_iter : iterator)
    (optimizer lr_scheduler : loc) (classifier_index epoch : nat) : M unit :=
  emit (call_train_ens_classifier classifier_index epoch optimizer lr_scheduler);;
  for_each (range (arg_iters_per_epoch a / 2)) (λ i,
    '(k, x_s) ← next a train_source_iter;
    (* with torch.no_grad() *)
    emit (forward backbone false (iterator_loader a train_source_iter) k);;
    emit (forward (ensemble (Z.of_nat classifier_index)) true
            (iterator_loader a train_source_iter) k);;
    optimizer_step_ optimizer (ensemble_update (Z.of_nat classifier_index) x_s);;
    scheduler_step_ lr_scheduler;;
    display a i).

(** *** Evaluation (lines 446-498) *)

(** Python's [x / y] on floats raises on a zero divisor. *)
Definition py_div (x y : fval) : result fval :=
  if decide (y = Fin 0) then Raise ZeroDivisionError else Ok (x / y)%F.

Definition tensor_sum (t : tensor) : fval := foldl fadd (Fin 0) t.

Definition tensor_mean (t : tensor) : fval :=
  (tensor_sum t / of_count (length t))%F.

(** Line 483: [all_predictions[all_score < args.threshold] = unknown_class] *)
Definition overwrite_unknown (a : args) (unknown_class : Z)
    (all_predictions : list Z) (all_score : tensor) : list Z :=
  zip_with (λ p s, if fltb s (arg_threshold a) then unknown_class else p)
    all_predictions all_score.

(** Line 484: [all_labels[all_labels >= unknown_class] = unknown_class] *)
Definition remap_labels (unknown_class : Z) (all_labels : list Z) : list Z :=
  (λ l : Z, if decide (unknown_class ≤ l)%Z then unknown_class else l) <$> all_labels.

(** Lines 480-485 *)
Definition confusion (a : args) (all_score : tensor)
    (all_predictions all_labels : list Z) : ConfusionMatrix :=
  let unknown_class := Z.of_nat (num_classes K) in
  let confmat := ConfusionMatrix_new (num_classes K + 1) in
  let all_predictions := overwrite_unknown a unknown_class all_predictions all_score in
  let all_labels := remap_labels unknown_class all_labels in
  ConfusionMatrix_update confmat all_labels all_predictions.

(** Line 491, on Python floats. *)
Definition h_score_of (known unknown : fval) : result fval :=
  py_div (Fin 2 * known * unknown)%F (known + unknown)%F.

(** Lines 487-491: [(mean_acc, h_score)] from the per-class accuracies. *)
Definition summarize (accs : tensor) : result (fval * fval) :=
  let common := take (num_common_classes K) accs in
  unknown_acc ← match last accs with
                | Some v => Ok v
                | None => Raise IndexError
                end;
  let mean_acc :=
    ((tensor_sum common + unknown_acc)
       / of_count (num_common_classes K + 1) * Fin (Qc_of_Z 100))%F in
  let known := (tensor_mean common * Fin (Qc_of_Z 100))%F in
  let unknown := (unknown_acc * Fin (Qc_of_Z 100))%F in
  h_score ← h_score_of known unknown;
  mret (mean_acc, h_score).

Definition validate (a : args) (val_loader : DataLoader) : M (fval * fval) :=
  emit (call_validate val_loader);;
  model ← get_parameters;
  '(all_marginal_confidence, all_entropy, all_predictions, all_labels) ←
    for_fold (imap pair (loader_batches K val_loader)) ([], [], [], [])
      (λ '(k, images) '(all_mc, all_ent, all_pred, all_lab),
        (* with torch.no_grad() *)
        emit (forward backbone false val_loader k);;
        emit (forward (ensemble (-1)) false val_loader k);;
        let rows := eval_forward K model images in
        mret (all_mc ++ [es_marginal_confidence <$> rows],
              all_ent ++ [es_entropy <$> rows],
              all_pred ++ [es_prediction <$> rows],
              all_lab ++ [es_label <$> rows]));
  all_score ← lift (static_score all_marginal_confidence all_entropy);
  all_predictions ← lift (torch_cat all_predictions);
  all_labels ← lift (torch_cat all_labels);
  let confmat := confusion a all_score all_predictions all_labels in
  lift (summarize (ConfusionMatrix_accs confmat)).

(** *** The driver (lines 82-239) *)

Definition load_best : M unit := λ w,
  match best_checkpoint w with
  | Some saved =>
      (Ok (), set_parameters (load_state_dict K (parameters w) saved) w)
  | None => (Raise FileNotFoundError, w)
  end.

Definition save_latest : M unit := λ w,
  (Ok (), set_checkpoints (Some (parameters w)) (best_checkpoint w) w).

Definition copy_latest_to_best : M unit := λ w,
  (Ok (), set_checkpoints (latest_checkpoint w) (latest_checkpoint w) w).

(** Lines 214-216: the five refresh loops of one epoch, each with
    [ens_lr_scheduler[i]]. *)
Definition refresh_epoch (a : args) (ens_optimizer : loc)
    (ens_lr_scheduler : list loc) (epoch : nat) : M unit :=
  for_each (seq 0 5) (λ i,
    match ens_lr_scheduler !! i with
    | Some s => train_ens_classifier a (ens_iters i) ens_optimizer s i epoch
    | None => raise IndexError
    end).

(** One epoch of stage 2 (lines 210-229); the loop rebinds [best_acc] and
    [best_h_score]. *)
Definition stage2_epoch (a : args) (optimizer lr_scheduler ens_optimizer : loc)
    (ens_lr_scheduler : list loc) (source_class_weight : tensor)
    (target_score_upper target_score_lower : loc)
    (epoch : nat) (best : fval * fval) : M (fval * fval) :=
  let '(best_acc, best_h_score) := best in
  train a optimizer lr_scheduler source_class_weight
    target_score_upper target_score_lower epoch;;
  refresh_epoch a ens_optimizer ens_lr_scheduler epoch;;
  '(acc, h_score) ← validate a (val_loader a);
  save_latest;;
  let best_acc := if fgtb best_acc acc then best_acc else acc in
  if fgtb h_score best_h_score
  then copy_latest_to_best;; mret (best_acc, h_score)
  else mret (best_acc, best_h_score).

Definition main (a : args) : M unit :=
  (if decide (arg_phase a = PhaseTrain) then mret () else load_best);;
  match arg_phase a with
  | PhaseAnalysis => emit call_analysis
  | PhaseTest => validate a (test_loader a);; mret ()
  | PhaseTrain =>
      (* stage 1: pretrain the classifier and ens_classifier *)
      optimizer_pretrain ← SGD [classifier; ens_classifier];
      lr_scheduler_pretrain ← LambdaLR optimizer_pretrain;
      for_each (range (arg_epochs_pretrain a))
        (pretrain a optimizer_pretrain lr_scheduler_pretrain);;
      optimizer ← SGD [classifier; domain_discri];
      lr_scheduler ← LambdaLR optimizer;
      ens_optimizer ← SGD [ens_classifier];
      s ← LambdaLR ens_optimizer;
      let ens_lr_scheduler := replicate 5 s in
      (* stage 2: adversarial training *)
      target_score_upper ← new_tensor (Fin 0);
      target_score_lower ← new_tensor (Fin 0);
      source_class_weight ← calc_source_class_weight a (val_loader a);
      let source_class_weight := cut_mask a source_class_weight in
      for_fold (range (arg_epochs a)) (Fin 0, Fin 0)
        (stage2_epoch a optimizer lr_scheduler ens_optimizer ens_lr_scheduler
           source_class_weight target_score_upper target_score_lower);;
      (* evaluate on the test set *)
      load_best;;
      validate a (test_loader a);;
      mret ()
  end.

(** Running [main] from the process start. *)
Definition run (a : args) (init : net) (on_disk : option net)
    : result unit * world net :=
  main a (initial_world init on_disk).
End Driver.

(** ** A probe for the collaborators

    Any functions may stand for the networks.  In this instance a batch
    carries what the networks return on it, and the parameter state records
    the target weights [w_t] of every adversarial update it has received. *)

Module Probe.
Record batch : Type := {
  b_eval : list eval_sample;
  b_target : list target_sample;
  b_labels : list Z;
}.

Definition net : Type := list tensor.

Definition record_w_t (n : net) (u : update batch) : net :=
  match u with
  | adversarial_update _ _ _ w_t => n ++ [w_t]
  | _ => n
  end.

Definition collab (C CC : nat) (pass : list batch)
    (stream : DataLoader → nat → batch) : collaborators net batch :=
  {| num_classes := C;
     num_common_classes := CC;
     loader_batches := λ _, pass;
     iterator_stream := stream;
     labels_of := b_labels;
     eval_forward := λ _ b, b_eval b;
     target_forward := λ _ b, b_target b;
     sgd_step := λ n _ _ u, record_w_t n u;
     load_state_dict := λ n _, n |}.

Definition sample (label : Z) (output : tensor) (prediction : Z)
    (marginal_confidence entropy : fval) : eval_sample :=
  {| es_label := label; es_output := output; es_prediction := prediction;
     es_marginal_confidence := marginal_confidence; es_entropy := entropy |}.

Definition target (marginal_confidence entropy : fval) : target_sample :=
  {| ts_marginal_confidence := marginal_confidence; ts_entropy := entropy |}.

Definition only_eval (rows : list eval_sample) : batch :=
  {| b_eval := rows; b_target := []; b_labels := [] |}.

Definition only_target (rows : list target_sample) (labels : list Z) : batch :=
  {| b_eval := []; b_target := rows; b_labels := labels |}.
End Probe.

(** ** Concrete runs *)

Module Demo.
Import Probe.

(** Two samples of a target validation set with two source classes: one
    of class 0, scored as known, and one of a class the source does not
    have, scored as unknown. *)
Definition rows : list eval_sample :=
  [ sample 0 [dec 0.9; dec 0.1] 0 (dec 0.8) (dec 0.2);
    sample 2 [dec 0.5; dec 0.5] 0 (dec 0.1) (dec 0.9) ].

(** Two target samples with raw scores 0.5 and 0.9. *)
Definition targets : list target_sample :=
  [ target (dec 0.5) (dec 0.5); target (dec 0.9) (dec 0.1) ].

Definition a_batch : batch :=
  {| b_eval := rows; b_target := targets; b_labels := [0%Z; 1%Z] |}.

Definition collab : collaborators net batch :=
  Probe.collab 2%nat 1%nat [a_batch] (λ _ _, a_batch).

(** [cmu.py data -s A -t W -b 2 --epochs 2 --epochs-pretrain 0 -i 2] *)
Definition args : args :=
  {| arg_root := "data"; arg_data := "Office31";
     arg_source := "A"; arg_target := "W";
     arg_threshold := dec 0.7; arg_src_threshold := dec 0.4;
     arg_cut := dec 0.1; arg_trade_off := dec 1;
     arg_batch_size := 2; arg_epochs := 2; arg_epochs_pretrain := 0;
     arg_iters_per_epoch := 2; arg_print_freq := 50;
     arg_phase := PhaseTrain |}.

Definition final : world net := (run collab args [] None).2.

(** A world as [main] has it when stage 2 starts: the three optimizers
    with their schedulers, and the two bound tensors. *)
Definition stage2_world : world net :=
  {| tensors := [Fin 0; Fin 0];
     optimizers :=
       [ {| opt_modules := [classifier; ens_classifier];
            opt_lr := lr_lambda 0; opt_steps := 0%nat |};
         {| opt_modules := [classifier; domain_discri];
            opt_lr := lr_lambda 0; opt_steps := 0%nat |};
         {| opt_modules := [ens_classifier];
            opt_lr := lr_lambda 0; opt_steps := 0%nat |} ];
     schedulers :=
       [ {| sched_optimizer := 0%nat; sched_last_epoch := 0 |};
         {| sched_optimizer := 1%nat; sched_last_epoch := 0 |};
         {| sched_optimizer := 2%nat; sched_last_epoch := 0 |} ];
     parameters := [];
     positions := λ _, 0%nat;
     latest_checkpoint := None;
     best_checkpoint := None;
     trace := [] |}.
End Demo.

(** The call of [train] and the score meters, in the order of the trace. *)
Definition bounds_log (t : list event) : list event :=
  omap (λ e, match e with
             | call_train _ _ _ | score_meter _ _ => Some e
             | _ => None
             end) t.

(** The values the score-upper meter received. *)
Definition score_upper_log (t : list event) : tensor :=
  omap (λ e, match e with score_meter u _ => Some u | _ => None end) t.

(** Three iterations whose target batches have the maximal raw scores 0.5,
    0.9 and 0.2 (and the minimal raw score 0.1). *)
Module DemoRecurrence.
Import Probe.

Definition batch_with (marginal_confidence entropy : fval) : batch :=
  {| b_eval := Demo.rows;
     b_target := [ target marginal_confidence entropy;
                   target (dec 0.1) (dec 0.9) ];
     b_labels := [0%Z; 1%Z] |}.

Definition stream (L : DataLoader) (k : nat) : batch :=
  match k with
  | 0%nat => batch_with (dec 0.5) (dec 0.5)
  | 1%nat => batch_with (dec 0.9) (dec 0.1)
  | _ => batch_with (dec 0.2) (dec 0.8)
  end.

Definition collab : collaborators net batch :=
  Probe.collab 2%nat 1%nat [Demo.a_batch] stream.

(** [cmu.py data -s A -t W -b 2 --epochs 1 --epochs-pretrain 0 -i 3] *)
Definition args : args :=
  {| arg_root := "data"; arg_data := "Office31";
     arg_source := "A"; arg_target := "W";
     arg_threshold := dec 0.7; arg_src_threshold := dec 0.4;
     arg_cut := dec 0.1; arg_trade_off := dec 1;
     arg_batch_size := 2; arg_epochs := 1; arg_epochs_pretrain := 0;
     arg_iters_per_epoch := 3; arg_print_freq := 50;
     arg_phase := PhaseTrain |}.

Definition final : world net := (run collab args [] None).2.
End DemoRecurrence.

(** Batches of one sample: the maximum and the minimum of every batch
    coincide.  The raw scores are 0.5 and then 0.495. *)
Module DemoDegenerate.
Import Probe.

Definition single (marginal_confidence entropy : fval) : batch :=
  {| b_eval := Demo.rows;
     b_target := [ target marginal_confidence entropy ];
     b_labels := [0%Z] |}.

Definition stream (L : DataLoader) (k : nat) : batch :=
  match k with
  | 0%nat => single (dec 0.5) (dec 0.5)
  | _ => single (dec 0.495) (dec 0.505)
  end.

Definition collab : collaborators net batch :=
  Probe.collab 2%nat 1%nat [Demo.a_batch] stream.

(** [cmu.py data -s A -t W -b 1 --epochs 1 --epochs-pretrain 0 -i 2] *)
Definition args : args :=
  {| arg_root := "data"; arg_data := "Office31";
     arg_source := "A"; arg_target := "W";
     arg_threshold := dec 0.7; arg_src_threshold := dec 0.4;
     arg_cut := dec 0.1; arg_trade_off := dec 1;
     arg_batch_size := 1; arg_epochs := 1; arg_epochs_pretrain := 0;
     arg_iters_per_epoch := 2; arg_print_freq := 50;
     arg_phase := PhaseTrain |}.

Definition final : world net := (run collab args [] None).2.
End DemoDegenerate.

(** A pass none of whose samples reaches the source threshold: the
    combined scores are 1/2, 1/2 and 6/7, and the threshold is 0.9. *)
Module DemoEmpty.
Import Probe.

Definition rows : list eval_sample :=
  [ sample 0 [dec 0.9; dec 0.1] 0 (dec 0.8) (dec 0.9);
    sample 5 [dec 0.2; dec 0.8] 1 (dec 0.1) (dec 0.2);
    sample 0 [dec 0.6; dec 0.4] 0 (dec 0.7) (dec 0.3) ].

Definition collab : collaborators net batch :=
  Probe.collab 2%nat 1%nat [only_eval rows] (λ _ _, Demo.a_batch).

(** [cmu.py data -s A -t W -b 2 --epochs 1 --epochs-pretrain 0 -i 1
    --src-threshold 0.9] *)
Definition args : args :=
  {| arg_root := "data"; arg_data := "Office31";
     arg_source := "A"; arg_target := "W";
     arg_threshold := dec 0.7; arg_src_threshold := dec 0.9;
     arg_cut := dec 0.1; arg_trade_off := dec 1;
     arg_batch_size := 2; arg_epochs := 1; arg_epochs_pretrain := 0;
     arg_iters_per_epoch := 1; arg_print_freq := 50;
     arg_phase := PhaseTrain |}.

Definition final : world net := (run collab args [] None).2.
End DemoEmpty.

(** An evaluation set on which nothing is right: a sample of the known
    class 0 predicted as class 1, a sample of a private target class (label
    5) predicted as class 0 with a high score, and a sample of class 0 whose
    score falls below the threshold. *)
Module DemoZero.
Import Probe.

Definition rows : list eval_sample :=
  [ sample 0 [dec 0.2; dec 0.8] 1 (dec 0.9) (dec 0.1);
    sample 5 [dec 0.7; dec 0.3] 0 (dec 0.9) (dec 0.1);
    sample 0 [dec 0.6; dec 0.4] 0 (dec 0.1) (dec 0.9) ].

Definition collab : collaborators net batch :=
  Probe.collab 2%nat 1%nat [only_eval rows] (λ _ _, Demo.a_batch).

(** [cmu.py data -s A -t W -b 2 --epochs 1 --epochs-pretrain 0 -i 1] *)
Definition args : args :=
  {| arg_root := "data"; arg_data := "Office31";
     arg_source := "A"; arg_target := "W";
     arg_threshold := dec 0.7; arg_src_threshold := dec 0.4;
     arg_cut := dec 0.1; arg_trade_off := dec 1;
     arg_batch_size := 2; arg_epochs := 1; arg_epochs_pretrain := 0;
     arg_iters_per_epoch := 1; arg_print_freq := 50;
     arg_phase := PhaseTrain |}.
End DemoZero.

(** The specification's reading of the training loop: each statistic
    normalised against the running bounds on its own, and the two then
    combined. *)
Definition separately_normalized (marginal_confidence entropy : tensor)
    (upper lower : fval) : tensor :=
  combine (running_normalize marginal_confidence upper lower)
          (running_normalize entropy upper lower).

(** ** Predicates on runs

    What the statements below are made of: invariants of the world,
    pre- and postconditions of a computation, the events of a pass, and the
    pure content of the two evaluation-mode passes. *)

Definition Qcmax (a b : Qc) : Qc := if decide (a < b) then b else a.
Definition Qcmin (a b : Qc) : Qc := if decide (b < a) then b else a.

(** The events of one pass over a loader with [n] batches: per batch, the
    backbone and then all ensemble heads, both without gradients. *)
Definition pass_events (L : DataLoader) (ks : list nat) : list event :=
  ks ≫= λ k, [forward backbone false L k; forward (ensemble (-1)) false L k].

(** What [calc_source_class_weight] computes from the rows of its pass. *)
Definition class_weight_of (num_classes : nat) (a : args)
    (pass : list (list eval_sample)) : result tensor :=
  all_score ← static_score
    ((λ rows : list eval_sample, es_marginal_confidence <$> rows) <$> pass)
    ((λ rows : list eval_sample, es_entropy <$> rows) <$> pass);
  all_output ← torch_cat
    ((λ rows : list eval_sample, es_output <$> rows) <$> pass);
  norm (mean_dim0 num_classes
          (mask_select all_output
             ((λ s, fgeb s (arg_src_threshold a)) <$> all_score))).

(** What [validate] computes from the rows of its pass. *)
Definition metrics_of {net batch} (K : collaborators net batch) (a : args)
    (pass : list (list eval_sample)) : result (fval * fval) :=
  all_score ← static_score
    ((λ rows : list eval_sample, es_marginal_confidence <$> rows) <$> pass)
    ((λ rows : list eval_sample, es_entropy <$> rows) <$> pass);
  all_predictions ← torch_cat
    ((λ rows : list eval_sample, es_prediction <$> rows) <$> pass);
  all_labels ← torch_cat
    ((λ rows : list eval_sample, es_label <$> rows) <$> pass);
  summarize K
    (ConfusionMatrix_accs (confusion K a all_score all_predictions all_labels)).

(** The events of the class-weight pass of [main]: the call on the loader
    it is handed, then every batch of that loader through the backbone and
    the ensemble with gradients off. *)
Definition weight_pass {net batch} (K : collaborators net batch) (a : args)
    : list event :=
  call_calc_source_class_weight (val_loader a) ::
  pass_events (val_loader a)
    (seq 0 (length (loader_batches K (val_loader a)))).

Section Predicates.
Context {net batch : Type} (K : collaborators net batch).
Implicit Types w : world net.

(** An invariant [I] of the world that no step of the driver can break,
    as long as the events emitted satisfy [φ]. *)
Record stable (φ : event → Prop) (I : world net → Prop) : Prop := {
  st_emit w e : I w → φ e → I (set_trace (trace w ++ [e]) w);
  st_tensor w v : I w → I (set_tensors (tensors w ++ [v]) w);
  st_new_optimizer w ob :
    I w → I (set_optimizers (optimizers w ++ [ob]) w);
  st_upd_optimizer w o ob lr steps :
    I w → optimizers w !! o = Some ob →
    I (set_optimizers (<[o := {| opt_modules := opt_modules ob;
                                 opt_lr := lr; opt_steps := steps |}]>
                         (optimizers w)) w);
  st_new_scheduler w sb :
    I w → I (set_schedulers (schedulers w ++ [sb]) w);
  st_upd_scheduler w s sb e :
    I w → schedulers w !! s = Some sb →
    I (set_schedulers (<[s := {| sched_optimizer := sched_optimizer sb;
                                 sched_last_epoch := e |}]>
                         (schedulers w)) w);
  st_parameters w p : I w → I (set_parameters p w);
  st_positions w ps : I w → I (set_positions ps w);
  st_checkpoints w l b : I w → I (set_checkpoints l b w);
}.

Definition keeps {A} (I : world net → Prop) (m : M A) : Prop :=
  ∀ w, I w → I (m w).2.

Definition triple {A} (P : world net → Prop) (m : M A)
    (Q : result A → world net → Prop) : Prop :=
  ∀ w, P w → Q (m w).1 (m w).2.

(** Events other than the calls of [train] and [train_ens_classifier]. *)
Definition plain (e : event) : Prop :=
  match e with
  | call_train _ _ _ | call_train_ens_classifier _ _ _ _ => False
  | _ => True
  end.

(** Events other than the call of [train]. *)
Definition not_call_train (e : event) : Prop :=
  match e with
  | call_train _ _ _ => False
  | _ => True
  end.

(** Every call of [train] is handed tensors that hold zero. *)
Definition bounds_zero (e : event) : Prop :=
  match e with
  | call_train _ upper lower => upper = Fin 0 ∧ lower = Fin 0
  | _ => True
  end.

(** The tensors at [ls] hold zero, and so far [train] only saw zeros. *)
Definition zero_at (ls : list loc) w : Prop :=
  Forall bounds_zero (trace w) ∧
  Forall (λ l, tensors w !! l = Some (Fin 0)) ls.

(** The rows that the networks give on each batch of a loader. *)
Definition pass_rows (L : DataLoader) w : list (list eval_sample) :=
  eval_forward K (parameters w) <$> loader_batches K L.

Definition no_train_yet w : Prop := Forall not_call_train (trace w).

Definition weights_done (a : args) w : Prop :=
  ∃ before rest, Forall not_call_train before ∧
    trace w = before ++ weight_pass K a ++ rest.

End Predicates.

(** The scheduler at [s] stands at epoch [e] and drives the optimizer at
    [o], which updates [modules], holds the rate of that epoch and has taken
    [steps] steps. *)
Definition shared_at {net} (s o : loc) (modules : list module_id) (e : Z)
    (steps : nat) (w : world net) : Prop :=
  schedulers w !! s =
    Some {| sched_optimizer := o; sched_last_epoch := e |} ∧
  optimizers w !! o =
    Some {| opt_modules := modules; opt_lr := lr_lambda e;
            opt_steps := steps |}.

(** Every refresh loop is called with the optimizer at [o] and the
    scheduler at [s]. *)
Definition refresh_uses (o s : loc) (e : event) : Prop :=
  match e with
  | call_train_ens_classifier _ _ o' s' => o' = o ∧ s' = s
  | _ => True
  end.

Definition not_call_refresh (e : event) : Prop :=
  match e with
  | call_train_ens_classifier _ _ _ _ => False
  | _ => True
  end.

Definition no_refresh_yet {net} (w : world net) : Prop :=
  Forall not_call_refresh (trace w).

(** After [ens_optimizer] and its scheduler exist: the refresh loops so far
    all used them, the optimizer is the one over the ensemble parameters,
    and the scheduler is attached to it. *)
Definition ens_shared {net} (o s : loc) (w : world net) : Prop :=
  Forall (refresh_uses o s) (trace w) ∧
  (∃ ob, optimizers w !! o = Some ob ∧ opt_modules ob = [ens_classifier]) ∧
  (∃ sb, schedulers w !! s = Some sb ∧ sched_optimizer sb = o).

(** The samples of a pass whose combined score reaches the threshold. *)
Definition selected (threshold : fval) (samples : list eval_sample)
    (all_score : tensor) : list eval_sample :=
  (filter (λ p, fgeb p.2 threshold = true) (zip samples all_score)).*1.

(** Entry [j] of the column-wise mean of a list of class-probability rows:
    the sum of the [j]-th entries over their number. *)
Definition column_mean (rows : matrix) (j : nat) : fval :=
  (foldr fadd (Fin 0) ((λ r, r !!! j) <$> rows) / of_count (length rows))%F.

Definition column_means (ncols : nat) (rows : matrix) : tensor :=
  column_mean rows <$> seq 0 ncols.

(** A weight in the unit interval. *)
Definition unit_weight (v : fval) : Prop :=
  ∃ q : Qc, v = Fin q ∧ 0 ≤ q ∧ q ≤ 1.

(** The arguments of [Demo] with [--phase test]. *)
Module DemoTest.
Definition args : args :=
  {| arg_root := "data"; arg_data := "Office31";
     arg_source := "A"; arg_target := "W";
     arg_threshold := dec 0.7; arg_src_threshold := dec 0.4;
     arg_cut := dec 0.1; arg_trade_off := dec 1;
     arg_batch_size := 2; arg_epochs := 2; arg_epochs_pretrain := 0;
     arg_iters_per_epoch := 2; arg_print_freq := 50;
     arg_phase := PhaseTest |}.
End DemoTest.

Section MorePredicates.
Context {net : Type}.
Implicit Types w : world net.

(** The two checkpoint files: latest and best. *)
Definition checkpoints w : option net * option net :=
  (latest_checkpoint w, best_checkpoint w).

(** A computation that leaves an observation [f] of the world as it
    was, whether it returns or raises. *)
Definition preserves {A X} (f : world net → X) (m : M A) : Prop :=
  ∀ w, f (m w).2 = f w.
End MorePredicates.

(** An evaluation set without a sample of a private class, all of whose
    samples score below the threshold: the known accuracy is 0 and the
    unknown accuracy is [0 / 0]. *)
Module DemoNoUnknown.
Import Probe.

Definition rows : list eval_sample :=
  [ sample 0 [dec 0.9; dec 0.1] 0 (dec 0.8) (dec 0.9);
    sample 1 [dec 0.2; dec 0.8] 1 (dec 0.1) (dec 0.2) ].

Definition collab : collaborators net batch :=
  Probe.collab 2%nat 1%nat [only_eval rows] (λ _ _, Demo.a_batch).
End DemoNoUnknown.

Section EndPredicates.
Context {net batch : Type} (K : collaborators net batch).
Implicit Types w : world net.

(** What holds of a run that came through the last three statements of
    [main]: the load of the best checkpoint and the final test. *)
Definition ended_on_best (a : args) (r : result unit) w : Prop :=
  r = Ok () →
  ∃ saved before t m,
    best_checkpoint w = Some saved ∧
    parameters w = load_state_dict K before saved ∧
    trace w = t ++ call_validate (test_loader a) ::
                pass_events (test_loader a)
                  (seq 0 (length (loader_batches K (test_loader a)))) ∧
    metrics_of K a (pass_rows K (test_loader a) w) = Ok m.

(** The best checkpoint is still missing. *)
Definition no_best w : Prop := best_checkpoint w = None.
End EndPredicates.

Section Counters.
Context {net : Type}.
Implicit Types w : world net.

(** A computation that, when it returns, has moved a counter [f] of the
    world by [n]. *)
Definition advances {A} (f : world net → Z) (n : Z) (m : M A) : Prop :=
  ∀ w a w', m w = (Ok a, w') → f w' = (f w + n)%Z.

(** Batches drawn from an iterator so far. *)
Definition drawn (it : iterator) w : Z := Z.of_nat (positions w it).

(** Calls of [step()] an optimizer has taken (0 where there is none). *)
Definition steps_of (o : loc) w : Z :=
  from_option (λ ob, Z.of_nat (opt_steps ob)) 0%Z (optimizers w !! o).

(** The epoch a scheduler stands at (0 where there is none). *)
Definition epoch_of (s : loc) w : Z :=
  from_option sched_last_epoch 0%Z (schedulers w !! s).
End Counters.

(** The arguments of [Demo] with one pretraining epoch and
    [--print-freq 0]. *)
Module DemoZeroFrequency.
Definition args : args :=
  {| arg_root := "data"; arg_data := "Office31";
     arg_source := "A"; arg_target := "W";
     arg_threshold := dec 0.7; arg_src_threshold := dec 0.4;
     arg_cut := dec 0.1; arg_trade_off := dec 1;
     arg_batch_size := 2; arg_epochs := 2; arg_epochs_pretrain := 1;
     arg_iters_per_epoch := 2; arg_print_freq := 0;
     arg_phase := PhaseTrain |}.
End DemoZeroFrequency.

(** ** The schedule of a run *)

(** The calls of the stages, as the log shows them. *)
Inductive stage : Type :=
  | Spretrain (epoch : nat)
  | Sweights (loader : DataLoader)
  | Strain (epoch : nat)
  | Srefresh (classifier_index epoch : nat)
  | Svalidate (loader : DataLoader)
  | Sanalysis.

#[global] Instance stage_eq_dec : EqDecision stage.
Proof. solve_decision. Defined.

Definition stage_label (e : event) : option stage :=
  match e with
  | call_pretrain epoch => Some (Spretrain epoch)
  | call_calc_source_class_weight L => Some (Sweights L)
  | call_train epoch _ _ => Some (Strain epoch)
  | call_train_ens_classifier i epoch _ _ => Some (Srefresh i epoch)
  | call_validate L => Some (Svalidate L)
  | call_analysis => Some Sanalysis
  | _ => None
  end.

Section Schedule.
Context {net : Type}.
Implicit Types w : world net.

Definition schedule w : list stage := omap stage_label (trace w).

(** A computation that, when it returns, has added [l] to a log [f] of
    the world. *)
Definition appends {A X} (f : world net → list X) (l : list X)
    (m : M A) : Prop :=
  ∀ w a w', m w = (Ok a, w') → f w' = f w ++ l.
End Schedule.

(** The stages of one epoch of stage 2, and of a whole training run. *)
Definition epoch_schedule (a : args) (epoch : nat) : list stage :=
  Strain epoch :: ((λ i, Srefresh i epoch) <$> seq 0 5)
    ++ [Svalidate (val_loader a)].

Definition training_schedule (a : args) : list stage :=
  (Spretrain <$> range (arg_epochs_pretrain a))
  ++ Sweights (val_loader a)
  :: (range (arg_epochs a) ≫= epoch_schedule a)
  ++ [Svalidate (test_loader a)].

(** * Properties *)

(** ** Arithmetic on extended rationals *)

Lemma fltb_Fin a b : fltb (Fin a) (Fin b) = true ↔ a < b.
Proof. simpl. apply bool_decide_eq_true. Qed.

Lemma feqb_Fin a b : feqb (Fin a) (Fin b) = true ↔ a = b.
Proof.
  simpl. rewrite bool_decide_eq_true. split; [by intros [= ->] | by intros ->].
Qed.

Lemma feqb_NaN_l x : feqb NaN x = false.
Proof. done. Qed.

Lemma feqb_refl_finite x : x ≠ NaN → feqb x x = true.
Proof. destruct x; try done; intros _; simpl; by apply bool_decide_eq_true. Qed.

Lemma feqb_true x y : feqb x y = true → x = y ∧ x ≠ NaN.
Proof.
  destruct x, y; simpl; try done;
    rewrite bool_decide_eq_true; by intros ->.
Qed.

Lemma is_finite_Fin x : is_finite x → ∃ q, x = Fin q.
Proof. destruct x; simpl; try done. eauto. Qed.

Lemma Forall_finite_fmap (t : tensor) :
  Forall is_finite t → ∃ qs : list Qc, t = Fin <$> qs.
Proof.
  induction 1 as [|x t Hx _ [qs ->]].
  - by exists [].
  - destruct (is_finite_Fin x Hx) as [q ->]. by exists (q :: qs).
Qed.

Lemma fmax2_Fin a b : fmax2 (Fin a) (Fin b) = Fin (Qcmax a b).
Proof. unfold fmax2, Qcmax, fltb. by case_bool_decide; case_decide. Qed.

Lemma fmin2_Fin a b : fmin2 (Fin a) (Fin b) = Fin (Qcmin a b).
Proof. unfold fmin2, Qcmin, fltb. by case_bool_decide; case_decide. Qed.

Lemma foldl_fmax2_Fin a qs :
  foldl fmax2 (Fin a) (Fin <$> qs) = Fin (foldl Qcmax a qs).
Proof.
  revert a. induction qs as [|q qs IH]; intros a; [done|].
  cbn [fmap list_fmap foldl]. by rewrite fmax2_Fin, <-IH.
Qed.

Lemma foldl_fmin2_Fin a qs :
  foldl fmin2 (Fin a) (Fin <$> qs) = Fin (foldl Qcmin a qs).
Proof.
  revert a. induction qs as [|q qs IH]; intros a; [done|].
  cbn [fmap list_fmap foldl]. by rewrite fmin2_Fin, <-IH.
Qed.

Lemma Qcmax_ge_l a b : a ≤ Qcmax a b.
Proof. unfold Qcmax. case_decide; [by apply Qclt_le_weak | apply Qcle_refl]. Qed.

Lemma Qcmax_ge_r a b : b ≤ Qcmax a b.
Proof. unfold Qcmax. case_decide; [apply Qcle_refl | by apply Qcnot_lt_le]. Qed.

Lemma Qcmin_le_l a b : Qcmin a b ≤ a.
Proof. unfold Qcmin. case_decide; [by apply Qclt_le_weak | apply Qcle_refl]. Qed.

Lemma Qcmin_le_r a b : Qcmin a b ≤ b.
Proof. unfold Qcmin. case_decide; [apply Qcle_refl | by apply Qcnot_lt_le]. Qed.

Lemma foldl_Qcmax_ge a qs :
  a ≤ foldl Qcmax a qs ∧ Forall (λ q, q ≤ foldl Qcmax a qs) qs.
Proof.
  revert a. induction qs as [|q qs IH]; intros a; simpl.
  - split; [apply Qcle_refl | constructor].
  - destruct (IH (Qcmax a q)) as [H1 H2]. split.
    + eapply Qcle_trans; [apply Qcmax_ge_l | exact H1].
    + constructor; [|done].
      eapply Qcle_trans; [apply Qcmax_ge_r | exact H1].
Qed.

Lemma foldl_Qcmin_le a qs :
  foldl Qcmin a qs ≤ a ∧ Forall (λ q, foldl Qcmin a qs ≤ q) qs.
Proof.
  revert a. induction qs as [|q qs IH]; intros a; simpl.
  - split; [apply Qcle_refl | constructor].
  - destruct (IH (Qcmin a q)) as [H1 H2]. split.
    + eapply Qcle_trans; [exact H1 | apply Qcmin_le_l].
    + constructor; [|done].
      eapply Qcle_trans; [exact H1 | apply Qcmin_le_r].
Qed.

(** The extremes of a non-empty finite tensor are finite and bound it. *)
Lemma tensor_max_finite (qs : list Qc) :
  qs ≠ [] →
  ∃ m, tensor_max (Fin <$> qs) = Ok (Fin m) ∧ Forall (λ q, q ≤ m) qs.
Proof.
  destruct qs as [|a qs]; [done|]. intros _. simpl.
  exists (foldl Qcmax a qs). rewrite <-foldl_fmax2_Fin. split; [done|].
  destruct (foldl_Qcmax_ge a qs). by constructor.
Qed.

Lemma tensor_min_finite (qs : list Qc) :
  qs ≠ [] →
  ∃ m, tensor_min (Fin <$> qs) = Ok (Fin m) ∧ Forall (λ q, m ≤ q) qs.
Proof.
  destruct qs as [|a qs]; [done|]. intros _. simpl.
  exists (foldl Qcmin a qs). rewrite <-foldl_fmin2_Fin. split; [done|].
  destruct (foldl_Qcmin_le a qs). by constructor.
Qed.

Lemma Qc_unit_interval (v lo hi : Qc) :
  lo ≤ v → v ≤ hi → hi ≠ lo →
  0 ≤ (v - lo) / (hi - lo) ∧ (v - lo) / (hi - lo) ≤ 1.
Proof.
  intros Hlo Hhi Hne.
  assert (Hpos : 0 < hi - lo).
  { apply (proj1 (Qclt_minus_iff lo hi)).
    destruct (Qcle_lt_or_eq lo hi) as [?|E]; [by eapply Qcle_trans|done|by subst]. }
  assert (Hinv : 0 < / (hi - lo)) by (by apply Qcinv_pos).
  assert (Hnz : hi - lo ≠ 0) by (intros E; rewrite E in Hpos; by apply (irreflexivity Qclt) in Hpos).
  unfold Qcdiv. split.
  - apply Qcmult_nonneg_nonneg; [|by apply Qclt_le_weak].
    by apply (proj1 (Qcle_minus_iff lo v)).
  - rewrite <-(Qcmult_inv_r (hi - lo)) by done.
    apply Qcmult_le_compat_r; [|by apply Qclt_le_weak].
    by apply Qcplus_le_mono_r.
Qed.

(** ** Reasoning about runs of the driver *)

Section Logic.
Context {net batch : Type} (K : collaborators net batch).
Implicit Types w : world net.

#[local] Existing Instance M_ret.
#[local] Existing Instance M_bind.

Lemma bind_run {A B} (m : M A) (f : A → M B) w :
  (m ≫= f) w =
  match m w with
  | (Ok a, w') => f a w'
  | (Raise e, w') => (Raise e, w')
  end.
Proof. reflexivity. Qed.

Lemma bind_run_Ok {A B} (m : M A) (f : A → M B) w a w' :
  m w = (Ok a, w') → (m ≫= f) w = f a w'.
Proof. intros H. by rewrite bind_run, H. Qed.

Lemma bind_inv_Ok {A B} (m : M A) (f : A → M B) w b w2 :
  (m ≫= f) w = (Ok b, w2) →
  ∃ a w1, m w = (Ok a, w1) ∧ f a w1 = (Ok b, w2).
Proof.
  rewrite bind_run. destruct (m w) as [[a|e] w1]; [eauto | done].
Qed.

Lemma display_run a i w :
  arg_print_freq a ≠ 0%Z → display a i w = (Ok (), w).
Proof. intros H. unfold display. by rewrite decide_False. Qed.

Section Keeps.
Context (φ : event → Prop) (I : world net → Prop) (HI : stable φ I).

Lemma keeps_bind {A B} (m : M A) (f : A → M B) :
  keeps I m → (∀ a, keeps I (f a)) → keeps I (m ≫= f).
Proof.
  intros Hm Hf w Hw. rewrite bind_run. specialize (Hm w Hw).
  destruct (m w) as [[a|e] w1]; simpl in *; [by apply Hf | done].
Qed.

Lemma keeps_ret {A} (a : A) : keeps I (mret a).
Proof. by intros w. Qed.

Lemma keeps_raise {A} e : keeps I (raise e : M A).
Proof. by intros w. Qed.

Lemma keeps_display a i : keeps I (display a i).
Proof. intros w Hw. unfold display. by case_decide. Qed.

Lemma keeps_lift {A} (r : result A) : keeps I (lift r).
Proof. by intros w. Qed.

Lemma keeps_get_parameters : keeps I get_parameters.
Proof. by intros w. Qed.

Lemma keeps_emit e : φ e → keeps I (emit e).
Proof. intros He w Hw. by apply (st_emit _ _ HI). Qed.

Lemma keeps_new_tensor v : keeps I (new_tensor v).
Proof. intros w Hw. by apply (st_tensor _ _ HI). Qed.

Lemma keeps_read_tensor l : keeps I (read_tensor l).
Proof. intros w Hw. unfold read_tensor. by destruct (tensors w !! l). Qed.

Lemma keeps_SGD ms : keeps I (SGD ms).
Proof. intros w Hw. by apply (st_new_optimizer _ _ HI). Qed.

Lemma keeps_set_lr o lr : keeps I (set_lr o lr).
Proof.
  intros w Hw. unfold set_lr.
  destruct (optimizers w !! o) eqn:Ho; [|done].
  by apply (st_upd_optimizer _ _ HI).
Qed.

Lemma keeps_new_scheduler o : keeps I (new_scheduler o).
Proof. intros w Hw. by apply (st_new_scheduler _ _ HI). Qed.

Lemma keeps_LambdaLR o : keeps I (LambdaLR o).
Proof.
  apply keeps_bind; [apply keeps_set_lr | intros; apply keeps_new_scheduler].
Qed.

Lemma keeps_next a it : keeps I (next K a it).
Proof. intros w Hw. by apply (st_positions _ _ HI). Qed.

Lemma keeps_optimizer_step_ o u :
  φ (optimizer_step o) → keeps I (optimizer_step_ K o u).
Proof.
  intros He w Hw. unfold optimizer_step_.
  destruct (optimizers w !! o) eqn:Ho; [|done].
  apply keeps_emit; [done|].
  by apply (st_parameters _ _ HI), (st_upd_optimizer _ _ HI).
Qed.

Lemma keeps_scheduler_step_ s :
  φ (scheduler_step s) → keeps I (scheduler_step_ s).
Proof.
  intros He w Hw. unfold scheduler_step_.
  destruct (schedulers w !! s) eqn:Hs; [|done].
  apply keeps_bind; [apply keeps_set_lr | intros; by apply keeps_emit |].
  by apply (st_upd_scheduler _ _ HI).
Qed.

Lemma keeps_for_each {A} (l : list A) (body : A → M unit) :
  (∀ x, keeps I (body x)) → keeps I (for_each l body).
Proof.
  intros Hb. induction l as [|x l IH]; simpl.
  - apply keeps_ret.
  - apply keeps_bind; [apply Hb | intros; apply IH].
Qed.

Lemma keeps_for_fold {A S} (l : list A) (s : S) (body : A → S → M S) :
  (∀ x s, keeps I (body x s)) → keeps I (for_fold l s body).
Proof.
  intros Hb. revert s. induction l as [|x l IH]; intros s; simpl.
  - apply keeps_ret.
  - apply keeps_bind; [apply Hb | intros; apply IH].
Qed.

Lemma keeps_load_best : keeps I (load_best K).
Proof.
  intros w Hw. unfold load_best. destruct (best_checkpoint w); [|done].
  by apply (st_parameters _ _ HI).
Qed.

Lemma keeps_save_latest : keeps I save_latest.
Proof. intros w Hw. by apply (st_checkpoints _ _ HI). Qed.

Lemma keeps_copy_latest_to_best : keeps I copy_latest_to_best.
Proof. intros w Hw. by apply (st_checkpoints _ _ HI). Qed.
End Keeps.
End Logic.

(** ** Invariants of the stages *)

Ltac keeps_lem HI L := first [ apply L | eapply L; [ exact HI | .. ] ].

Ltac keeps_step HI :=
  lazymatch goal with
  | |- keeps _ (mret _) => keeps_lem HI @keeps_ret
  | |- keeps _ (raise _) => keeps_lem HI @keeps_raise
  | |- keeps _ (lift _) => keeps_lem HI @keeps_lift
  | |- keeps _ (display _ _) => keeps_lem HI @keeps_display
  | |- keeps _ get_parameters => keeps_lem HI @keeps_get_parameters
  | |- keeps _ (_ ≫= _) => keeps_lem HI @keeps_bind
  | |- keeps _ (new_tensor _) => keeps_lem HI @keeps_new_tensor
  | |- keeps _ (read_tensor _) => keeps_lem HI @keeps_read_tensor
  | |- keeps _ (next _ _ _) => keeps_lem HI @keeps_next
  | |- keeps _ (SGD _) => keeps_lem HI @keeps_SGD
  | |- keeps _ (LambdaLR _) => keeps_lem HI @keeps_LambdaLR
  | |- keeps _ (load_best _) => keeps_lem HI @keeps_load_best
  | |- keeps _ save_latest => keeps_lem HI @keeps_save_latest
  | |- keeps _ copy_latest_to_best => keeps_lem HI @keeps_copy_latest_to_best
  | |- keeps _ (for_each _ _) => keeps_lem HI @keeps_for_each
  | |- keeps _ (for_fold _ _ _) => keeps_lem HI @keeps_for_fold
  | |- keeps _ (emit _) => keeps_lem HI @keeps_emit
  | |- keeps _ (optimizer_step_ _ _ _) => keeps_lem HI @keeps_optimizer_step_
  | |- keeps _ (scheduler_step_ _) => keeps_lem HI @keeps_scheduler_step_
  end.

Ltac keeps_go HI :=
  repeat
    (repeat match goal with |- ∀ _, _ => intro end;
     repeat match goal with
            | p : (_ * _)%type |- _ => destruct p
            end;
     cbn beta iota zeta;
     keeps_step HI).

Section StageInvariants.
Context {net batch : Type} (K : collaborators net batch).
Context (φ : event → Prop) (I : world net → Prop) (HI : stable φ I).

#[local] Existing Instance M_ret.
#[local] Existing Instance M_bind.

Hypothesis Hφ : ∀ e, plain e → φ e.

Lemma keeps_pretrain a o s epoch : keeps I (pretrain K a o s epoch).
Proof. unfold pretrain. keeps_go HI; by apply Hφ. Qed.

Lemma keeps_calc_source_class_weight a L :
  keeps I (calc_source_class_weight K a L).
Proof. unfold calc_source_class_weight. keeps_go HI; by apply Hφ. Qed.

Lemma keeps_train_iteration a o s scw i locals :
  keeps I (train_iteration K a o s scw i locals).
Proof. unfold train_iteration. keeps_go HI; by apply Hφ. Qed.

Lemma keeps_validate a L : keeps I (validate K a L).
Proof. unfold validate. keeps_go HI; by apply Hφ. Qed.

Lemma keeps_train_ens_classifier a it o s i epoch :
  φ (call_train_ens_classifier i epoch o s) →
  keeps I (train_ens_classifier K a it o s i epoch).
Proof.
  intros Hc. unfold train_ens_classifier.
  keeps_step HI; [by keeps_step HI|]. intros _.
  keeps_go HI; by apply Hφ.
Qed.

Lemma keeps_refresh_epoch a o ss epoch :
  (∀ i s, ss !! i = Some s → φ (call_train_ens_classifier i epoch o s)) →
  keeps I (refresh_epoch K a o ss epoch).
Proof.
  intros Hc. unfold refresh_epoch. keeps_step HI. intros i.
  destruct (ss !! i) eqn:Hi; [|keeps_step HI].
  by apply keeps_train_ens_classifier, Hc.
Qed.

Lemma keeps_train a o s scw up lo epoch :
  (∀ upper lower, φ (call_train epoch upper lower)) →
  keeps I (train K a o s scw up lo epoch).
Proof.
  intros Hc. unfold train. keeps_step HI; [keeps_step HI|]. intros upper.
  keeps_step HI; [keeps_step HI|]. intros lower.
  keeps_step HI; [keeps_step HI; apply Hc|]. intros _.
  keeps_step HI; [|intros; keeps_step HI].
  keeps_step HI. intros i locals. apply keeps_train_iteration.
Qed.

Lemma keeps_epoch_tail a (best : fval * fval) :
  keeps I
    (validate K a (val_loader a) ≫= λ '(acc, h_score),
     save_latest;;
     (let best_acc := if fgtb best.1 acc then best.1 else acc in
      if fgtb h_score best.2
      then copy_latest_to_best;; mret (best_acc, h_score)
      else mret (best_acc, best.2))).
Proof.
  keeps_step HI; [apply keeps_validate|].
  intros [acc h_score]. keeps_step HI; [keeps_step HI|]. intros _.
  destruct (fgtb h_score best.2); keeps_go HI.
Qed.

Lemma keeps_stage2_epoch a o s eo ss scw up lo epoch best :
  (∀ upper lower, φ (call_train epoch upper lower)) →
  (∀ i s, ss !! i = Some s → φ (call_train_ens_classifier i epoch eo s)) →
  keeps I (stage2_epoch K a o s eo ss scw up lo epoch best).
Proof.
  intros Hc1 Hc2.
  unfold stage2_epoch. destruct best as [best_acc best_h_score].
  keeps_step HI; [by apply keeps_train|]. intros _.
  keeps_step HI; [by apply keeps_refresh_epoch|].
  intros _. apply (keeps_epoch_tail a (best_acc, best_h_score)).
Qed.
End StageInvariants.

(** ** Pre- and postconditions *)

Section Triples.
Context {net batch : Type} (K : collaborators net batch).
Implicit Types w : world net.

#[local] Existing Instance M_ret.
#[local] Existing Instance M_bind.

Lemma triple_bind {A B} (R : result A → world net → Prop)
    (P : world net → Prop) (m : M A) (f : A → M B)
    (Q : result B → world net → Prop) :
  triple P m R →
  (∀ a, triple (R (Ok a)) (f a) Q) →
  (∀ e w, R (Raise e) w → Q (Raise e) w) →
  triple P (m ≫= f) Q.
Proof.
  intros Hm Hf Hr w Hw. rewrite bind_run. specialize (Hm w Hw).
  destruct (m w) as [[a|e] w1]; simpl in *; [by apply Hf | by apply Hr].
Qed.

Lemma triple_keeps {A} (I : world net → Prop) (m : M A) :
  keeps I m → triple I m (λ _, I).
Proof. intros H w Hw. by apply H. Qed.

Lemma triple_weaken {A} (P P' : world net → Prop) (m : M A)
    (Q Q' : result A → world net → Prop) :
  triple P' m Q' → (∀ w, P w → P' w) → (∀ r w, Q' r w → Q r w) →
  triple P m Q.
Proof. intros H HP HQ w Hw. by apply HQ, H, HP. Qed.

(** A step that keeps an invariant, followed by a continuation that is
    specified from the invariant alone. *)
Lemma triple_bind_keeps {A B} (I : world net → Prop) (m : M A)
    (f : A → M B) (Q : result B → world net → Prop) :
  keeps I m →
  (∀ a, triple I (f a) Q) →
  (∀ e w, I w → Q (Raise e) w) →
  triple I (m ≫= f) Q.
Proof.
  intros Hm Hf Hr. apply (triple_bind (λ _, I)); [by apply triple_keeps|done|done].
Qed.

Lemma triple_for_fold_keeps {A S} (I : world net → Prop) (l : list A)
    (s : S) (body : A → S → M S) :
  (∀ x s, keeps I (body x s)) → keeps I (for_fold l s body).
Proof.
  intros Hb. revert s. induction l as [|x l IH]; intros s w Hw; [done|].
  simpl. rewrite bind_run. specialize (Hb x s w Hw).
  destruct (body x s w) as [[s'|e] w1]; simpl in *; [by apply IH | done].
Qed.

Lemma triple_for_each_keeps {A} (I : world net → Prop) (l : list A)
    (body : A → M unit) :
  (∀ x, keeps I (body x)) → keeps I (for_each l body).
Proof.
  intros Hb. induction l as [|x l IH]; intros w Hw; [done|].
  simpl. rewrite bind_run. specialize (Hb x w Hw).
  destruct (body x w) as [[[]|e] w1]; simpl in *; [by apply IH | done].
Qed.
End Triples.

(** ** The score bounds that [train] receives *)

Section Bounds.
Context {net batch : Type} (K : collaborators net batch).
Implicit Types w : world net.

#[local] Existing Instance M_ret.
#[local] Existing Instance M_bind.

Local Abbreviation zero_at := (@zero_at net).

Lemma plain_bounds_zero e : plain e → bounds_zero e.
Proof. by destruct e. Qed.

Lemma zero_at_stable ls : stable bounds_zero (zero_at ls).
Proof.
  split; try (by intros); try (by intros ?? []).
  - intros w e [Ht Hl] He. split; [|done]. simpl.
    apply Forall_app. split; [done | by constructor].
  - intros w v [Ht Hl]. split; [done|]. simpl.
    eapply Forall_impl; [exact Hl|]. intros l Hlk.
    by apply lookup_app_l_Some.
Qed.

Lemma zero_at_trace ls w : zero_at ls w → Forall bounds_zero (trace w).
Proof. by intros [? _]. Qed.

Lemma keeps_train_zero a o s scw up lo epoch :
  keeps (zero_at [up; lo]) (train K a o s scw up lo epoch).
Proof.
  intros w Hw. pose proof Hw as [Ht Hl].
  apply Forall_cons in Hl as [Hup Hl]. apply Forall_cons in Hl as [Hlo _].
  unfold train.
  rewrite (bind_run_Ok _ _ w (Fin 0) w)
    by (unfold read_tensor; by rewrite Hup).
  rewrite (bind_run_Ok _ _ w (Fin 0) w)
    by (unfold read_tensor; by rewrite Hlo).
  pose proof (zero_at_stable [up; lo]) as HI.
  assert (Hk : keeps (zero_at [up; lo])
    (emit (call_train epoch (Fin 0) (Fin 0)) ≫= λ _,
     for_fold (range (arg_iters_per_epoch a)) (up, lo)
       (train_iteration K a o s scw) ≫= λ _, mret ())).
  { keeps_step HI; [keeps_step HI; done|]. intros _.
    keeps_step HI; [|intros; keeps_step HI].
    keeps_step HI. intros i locals.
    apply (keeps_train_iteration K _ _ HI), plain_bounds_zero. }
  exact (Hk w Hw).
Qed.

Lemma keeps_stage2_epoch_zero a o s eo ss scw up lo epoch best :
  keeps (zero_at [up; lo])
    (stage2_epoch K a o s eo ss scw up lo epoch best).
Proof.
  pose proof (zero_at_stable [up; lo]) as HI.
  unfold stage2_epoch. destruct best as [best_acc best_h_score].
  keeps_step HI; [apply keeps_train_zero|]. intros _.
  keeps_step HI.
  { by apply (keeps_refresh_epoch K _ _ HI plain_bounds_zero). }
  intros _.
  apply (keeps_epoch_tail K _ _ HI plain_bounds_zero a
           (best_acc, best_h_score)).
Qed.

Lemma triple_new_tensor_zero {B} ls (f : loc → M B) Q :
  (∀ l, triple (zero_at (l :: ls)) (f l) Q) →
  triple (zero_at ls) (new_tensor (Fin 0) ≫= f) Q.
Proof.
  intros Hf w [Ht Hl]. rewrite bind_run. unfold new_tensor.
  apply Hf. split; [done|]. constructor.
  - simpl. by rewrite lookup_app_r, Nat.sub_diag.
  - simpl. eapply Forall_impl; [exact Hl|]. intros l Hlk.
    by apply lookup_app_l_Some.
Qed.

Lemma main_bounds_zero a :
  triple (zero_at []) (main K a) (λ _ w, Forall bounds_zero (trace w)).
Proof.
  pose proof (zero_at_stable []) as HI.
  pose proof plain_bounds_zero as Hn.
  unfold main.
  apply triple_bind_keeps; [| |intros; by eapply zero_at_trace].
  { case_decide; keeps_go HI. }
  intros _. destruct (arg_phase a).
  - (* train *)
    apply triple_bind_keeps; [keeps_go HI| |intros; by eapply zero_at_trace].
    intros optimizer_pretrain.
    apply triple_bind_keeps; [keeps_go HI| |intros; by eapply zero_at_trace].
    intros lr_scheduler_pretrain.
    apply triple_bind_keeps; [| |intros; by eapply zero_at_trace].
    { keeps_step HI. intros epoch. by apply (keeps_pretrain K _ _ HI). }
    intros _.
    apply triple_bind_keeps; [keeps_go HI| |intros; by eapply zero_at_trace].
    intros optimizer.
    apply triple_bind_keeps; [keeps_go HI| |intros; by eapply zero_at_trace].
    intros lr_scheduler.
    apply triple_bind_keeps; [keeps_go HI| |intros; by eapply zero_at_trace].
    intros ens_optimizer.
    apply triple_bind_keeps; [keeps_go HI| |intros; by eapply zero_at_trace].
    intros s.
    apply triple_new_tensor_zero. intros up.
    apply triple_new_tensor_zero. intros lo.
    eapply triple_weaken with (P' := zero_at [up; lo])
      (Q' := λ _ w, Forall bounds_zero (trace w)); [|
      intros w [? Hl]; split; [done|];
      apply Forall_cons in Hl as [? Hl]; apply Forall_cons in Hl as [? _];
      by repeat constructor | done].
    clear HI. pose proof (zero_at_stable [up; lo]) as HI.
    apply triple_bind_keeps; [| |intros; by eapply zero_at_trace].
    { by apply (keeps_calc_source_class_weight K _ _ HI). }
    intros source_class_weight.
    apply triple_bind_keeps; [| |intros; by eapply zero_at_trace].
    { keeps_step HI. intros epoch best. apply keeps_stage2_epoch_zero. }
    intros _.
    apply triple_bind_keeps; [keeps_go HI| |intros; by eapply zero_at_trace].
    intros _.
    apply triple_bind_keeps; [| |intros; by eapply zero_at_trace].
    { by apply (keeps_validate K _ _ HI). }
    intros _ w Hw. by eapply zero_at_trace.
  - (* test *)
    apply triple_bind_keeps; [| |intros; by eapply zero_at_trace].
    { by apply (keeps_validate K _ _ HI). }
    intros _ w Hw. by eapply zero_at_trace.
  - (* analysis *)
    intros w Hw. eapply zero_at_trace.
    apply (keeps_emit _ _ HI); [done | exact Hw].
Qed.

(** Whatever the networks, the data and the arguments: each epoch's call
    of [train] receives bounds that are zero. *)
Lemma train_always_receives_zero_bounds a init on_disk epoch upper lower :
  call_train epoch upper lower ∈ trace (run K a init on_disk).2 →
  upper = Fin 0 ∧ lower = Fin 0.
Proof.
  intros Hin. unfold run in Hin.
  assert (Hz : zero_at [] (initial_world init on_disk))
    by (split; constructor).
  pose proof (main_bounds_zero a _ Hz) as Hall. simpl in Hall.
  rewrite Forall_forall in Hall. exact (Hall _ Hin).
Qed.
End Bounds.

(** ** The evaluation-mode passes *)

Section Passes.
Context {net batch : Type} (K : collaborators net batch).
Implicit Types w : world net.

#[local] Existing Instance M_ret.
#[local] Existing Instance M_bind.

Lemma set_trace_id w : set_trace (trace w) w = w.
Proof. by destruct w. Qed.

Lemma for_fold_ext {A S} (l : list A) (s : S) (body body' : A → S → M S) w :
  (∀ x s w, body x s w = body' x s w) →
  for_fold l s body w = for_fold l s body' w.
Proof.
  intros H. revert s w. induction l as [|x l IH]; intros s w; [done|].
  simpl. rewrite !bind_run, H. destruct (body' x s w) as [[s'|e] w']; [|done].
  apply IH.
Qed.

Lemma emit2_run {S} (e1 e2 : event) (v : S) w :
  (emit e1;; emit e2;; mret v) w =
  (Ok v, set_trace ((trace w ++ [e1]) ++ [e2]) w).
Proof. reflexivity. Qed.

(** A loop whose body emits two events and updates its accumulator. *)
Lemma for_fold_emit2 {A S} (l : list A) (s : S) (e1 e2 : A → event)
    (g : S → A → S) w :
  for_fold l s (λ x s, emit (e1 x);; emit (e2 x);; mret (g s x)) w =
  (Ok (foldl g s l),
   set_trace (trace w ++ (l ≫= λ x, [e1 x; e2 x])) w).
Proof.
  revert s w. induction l as [|x l IH]; intros s w.
  - simpl. by rewrite app_nil_r, set_trace_id.
  - cbn [for_fold]. rewrite bind_run, emit2_run, IH.
    cbn. by rewrite <-!app_assoc.
Qed.

Lemma imap_pair_fst {A} (l : list A) (k : nat) :
  (imap (λ i x, ((k + i)%nat, x)) l).*1 = seq k (length l).
Proof.
  revert k. induction l as [|x l IH]; intros k; [done|].
  cbn. rewrite Nat.add_0_r. f_equal.
  rewrite <-(IH (S k)). f_equal. apply imap_ext. intros i y _. simpl.
  f_equal. lia.
Qed.

Lemma imap_pair_snd {A} (l : list A) (k : nat) :
  (imap (λ i x, ((k + i)%nat, x)) l).*2 = l.
Proof.
  revert k. induction l as [|x l IH]; intros k; [done|].
  cbn. f_equal. rewrite <-(IH (S k)) at 2. f_equal. apply imap_ext.
  intros i y _. simpl. f_equal. lia.
Qed.

Lemma foldl_collect3 {A B1 B2 B3} (f1 : A → B1) (f2 : A → B2) (f3 : A → B3)
    (l : list A) acc1 acc2 acc3 :
  foldl (λ '(a1, a2, a3) x, (a1 ++ [f1 x], a2 ++ [f2 x], a3 ++ [f3 x]))
    (acc1, acc2, acc3) l =
  (acc1 ++ (f1 <$> l), acc2 ++ (f2 <$> l), acc3 ++ (f3 <$> l)).
Proof.
  revert acc1 acc2 acc3. induction l as [|x l IH]; intros; simpl.
  - by rewrite !app_nil_r.
  - rewrite IH. by rewrite <-!app_assoc.
Qed.

Lemma foldl_collect4 {A B1 B2 B3 B4} (f1 : A → B1) (f2 : A → B2)
    (f3 : A → B3) (f4 : A → B4) (l : list A) acc1 acc2 acc3 acc4 :
  foldl (λ '(a1, a2, a3, a4) x,
           (a1 ++ [f1 x], a2 ++ [f2 x], a3 ++ [f3 x], a4 ++ [f4 x]))
    (acc1, acc2, acc3, acc4) l =
  (acc1 ++ (f1 <$> l), acc2 ++ (f2 <$> l), acc3 ++ (f3 <$> l),
   acc4 ++ (f4 <$> l)).
Proof.
  revert acc1 acc2 acc3 acc4. induction l as [|x l IH]; intros; simpl.
  - by rewrite !app_nil_r.
  - rewrite IH. by rewrite <-!app_assoc.
Qed.

Lemma pass_events_imap L (l : list batch) :
  (imap pair l ≫= λ x : nat * batch,
     [forward backbone false L x.1; forward (ensemble (-1)) false L x.1]) =
  pass_events L (seq 0 (length l)).
Proof.
  unfold pass_events. rewrite <-(imap_pair_fst l 0).
  change (imap pair l) with (imap (λ i (x : batch), ((0 + i)%nat, x)) l).
  generalize (imap (λ i (x : batch), ((0 + i)%nat, x)) l). intros ps.
  induction ps as [|p ps IH]; [done|]. cbn. by rewrite IH.
Qed.

Lemma calc_source_class_weight_run a L w :
  calc_source_class_weight K a L w =
  (class_weight_of (num_classes K) a (pass_rows K L w),
   set_trace (trace w ++ call_calc_source_class_weight L ::
              pass_events L (seq 0 (length (loader_batches K L)))) w).
Proof.
  unfold calc_source_class_weight.
  rewrite bind_run. cbn [emit]. rewrite bind_run. cbn [get_parameters].
  rewrite bind_run.
  erewrite for_fold_ext; last first.
  { intros [k images] [[all_mc all_ent] all_out] w'.
    exact (eq_refl
      ((λ (x : nat * batch) (s : list tensor * list tensor * list matrix),
         emit (forward backbone false L x.1);;
         emit (forward (ensemble (-1)) false L x.1);;
         mret ((λ '(a1, a2, a3) (x : nat * batch),
                 (a1 ++ [es_marginal_confidence <$>
                           eval_forward K (parameters w) x.2],
                  a2 ++ [es_entropy <$> eval_forward K (parameters w) x.2],
                  a3 ++ [es_output <$> eval_forward K (parameters w) x.2]))
                 s x)) (k, images) (all_mc, all_ent, all_out) w')). }
  rewrite for_fold_emit2.
  rewrite (foldl_collect3
    (λ x : nat * batch, es_marginal_confidence <$> eval_forward K (parameters w) x.2)
    (λ x : nat * batch, es_entropy <$> eval_forward K (parameters w) x.2)
    (λ x : nat * batch, es_output <$> eval_forward K (parameters w) x.2)).
  rewrite pass_events_imap. cbn [app trace set_trace].
  assert (Hsnd : ∀ {B} (f : batch → B),
    ((λ x : nat * batch, f x.2) <$> imap pair (loader_batches K L)) =
    (f <$> loader_batches K L)).
  { intros B f. rewrite <-(imap_pair_snd (loader_batches K L) 0) at 2.
    by rewrite <-list_fmap_compose. }
  unfold class_weight_of, pass_rows. rewrite <-!list_fmap_compose.
  rewrite <-!app_assoc. cbn [app].
  unfold lift.
  rewrite (Hsnd _ (λ b, es_marginal_confidence <$> eval_forward K (parameters w) b)).
  rewrite (Hsnd _ (λ b, es_entropy <$> eval_forward K (parameters w) b)).
  rewrite (Hsnd _ (λ b, es_output <$> eval_forward K (parameters w) b)).
  unfold compose.
  destruct (static_score _ _) as [all_score|e]; [|done].
  rewrite !bind_run. cbn.
  destruct (torch_cat _) as [all_output|e]; [|done].
  done.
Qed.

Lemma validate_run a L w :
  validate K a L w =
  (metrics_of K a (pass_rows K L w),
   set_trace (trace w ++ call_validate L ::
              pass_events L (seq 0 (length (loader_batches K L)))) w).
Proof.
  unfold validate.
  rewrite bind_run. cbn [emit]. rewrite bind_run. cbn [get_parameters].
  rewrite bind_run.
  erewrite for_fold_ext; last first.
  { intros [k images] [[[all_mc all_ent] all_pred] all_lab] w'.
    exact (eq_refl
      ((λ (x : nat * batch)
          (s : list tensor * list tensor * list (list Z) * list (list Z)),
         emit (forward backbone false L x.1);;
         emit (forward (ensemble (-1)) false L x.1);;
         mret ((λ '(a1, a2, a3, a4) (x : nat * batch),
                 (a1 ++ [es_marginal_confidence <$>
                           eval_forward K (parameters w) x.2],
                  a2 ++ [es_entropy <$> eval_forward K (parameters w) x.2],
                  a3 ++ [es_prediction <$> eval_forward K (parameters w) x.2],
                  a4 ++ [es_label <$> eval_forward K (parameters w) x.2]))
                 s x)) (k, images) (all_mc, all_ent, all_pred, all_lab) w')). }
  rewrite for_fold_emit2.
  rewrite (foldl_collect4
    (λ x : nat * batch, es_marginal_confidence <$> eval_forward K (parameters w) x.2)
    (λ x : nat * batch, es_entropy <$> eval_forward K (parameters w) x.2)
    (λ x : nat * batch, es_prediction <$> eval_forward K (parameters w) x.2)
    (λ x : nat * batch, es_label <$> eval_forward K (parameters w) x.2)).
  rewrite pass_events_imap. cbn [app trace set_trace].
  assert (Hsnd : ∀ {B} (f : batch → B),
    ((λ x : nat * batch, f x.2) <$> imap pair (loader_batches K L)) =
    (f <$> loader_batches K L)).
  { intros B f. rewrite <-(imap_pair_snd (loader_batches K L) 0) at 2.
    by rewrite <-list_fmap_compose. }
  unfold metrics_of, pass_rows. rewrite <-!list_fmap_compose.
  rewrite <-!app_assoc. cbn [app].
  unfold lift.
  rewrite (Hsnd _ (λ b, es_marginal_confidence <$> eval_forward K (parameters w) b)).
  rewrite (Hsnd _ (λ b, es_entropy <$> eval_forward K (parameters w) b)).
  rewrite (Hsnd _ (λ b, es_prediction <$> eval_forward K (parameters w) b)).
  rewrite (Hsnd _ (λ b, es_label <$> eval_forward K (parameters w) b)).
  unfold compose.
  destruct (static_score _ _) as [all_score|e]; [|done].
  rewrite !bind_run. cbn.
  destruct (torch_cat _) as [all_predictions|e]; [|done]. cbn.
  destruct (torch_cat _) as [all_labels|e]; [|done].
  done.
Qed.
End Passes.

(** ** The class-weight pass comes before adversarial training *)

Section Order.
Context {net batch : Type} (K : collaborators net batch).
Implicit Types w : world net.

#[local] Existing Instance M_ret.
#[local] Existing Instance M_bind.

Local Abbreviation no_train_yet := (@no_train_yet net).

Lemma plain_not_call_train e : plain e → not_call_train e.
Proof. by destruct e. Qed.

Lemma no_train_yet_stable : stable not_call_train no_train_yet.
Proof.
  split; try (by intros).
  intros w e H He. unfold no_train_yet. simpl.
  apply Forall_app. split; [done | by constructor].
Qed.

Lemma weights_done_stable a : stable (λ _, True) (weights_done K a).
Proof.
  split; try (by intros).
  intros w e (before & rest & Hb & Ht) _.
  exists before, (rest ++ [e]). split; [done|]. simpl.
  by rewrite Ht, <-!app_assoc.
Qed.

Lemma weight_pass_no_train a : Forall not_call_train (weight_pass K a).
Proof.
  unfold weight_pass, pass_events. constructor; [done|].
  generalize (seq 0 (length (loader_batches K (val_loader a)))).
  intros ks. induction ks as [|k ks IH]; [constructor|].
  cbn. by repeat constructor.
Qed.

Lemma calc_source_class_weight_order a :
  triple no_train_yet (calc_source_class_weight K a (val_loader a))
    (λ _, weights_done K a).
Proof.
  intros w Hw. rewrite calc_source_class_weight_run. simpl.
  exists (trace w), []. split; [done|]. by rewrite app_nil_r.
Qed.

Lemma main_order a :
  triple no_train_yet (main K a)
    (λ _ w, no_train_yet w ∨ weights_done K a w).
Proof.
  pose proof no_train_yet_stable as HI.
  pose proof plain_not_call_train as Hn.
  unfold main.
  apply triple_bind_keeps; [| |by left].
  { case_decide; keeps_go HI. }
  intros _. destruct (arg_phase a).
  - apply triple_bind_keeps; [keeps_go HI| |by left].
    intros optimizer_pretrain.
    apply triple_bind_keeps; [keeps_go HI| |by left].
    intros lr_scheduler_pretrain.
    apply triple_bind_keeps; [| |by left].
    { keeps_step HI. intros epoch. by apply (keeps_pretrain K _ _ HI). }
    intros _.
    apply triple_bind_keeps; [keeps_go HI| |by left]. intros optimizer.
    apply triple_bind_keeps; [keeps_go HI| |by left]. intros lr_scheduler.
    apply triple_bind_keeps; [keeps_go HI| |by left]. intros ens_optimizer.
    apply triple_bind_keeps; [keeps_go HI| |by left]. intros s.
    apply triple_bind_keeps; [keeps_go HI| |by left]. intros up.
    apply triple_bind_keeps; [keeps_go HI| |by left]. intros lo.
    apply (triple_bind (λ _, weights_done K a));
      [apply calc_source_class_weight_order| |by right].
    intros source_class_weight.
    pose proof (weights_done_stable a) as HD.
    assert (Hall : ∀ e : event, plain e → (λ _, True) e) by done.
    apply triple_weaken with (P' := weights_done K a)
      (Q' := λ _, weights_done K a); [|done|by right].
    apply triple_keeps.
    keeps_step HD.
    { keeps_step HD. intros epoch best.
      by apply (keeps_stage2_epoch K _ _ HD). }
    intros _. keeps_step HD; [keeps_step HD|]. intros _.
    keeps_step HD; [by apply (keeps_validate K _ _ HD)|].
    intros; keeps_step HD.
  - apply triple_weaken with (P' := no_train_yet)
      (Q' := λ _, no_train_yet); [|done|by left].
    apply triple_keeps. keeps_step HI.
    + by apply (keeps_validate K _ _ HI).
    + intros; keeps_step HI.
  - apply triple_weaken with (P' := no_train_yet)
      (Q' := λ _, no_train_yet); [|done|by left].
    apply triple_keeps. keeps_step HI. done.
Qed.

Lemma app_prefix_before {A} (P : A → Prop) (p r pre post : list A) x :
  Forall P p → ¬ P x → p ++ r = pre ++ x :: post → ∃ p2, pre = p ++ p2.
Proof.
  intros Hp Hx. revert pre. induction Hp as [|y p Hy Hp IH]; intros pre Heq.
  - by exists pre.
  - destruct pre as [|y' pre]; simplify_eq/=; [done|].
    destruct (IH pre) as [p2 ->]; [done|]. by exists p2.
Qed.
End Order.

(** ** The ensemble refresh and its one scheduler *)

Section Refresh.
Context {net batch : Type} (K : collaborators net batch).
Implicit Types w : world net.

#[local] Existing Instance M_ret.
#[local] Existing Instance M_bind.

Local Abbreviation shared_at := (@shared_at net).

Lemma shared_at_emit s o ms e st ev w :
  shared_at s o ms e st w →
  emit ev w = (Ok (), set_trace (trace w ++ [ev]) w) ∧
  shared_at s o ms e st (set_trace (trace w ++ [ev]) w).
Proof. done. Qed.

Lemma optimizer_step_shared s o ms e st u w :
  shared_at s o ms e st w →
  ∃ w', optimizer_step_ K o u w = (Ok (), w') ∧
    shared_at s o ms e (S st) w' ∧
    length (schedulers w') = length (schedulers w) ∧
    length (optimizers w') = length (optimizers w).
Proof.
  intros [Hs Ho]. unfold optimizer_step_. rewrite Ho. cbn.
  eexists. split; [done|]. split; [|split]; cbn.
  - split; [done|]. cbn. apply list_lookup_insert_eq.
    by eapply lookup_lt_Some.
  - done.
  - by rewrite length_insert.
Qed.

Lemma scheduler_step_shared s o ms e st w :
  shared_at s o ms e st w →
  ∃ w', scheduler_step_ s w = (Ok (), w') ∧
    shared_at s o ms (e + 1) st w' ∧
    length (schedulers w') = length (schedulers w) ∧
    length (optimizers w') = length (optimizers w).
Proof.
  intros [Hs Ho]. unfold scheduler_step_. rewrite Hs. cbn.
  rewrite bind_run. unfold set_lr. cbn. rewrite Ho. cbn.
  eexists. split; [done|]. split; [|split]; cbn.
  - split; cbn.
    + apply list_lookup_insert_eq. by eapply lookup_lt_Some.
    + apply list_lookup_insert_eq. by eapply lookup_lt_Some.
  - by rewrite length_insert.
  - by rewrite length_insert.
Qed.

(** One iteration of a refresh loop (lines 422-440). *)
Lemma refresh_iteration_shared a it i j s o ms e st w :
  arg_print_freq a ≠ 0%Z →
  shared_at s o ms e st w →
  ∃ w',
    ('(k, x_s) ← next K a it;
     emit (forward backbone false (iterator_loader a it) k);;
     emit (forward (ensemble (Z.of_nat i)) true (iterator_loader a it) k);;
     optimizer_step_ K o (ensemble_update (Z.of_nat i) x_s);;
     scheduler_step_ s;;
     display a j) w = (Ok (), w') ∧
    shared_at s o ms (e + 1) (S st) w' ∧
    length (schedulers w') = length (schedulers w) ∧
    length (optimizers w') = length (optimizers w).
Proof.
  intros Hp H. rewrite bind_run. cbn [next].
  rewrite bind_run. cbn [emit]. rewrite bind_run. cbn [emit].
  rewrite bind_run.
  set (w1 := set_trace _ (set_trace _ (set_positions _ w))).
  assert (H1 : shared_at s o ms e st w1) by exact H.
  destruct (optimizer_step_shared s o ms e st
              (ensemble_update (Z.of_nat i)
                 (iterator_stream K (iterator_loader a it) (positions w it)))
              w1 H1) as (w2 & -> & H2 & Hl2 & Hl2').
  rewrite bind_run.
  destruct (scheduler_step_shared s o ms e (S st) w2 H2)
    as (w3 & -> & H3 & Hl3 & Hl3').
  rewrite (display_run a j w3 Hp).
  exists w3. split; [done|]. split; [done|].
  split; [by rewrite Hl3, Hl2 | by rewrite Hl3', Hl2'].
Qed.

Lemma refresh_loop_shared a it i s o ms (l : list nat) e st w :
  arg_print_freq a ≠ 0%Z →
  shared_at s o ms e st w →
  ∃ w',
    for_each l (λ j,
      '(k, x_s) ← next K a it;
      emit (forward backbone false (iterator_loader a it) k);;
      emit (forward (ensemble (Z.of_nat i)) true (iterator_loader a it) k);;
      optimizer_step_ K o (ensemble_update (Z.of_nat i) x_s);;
      scheduler_step_ s;;
      display a j) w = (Ok (), w') ∧
    shared_at s o ms (e + Z.of_nat (length l)) (st + length l) w' ∧
    length (schedulers w') = length (schedulers w) ∧
    length (optimizers w') = length (optimizers w).
Proof.
  intros Hp. revert e st w. induction l as [|j l IH]; intros e st w H.
  - exists w. cbn. rewrite Z.add_0_r, Nat.add_0_r. done.
  - cbn [for_each]. rewrite bind_run.
    destruct (refresh_iteration_shared a it i j s o ms e st w Hp H)
      as (w1 & -> & H1 & Hl1 & Hl1').
    destruct (IH (e + 1)%Z (S st) w1 H1) as (w2 & -> & H2 & Hl2 & Hl2').
    exists w2. split; [done|]. split; [|split; congruence].
    cbn [length]. replace (e + Z.of_nat (S (length l)))%Z
      with (e + 1 + Z.of_nat (length l))%Z by lia.
    by replace (st + S (length l))%nat with (S st + length l)%nat by lia.
Qed.

(** One refresh loop: [iters_per_epoch // 2] steps of the scheduler it is
    handed. *)
Lemma train_ens_classifier_shared a it i epoch s o ms e st w :
  arg_print_freq a ≠ 0%Z →
  shared_at s o ms e st w →
  ∃ w',
    train_ens_classifier K a it o s i epoch w = (Ok (), w') ∧
    shared_at s o ms
      (e + Z.of_nat (Z.to_nat (arg_iters_per_epoch a / 2)))
      (st + Z.to_nat (arg_iters_per_epoch a / 2)) w' ∧
    length (schedulers w') = length (schedulers w) ∧
    length (optimizers w') = length (optimizers w).
Proof.
  intros Hp H. unfold train_ens_classifier. rewrite bind_run. cbn [emit].
  set (w1 := set_trace _ w).
  assert (H1 : shared_at s o ms e st w1) by exact H.
  destruct (refresh_loop_shared a it i s o ms
              (range (arg_iters_per_epoch a / 2)) e st w1 Hp H1)
    as (w2 & Hrun & H2 & Hl).
  exists w2. split; [exact Hrun|].
  unfold range in H2. rewrite length_seq in H2. done.
Qed.

(** The five loops of one epoch, all with the same scheduler. *)
Lemma refresh_heads_shared a epoch s o ms (heads : list nat) e st w :
  arg_print_freq a ≠ 0%Z →
  shared_at s o ms e st w →
  (∀ i, i ∈ heads → (i < 5)%nat) →
  let n := Z.to_nat (arg_iters_per_epoch a / 2) in
  ∃ w',
    for_each heads (λ i,
      match replicate 5 s !! i with
      | Some s' => train_ens_classifier K a (ens_iters i) o s' i epoch
      | None => raise IndexError
      end) w = (Ok (), w') ∧
    shared_at s o ms (e + Z.of_nat (length heads * n))
      (st + length heads * n) w' ∧
    length (schedulers w') = length (schedulers w) ∧
    length (optimizers w') = length (optimizers w).
Proof.
  intros Hp H Hlt n. revert e st w H.
  induction heads as [|i heads IH]; intros e st w H.
  - exists w. cbn. rewrite Z.add_0_r, Nat.add_0_r. done.
  - cbn [for_each]. rewrite bind_run.
    rewrite (lookup_replicate_2 5 s i) by (apply Hlt; by left).
    destruct (train_ens_classifier_shared a (ens_iters i) i epoch
                s o ms e st w Hp H) as (w1 & -> & H1 & Hl1 & Hl1').
    destruct (IH (λ j Hj, Hlt j (list_elem_of_further _ _ _ Hj))
                _ _ w1 H1) as (w2 & -> & H2 & Hl2 & Hl2').
    exists w2. split; [done|]. split; [|split; congruence].
    fold n in H2. cbn [length].
    replace (e + Z.of_nat (S (length heads) * n))%Z
      with (e + Z.of_nat n + Z.of_nat (length heads * n))%Z by lia.
    by replace (st + S (length heads) * n)%nat
      with (st + n + length heads * n)%nat by lia.
Qed.
End Refresh.

Section RefreshInMain.
Context {net batch : Type} (K : collaborators net batch).
Implicit Types w : world net.

#[local] Existing Instance M_ret.
#[local] Existing Instance M_bind.

Local Abbreviation ens_shared := (@ens_shared net).
Local Abbreviation no_refresh_yet := (@no_refresh_yet net).

Lemma plain_not_call_refresh e : plain e → not_call_refresh e.
Proof. by destruct e. Qed.

Lemma plain_refresh_uses o s e : plain e → refresh_uses o s e.
Proof. by destruct e. Qed.

Lemma no_refresh_yet_stable : stable not_call_refresh no_refresh_yet.
Proof.
  split; try (by intros).
  intros w e H He. red. simpl.
  apply Forall_app. split; [done | by constructor].
Qed.

Lemma ens_shared_stable o s : stable (refresh_uses o s) (ens_shared o s).
Proof.
  split; try (by intros).
  - intros w e (Ht & Ho & Hs) He. split; [|done]. simpl.
    apply Forall_app. split; [done | by constructor].
  - intros w ob (Ht & (ob' & Ho & Hm) & Hs). split; [done|]. split; [|done].
    exists ob'. split; [|done]. simpl. by apply lookup_app_l_Some.
  - intros w o' ob lr steps (Ht & (ob' & Ho & Hm) & Hs) Ho'.
    split; [done|]. split; [|done]. simpl.
    destruct (decide (o' = o)) as [->|Hne].
    + eexists. split.
      * apply list_lookup_insert_eq. by eapply lookup_lt_Some.
      * simpl. assert (Some ob = Some ob') as [= ->] by (by etrans).
        done.
    + exists ob'. split; [|done]. by rewrite list_lookup_insert_ne.
  - intros w sb (Ht & Ho & (sb' & Hs & Hso)). split; [done|]. split; [done|].
    exists sb'. split; [|done]. simpl. by apply lookup_app_l_Some.
  - intros w s' sb e (Ht & Ho & (sb' & Hs & Hso)) Hs'.
    split; [done|]. split; [done|]. simpl.
    destruct (decide (s' = s)) as [->|Hne].
    + eexists. split.
      * apply list_lookup_insert_eq. by eapply lookup_lt_Some.
      * simpl. assert (Some sb = Some sb') as [= ->] by (by etrans).
        done.
    + exists sb'. split; [|done]. by rewrite list_lookup_insert_ne.
Qed.

(** Lines 184-186: one optimizer over the ensemble parameters, one
    scheduler on it. *)
Lemma triple_create_ens {B} (f : loc → loc → M B) Q :
  (∀ o s, triple (ens_shared o s) (f o s) Q) →
  triple no_refresh_yet
    (SGD [ens_classifier] ≫= λ o, LambdaLR o ≫= λ s, f o s) Q.
Proof.
  intros Hf w Hw. rewrite bind_run. unfold SGD. cbn -[LambdaLR].
  rewrite bind_run. unfold LambdaLR. rewrite bind_run.
  unfold set_lr. cbn -[new_scheduler].
  rewrite lookup_app_r, Nat.sub_diag by done. cbn -[new_scheduler].
  unfold new_scheduler. cbn.
  apply Hf. split; [|split]; cbn.
  - eapply Forall_impl; [exact Hw|]. by intros [].
  - eexists. split.
    + apply list_lookup_insert_eq. rewrite length_app. simpl. lia.
    + done.
  - eexists. split.
    + by rewrite lookup_app_r, Nat.sub_diag.
    + done.
Qed.

Lemma main_ens_shared a :
  triple no_refresh_yet (main K a)
    (λ _ w, no_refresh_yet w ∨ ∃ o s, ens_shared o s w).
Proof.
  pose proof no_refresh_yet_stable as HI.
  pose proof plain_not_call_refresh as Hn.
  unfold main.
  apply triple_bind_keeps; [| |by left].
  { case_decide; keeps_go HI. }
  intros _. destruct (arg_phase a).
  - apply triple_bind_keeps; [keeps_go HI| |by left].
    intros optimizer_pretrain.
    apply triple_bind_keeps; [keeps_go HI| |by left].
    intros lr_scheduler_pretrain.
    apply triple_bind_keeps; [| |by left].
    { keeps_step HI. intros epoch. by apply (keeps_pretrain K _ _ HI). }
    intros _.
    apply triple_bind_keeps; [keeps_go HI| |by left]. intros optimizer.
    apply triple_bind_keeps; [keeps_go HI| |by left]. intros lr_scheduler.
    apply triple_create_ens. intros o s.
    pose proof (ens_shared_stable o s) as HS.
    pose proof (plain_refresh_uses o s) as Hp.
    apply triple_weaken with (P' := ens_shared o s)
      (Q' := λ _, ens_shared o s); [|done|by right; eauto].
    apply triple_keeps. cbn zeta.
    keeps_step HS; [keeps_step HS|]. intros up.
    keeps_step HS; [keeps_step HS|]. intros lo.
    keeps_step HS; [by apply (keeps_calc_source_class_weight K _ _ HS)|].
    intros source_class_weight.
    keeps_step HS.
    { keeps_step HS. intros epoch best.
      apply (keeps_stage2_epoch K _ _ HS Hp); [done|].
      intros i s' Hi. apply lookup_replicate in Hi as [-> _]. done. }
    intros _. keeps_step HS; [keeps_step HS|]. intros _.
    keeps_step HS; [by apply (keeps_validate K _ _ HS)|].
    intros; keeps_step HS.
  - apply triple_weaken with (P' := no_refresh_yet)
      (Q' := λ _, no_refresh_yet); [|done|by left].
    apply triple_keeps. keeps_step HI.
    + by apply (keeps_validate K _ _ HI).
    + intros; keeps_step HI.
  - apply triple_weaken with (P' := no_refresh_yet)
      (Q' := λ _, no_refresh_yet); [|done|by left].
    apply triple_keeps. keeps_step HI. done.
Qed.
End RefreshInMain.

(** ** One iteration of adversarial training *)

Ltac wsimpl :=
  cbn [tensors optimizers schedulers parameters positions trace
       latest_checkpoint best_checkpoint set_positions set_trace set_tensors
       set_optimizers set_schedulers set_parameters set_checkpoints].

Section TrainIteration.
Context {net batch : Type} (K : collaborators net batch).
Implicit Types w : world net.

#[local] Existing Instance M_ret.
#[local] Existing Instance M_bind.

(** What one iteration of [train] does, when nothing in it raises: the
    two new tensors it binds its local names to, the old tensors left as
    they were, and the target weights it hands to the update. *)
Lemma train_iteration_run a o s scw i up lo w
    upper lower w_max w_min w_s ob sb ob' :
  let x_s := iterator_stream K (train_source_loader a)
               (positions w train_source_iter) in
  let x_t := iterator_stream K (train_target_loader a)
               (positions w train_target_iter) in
  let stats := target_forward K (parameters w) x_t in
  let raw := combine (ts_marginal_confidence <$> stats)
                     (ts_entropy <$> stats) in
  tensors w !! up = Some upper →
  tensors w !! lo = Some lower →
  tensor_max raw = Ok w_max →
  tensor_min raw = Ok w_min →
  index_select scw (labels_of K x_s) = Ok w_s →
  optimizers w !! o = Some ob →
  schedulers w !! s = Some sb →
  optimizers w !! sched_optimizer sb = Some ob' →
  arg_print_freq a ≠ 0%Z →
  ∃ w',
    train_iteration K a o s scw i (up, lo) w =
      (Ok (length (tensors w), S (length (tensors w))), w') ∧
    tensors w' = tensors w ++ [smooth upper w_max; smooth lower w_min] ∧
    parameters w' =
      sgd_step K (parameters w) (opt_modules ob) (opt_lr ob)
        (adversarial_update x_s x_t w_s
           (running_normalize raw (smooth upper w_max)
              (smooth lower w_min))) ∧
    trace w' = trace w ++
      [forward backbone true (train_source_loader a)
         (positions w train_source_iter);
       forward backbone true (train_target_loader a)
         (positions w train_target_iter);
       forward (ensemble (-1)) false (train_target_loader a)
         (positions w train_target_iter);
       score_meter (smooth upper w_max) (smooth lower w_min);
       optimizer_step o; scheduler_step s].
Proof.
  intros x_s x_t stats raw Hup Hlo Hmax Hmin Hws Ho Hs Ho' Hp.
  unfold train_iteration.
  rewrite bind_run. cbn [next]. rewrite bind_run. cbn [next]. wsimpl.
  rewrite decide_False by done.
  rewrite bind_run. cbn [get_parameters]. wsimpl.
  rewrite bind_run. cbn [emit]. rewrite bind_run. cbn [emit].
  rewrite bind_run. cbn [emit]. wsimpl.
  cbn [iterator_loader].
  fold x_s x_t. fold stats. fold raw.
  rewrite bind_run. unfold read_tensor at 1. wsimpl. rewrite Hup.
  rewrite bind_run. unfold lift at 1. rewrite Hmax.
  rewrite bind_run. unfold new_tensor at 1. wsimpl.
  rewrite bind_run. unfold read_tensor at 1. wsimpl.
  rewrite (lookup_app_l_Some _ _ _ _ Hlo).
  rewrite bind_run. unfold lift at 1. rewrite Hmin.
  rewrite bind_run. unfold new_tensor at 1. wsimpl.
  rewrite bind_run. unfold read_tensor at 1. wsimpl.
  rewrite length_app. cbn [length].
  rewrite (lookup_app_l_Some _ _ (length (tensors w)) (smooth upper w_max))
    by (by rewrite lookup_app_r, Nat.sub_diag).
  rewrite bind_run. unfold read_tensor at 1. wsimpl.
  replace (length (tensors w) + 1)%nat with (S (length (tensors w))) by lia.
  replace ((tensors w ++ [smooth upper w_max]) ++ [smooth lower w_min])
    with (tensors w ++ [smooth upper w_max; smooth lower w_min])
    by (by rewrite <-app_assoc).
  rewrite (lookup_app_r (tensors w)) by lia.
  replace (S (length (tensors w)) - length (tensors w))%nat with 1%nat by lia.
  cbn [lookup list_lookup].
  rewrite bind_run. unfold lift at 1. rewrite Hws.
  rewrite bind_run. cbn [emit]. wsimpl.
  rewrite bind_run. unfold optimizer_step_ at 1. wsimpl. rewrite Ho.
  cbn [emit]. wsimpl.
  rewrite bind_run. unfold scheduler_step_ at 1. wsimpl. rewrite Hs.
  rewrite bind_run. unfold set_lr at 1. wsimpl.
  assert (∃ ob2,
    <[o := {| opt_modules := opt_modules ob; opt_lr := opt_lr ob;
              opt_steps := S (opt_steps ob) |}]> (optimizers w)
      !! sched_optimizer sb = Some ob2) as [ob2 ->].
  { destruct (decide (sched_optimizer sb = o)) as [->|Hne].
    - eexists. apply list_lookup_insert_eq. by eapply lookup_lt_Some.
    - exists ob'. by rewrite list_lookup_insert_ne. }
  cbn [emit]. wsimpl.
  rewrite bind_run, (display_run a i _ Hp).
  eexists. split; [reflexivity|]. wsimpl.
  split; [done|]. split; [done|]. by rewrite <-!app_assoc.
Qed.
End TrainIteration.

(** ** Source class weights *)

Section Weights.
Implicit Types (t : tensor) (m : matrix).

Lemma of_count_0 : of_count 0 = Fin 0.
Proof. unfold of_count. f_equal. by apply Qc_is_canon. Qed.

Lemma of_count_S n : ∃ q, of_count (S n) = Fin q ∧ q ≠ 0.
Proof.
  eexists. split; [done|]. intros E.
  apply (f_equal this) in E. cbn in E. injection E. lia.
Qed.

Lemma fltb_irrefl x : fltb x x = false.
Proof.
  destruct x; simpl; try done. apply bool_decide_eq_false.
  apply (irreflexivity Qclt).
Qed.

Lemma fsub_Fin a b : fsub (Fin a) (Fin b) = Fin (a - b).
Proof. done. Qed.

Lemma fdiv_Fin a b : b ≠ 0 → fdiv (Fin a) (Fin b) = Fin (a / b).
Proof. intros Hb. unfold fdiv. by rewrite decide_False. Qed.

Lemma zip_with_tabulate (r : tensor) (f : nat → fval) C :
  length r = C →
  zip_with fadd r (f <$> seq 0 C) = (λ j, fadd (r !!! j) (f j)) <$> seq 0 C.
Proof.
  intros <-. apply list_eq. intros j.
  rewrite lookup_zip_with, !list_lookup_fmap.
  destruct (r !! j) as [v|] eqn:E; simpl.
  - rewrite lookup_seq_lt by (by eapply lookup_lt_Some). simpl.
    by rewrite (list_lookup_total_correct _ _ _ E).
  - by rewrite lookup_seq_ge by (by apply lookup_ge_None).
Qed.

Lemma replicate_tabulate {A} (x : A) C :
  replicate C x = (λ _, x) <$> seq 0 C.
Proof.
  apply list_eq. intros j. rewrite list_lookup_fmap.
  destruct (decide (j < C)%nat).
  - rewrite lookup_replicate_2, lookup_seq_lt by done. done.
  - rewrite lookup_seq_ge by lia.
    apply lookup_replicate_None. lia.
Qed.

Lemma sum_dim0_columns C m :
  Forall (λ r, length r = C) m →
  sum_dim0 C m = (λ j, foldr fadd (Fin 0) ((λ r, r !!! j) <$> m)) <$> seq 0 C.
Proof.
  unfold sum_dim0. induction 1 as [|r m Hr Hm IH]; simpl.
  - apply replicate_tabulate.
  - rewrite IH. by apply zip_with_tabulate.
Qed.

(** [mean(dim=0)] is the column-wise mean. *)
Lemma mean_dim0_column_means C m :
  Forall (λ r, length r = C) m →
  mean_dim0 C m = column_means C m.
Proof.
  intros H. unfold mean_dim0, column_means, column_mean.
  rewrite (sum_dim0_columns C m H), <-list_fmap_compose. done.
Qed.

Lemma mean_dim0_empty C : mean_dim0 C [] = replicate C NaN.
Proof.
  unfold mean_dim0, sum_dim0. cbn [foldr length].
  rewrite fmap_replicate.
  change (Fin (Qc_of_Z (Z.of_nat 0))) with (of_count 0).
  rewrite of_count_0. f_equal.
Qed.

Lemma foldl_fmin2_NaN t : foldl fmin2 NaN t = NaN.
Proof. induction t as [|x t IH]; [done|]. exact IH. Qed.

Lemma foldl_fmax2_NaN t : foldl fmax2 NaN t = NaN.
Proof. induction t as [|x t IH]; [done|]. exact IH. Qed.

(** On a tensor of [nan]s the guard of [norm] does not fire, since
    [nan == nan] is false, and every entry stays [nan]. *)
Lemma norm_NaN C : (0 < C)%nat → norm (replicate C NaN) = Ok (replicate C NaN).
Proof.
  destruct C as [|C]; [lia|]. intros _. unfold norm. cbn [replicate].
  cbn [tensor_min tensor_max mbind result_bind].
  rewrite foldl_fmin2_NaN, foldl_fmax2_NaN. cbn [feqb].
  f_equal. change (NaN :: replicate C NaN) with (replicate (S C) NaN).
  by rewrite fmap_replicate.
Qed.

Lemma cut_mask_NaN a C : cut_mask a (replicate C NaN) = replicate C (Fin 0).
Proof.
  unfold cut_mask. rewrite fmap_replicate. f_equal.
  unfold fgtb. by destruct (arg_cut a).
Qed.

Lemma mask_select_fmap {A B} (f : A → B) thr (samples : list A) scores
    (sel : list A) :
  sel = (filter (λ p, fgeb p.2 thr = true) (zip samples scores)).*1 →
  mask_select (f <$> samples) ((λ s, fgeb s thr) <$> scores) = f <$> sel.
Proof.
  intros ->. unfold mask_select. revert scores.
  induction samples as [|x samples IH]; intros [|v scores]; try done.
  cbn [fmap list_fmap zip zip_with]. rewrite !filter_cons. cbn [snd].
  destruct (fgeb v thr) eqn:E.
  - rewrite decide_True by done. rewrite decide_True by done.
    cbn [fmap list_fmap fst]. f_equal. apply IH.
  - rewrite decide_False by done. rewrite decide_False by done. apply IH.
Qed.

(** On a non-empty finite tensor [norm] gives weights in the unit
    interval. *)
Lemma norm_finite (qs : list Qc) :
  qs ≠ [] →
  ∃ r, norm (Fin <$> qs) = Ok r ∧ length r = length qs ∧
       Forall unit_weight r.
Proof.
  intros Hne.
  destruct (tensor_min_finite qs Hne) as (lo & Hmin & Hlo).
  destruct (tensor_max_finite qs Hne) as (hi & Hmax & Hhi).
  unfold norm. rewrite Hmin, Hmax. cbn [mbind result_bind].
  destruct (feqb (Fin hi) (Fin lo)) eqn:E.
  - eexists. split; [done|]. split; [by rewrite !length_fmap|].
    rewrite <-list_fmap_compose. apply Forall_fmap, Forall_forall.
    intros q _. exists (Q2Qc 0.5). split; [done|]. by split.
  - eexists. split; [done|]. split; [by rewrite !length_fmap|].
    rewrite <-list_fmap_compose. apply Forall_fmap.
    assert (Hne' : hi ≠ lo).
    { intros ->. by rewrite (proj2 (feqb_Fin lo lo)) in E. }
    assert (Hd : hi - lo ≠ 0).
    { intros E0. apply Hne'. replace hi with (hi - lo + lo) by ring.
      rewrite E0. ring. }
    rewrite Forall_forall. intros q Hq. unfold compose. cbn beta.
    rewrite !fsub_Fin, fdiv_Fin by done.
    eexists. split; [done|].
    rewrite Forall_forall in Hlo, Hhi.
    apply Qc_unit_interval; auto.
Qed.

Lemma foldr_fadd_finite (qs : list Qc) :
  foldr fadd (Fin 0) (Fin <$> qs) = Fin (foldr Qcplus 0 qs).
Proof.
  induction qs as [|q qs IH]; [done|].
  cbn [fmap list_fmap foldr]. by rewrite IH.
Qed.

(** Column means of finitely many finite rows are finite. *)
Lemma column_means_finite C m :
  m ≠ [] → Forall (Forall is_finite) m → Forall (λ r, length r = C) m →
  ∃ qs : list Qc, column_means C m = Fin <$> qs ∧ length qs = C.
Proof.
  intros Hne Hfin Hlen.
  assert (Hcol : ∀ j, (j < C)%nat →
    ∃ q, column_mean m j = Fin q).
  { intros j Hj. unfold column_mean.
    assert (Hc : Forall is_finite ((λ r : tensor, r !!! j) <$> m)).
    { apply Forall_fmap. rewrite Forall_forall in Hfin, Hlen.
      apply Forall_forall. intros r Hr. simpl.
      specialize (Hfin r Hr). specialize (Hlen r Hr).
      rewrite Forall_forall in Hfin. apply Hfin.
      apply list_elem_of_lookup. exists j.
      apply list_lookup_lookup_total_lt. lia. }
    destruct (Forall_finite_fmap _ Hc) as [cs ->].
    rewrite foldr_fadd_finite.
    destruct m as [|r m]; [done|]. cbn [length].
    destruct (of_count_S (length m)) as (n & -> & Hn).
    rewrite fdiv_Fin by done. eauto. }
  unfold column_means. clear Hne Hfin Hlen.
  assert (∀ k, (∀ j, (j < k + C)%nat → ∃ q, column_mean m j = Fin q) →
    ∃ qs : list Qc, column_mean m <$> seq k C = Fin <$> qs ∧ length qs = C)
    as Hgen.
  { clear Hcol. induction C as [|C IH]; intros k Hk.
    - by exists [].
    - destruct (Hk k ltac:(lia)) as [q Hq].
      destruct (IH (S k)) as (qs & Hqs & Hl).
      { intros j Hj. apply Hk. lia. }
      exists (q :: qs). cbn. rewrite Hq, Hqs. split; [done | by rewrite Hl]. }
  apply (Hgen 0%nat). intros j Hj. apply Hcol. lia.
Qed.
End Weights.

(** * Statements about the driver *)

Ltac by_computation := apply (bool_decide_unpack _); vm_compute; exact I.

(** ** C1: the running bounds across epochs *)

(** C1.  The two bounds are created once, at [(0, 0)], before the epoch
    loop, and handed to [train] in every epoch; but [train] only rebinds its
    own local names, so the tensors of [main] never change.  On a run of two
    epochs of two iterations, epoch 0 ends with the bounds
    [(0.89991, 0.49995)] and epoch 1 is nevertheless called with [(0, 0)]
    and repeats the values of epoch 0. *)
Theorem C1_bounds_restart_every_epoch :
  bounds_log (trace Demo.final) =
  [ call_train 0%nat (Fin 0) (Fin 0);
    score_meter (dec 0.891) (dec 0.495);
    score_meter (dec 0.89991) (dec 0.49995);
    call_train 1%nat (Fin 0) (Fin 0);
    score_meter (dec 0.891) (dec 0.495);
    score_meter (dec 0.89991) (dec 0.49995) ].
Proof. by_computation. Qed.

(** ** C3: the class-weight pass *)

(** C3, as stated, fails: the loader that [main] hands to
    [calc_source_class_weight] is [val_loader], built on the target domain
    ([target_dataset], task [args.target]), not on a source holdout set. *)
Lemma C3_pass_is_not_over_source_data :
  ¬ (∀ L, call_calc_source_class_weight L ∈ trace Demo.final →
          ds_domain (dl_dataset L) = SourceDomain).
Proof.
  intros H. specialize (H (val_loader Demo.args)).
  assert (Hin : call_calc_source_class_weight (val_loader Demo.args)
                  ∈ trace Demo.final) by by_computation.
  specialize (H Hin). discriminate H.
Qed.

(** C3, amended.  Whenever [train] is called, the trace before the call
    contains the whole class-weight pass: the call of
    [calc_source_class_weight] on [val_loader], followed, for every batch of
    that loader, by the backbone and the ensemble forward with gradients
    off; and [val_loader] is a loader of the target domain. *)
Theorem C3_weight_pass_precedes_training {net batch}
    (K : collaborators net batch) (a : args) (init : net)
    (on_disk : option net) (pre post : list event) (epoch : nat)
    (upper lower : fval) :
  trace (run K a init on_disk).2 = pre ++ call_train epoch upper lower :: post →
  ds_domain (dl_dataset (val_loader a)) = TargetDomain ∧
  dl_dataset (val_loader a) = target_dataset (arg_target a) SplitDefault val_transform ∧
  ∃ before rest, pre = before ++ weight_pass K a ++ rest.
Proof.
  intros Ht. split; [done|]. split; [done|].
  assert (Hn : no_train_yet (initial_world init on_disk)) by constructor.
  pose proof (main_order K a _ Hn) as Hq. cbn beta in Hq.
  fold (run K a init on_disk) in Hq.
  destruct Hq as [Hq | (before & rest & Hb & Hq)].
  - exfalso. red in Hq. rewrite Ht in Hq.
    apply Forall_app in Hq as [_ Hq]. by apply Forall_cons in Hq as [Hq _].
  - rewrite Hq, app_assoc in Ht.
    destruct (app_prefix_before not_call_train _ _ _ _
                (call_train epoch upper lower)
                (proj2 (Forall_app _ _ _) (conj Hb (weight_pass_no_train K a)))
                (λ H, H) Ht) as [p2 ->].
    exists before, p2. by rewrite app_assoc.
Qed.

Lemma C3_weight_pass_precedes_training_witness :
  ∃ pre post,
    trace (run Demo.collab Demo.args [] None).2 =
      pre ++ call_train 0%nat (Fin 0) (Fin 0) :: post ∧
    ds_domain (dl_dataset (val_loader Demo.args)) = TargetDomain ∧
    dl_dataset (val_loader Demo.args) =
      target_dataset (arg_target Demo.args) SplitDefault val_transform ∧
    ∃ before rest, pre = before ++ weight_pass Demo.collab Demo.args ++ rest.
Proof.
  exists (take 3 (trace (run Demo.collab Demo.args [] None).2)),
         (drop 4 (trace (run Demo.collab Demo.args [] None).2)).
  assert (H : trace (run Demo.collab Demo.args [] None).2 =
              take 3 (trace (run Demo.collab Demo.args [] None).2) ++
              call_train 0%nat (Fin 0) (Fin 0) ::
              drop 4 (trace (run Demo.collab Demo.args [] None).2))
    by by_computation.
  split; [exact H|].
  exact (C3_weight_pass_precedes_training Demo.collab Demo.args [] None
           _ _ _ _ _ H).
Defined.

(** ** C10: the ensemble refresh shares one optimizer and one scheduler *)

(** C10.  The refresh loops of one epoch are handed one optimizer and five
    references to one scheduler.  From a world in which that scheduler
    stands at epoch [e], and with a print frequency other than zero (on
    zero, [i % args.print_freq] raises), the five loops return with the
    same scheduler at
    [e + 5 * (iters_per_epoch // 2)], its optimizer holding the rate of that
    epoch after [5 * (iters_per_epoch // 2)] more steps, and with no
    scheduler or optimizer created.  In every run of [main], all refresh
    loops are called with one and the same optimizer and scheduler, that
    optimizer is the one over the ensemble parameters, and the scheduler is
    attached to it. *)
Theorem C10_refresh_shares_one_schedule {net batch}
    (K : collaborators net batch) (a : args) (init : net)
    (on_disk : option net) (epoch : nat) (s o : loc)
    (modules : list module_id) (e : Z) (steps : nat) (w : world net) :
  shared_at s o modules e steps w →
  (0 ≤ arg_iters_per_epoch a)%Z →
  arg_print_freq a ≠ 0%Z →
  (∃ w',
     refresh_epoch K a o (replicate 5 s) epoch w = (Ok (), w') ∧
     shared_at s o modules (e + 5 * (arg_iters_per_epoch a / 2))
       (steps + 5 * Z.to_nat (arg_iters_per_epoch a / 2)) w' ∧
     length (schedulers w') = length (schedulers w) ∧
     length (optimizers w') = length (optimizers w)) ∧
  (∃ o0 s0,
     (∀ i ep o' s',
        call_train_ens_classifier i ep o' s' ∈ trace (run K a init on_disk).2 →
        o' = o0 ∧ s' = s0) ∧
     (no_refresh_yet (run K a init on_disk).2 ∨
      ens_shared o0 s0 (run K a init on_disk).2)).
Proof.
  intros Hw Hi Hp. split.
  - unfold refresh_epoch.
    destruct (refresh_heads_shared K a epoch s o modules (seq 0 5) e steps w
                Hp Hw)
      as (w' & Hrun & Hs & Hl).
    { intros i Hin. apply elem_of_seq in Hin. lia. }
    exists w'. split; [exact Hrun|]. split; [|exact Hl].
    rewrite length_seq in Hs.
    replace (e + 5 * (arg_iters_per_epoch a / 2))%Z
      with (e + Z.of_nat (5 * Z.to_nat (arg_iters_per_epoch a / 2)))%Z; [done|].
    assert (0 ≤ arg_iters_per_epoch a / 2)%Z by (apply Z.div_pos; lia). lia.
  - assert (Hn : no_refresh_yet (initial_world init on_disk)) by constructor.
    pose proof (main_ens_shared K a _ Hn) as Hq. cbn beta in Hq.
    fold (run K a init on_disk) in Hq.
    destruct Hq as [Hq | (o0 & s0 & Hq)].
    + exists 0%nat, 0%nat. split; [|by left].
      intros i ep o' s' Hin. red in Hq. rewrite Forall_forall in Hq.
      destruct (Hq _ Hin).
    + exists o0, s0. split; [|by right].
      intros i ep o' s' Hin. destruct Hq as [Hq _].
      rewrite Forall_forall in Hq. exact (Hq _ Hin).
Qed.

Lemma C10_refresh_shares_one_schedule_witness :
  shared_at 2%nat 2%nat [ens_classifier] 0 0%nat Demo.stage2_world ∧
  (0 ≤ arg_iters_per_epoch Demo.args)%Z ∧
  arg_print_freq Demo.args ≠ 0%Z ∧
  (∃ w',
     refresh_epoch Demo.collab Demo.args 2%nat (replicate 5 2%nat) 0%nat
       Demo.stage2_world = (Ok (), w') ∧
     shared_at 2%nat 2%nat [ens_classifier]
       (0 + 5 * (arg_iters_per_epoch Demo.args / 2))
       (0 + 5 * Z.to_nat (arg_iters_per_epoch Demo.args / 2)) w' ∧
     length (schedulers w') = length (schedulers Demo.stage2_world) ∧
     length (optimizers w') = length (optimizers Demo.stage2_world)) ∧
  (∃ o0 s0,
     (∀ i ep o' s',
        call_train_ens_classifier i ep o' s'
          ∈ trace (run Demo.collab Demo.args [] None).2 →
        o' = o0 ∧ s' = s0) ∧
     (no_refresh_yet (run Demo.collab Demo.args [] None).2 ∨
      ens_shared o0 s0 (run Demo.collab Demo.args [] None).2)).
Proof.
  assert (H1 : shared_at 2%nat 2%nat [ens_classifier] 0 0%nat
                 Demo.stage2_world) by (split; reflexivity).
  assert (H2 : (0 ≤ arg_iters_per_epoch Demo.args)%Z) by (simpl; lia).
  assert (H3 : arg_print_freq Demo.args ≠ 0%Z) by (simpl; lia).
  split; [exact H1|]. split; [exact H2|]. split; [exact H3|].
  exact (C10_refresh_shares_one_schedule Demo.collab Demo.args [] None
           0%nat 2%nat 2%nat [ens_classifier] 0%Z 0%nat Demo.stage2_world
           H1 H2 H3).
Defined.

(** ** C5: the recurrence of the running bounds *)

Lemma smooth_Fin (u m : Qc) :
  smooth (Fin u) (Fin m) = Fin (Q2Qc 0.01 * u + Q2Qc 0.99 * m).
Proof. unfold smooth, dec. cbn [fmul fadd]. f_equal. ring. Qed.

(** C5, as stated, fails on its example: from [upper = 0] and the batch
    maxima 0.5, 0.9, 0.2 the second upper bound is not 0.8905. *)
Lemma C5_second_bound_is_not_0_8905 :
  score_upper_log (trace DemoRecurrence.final) !! 1%nat ≠ Some (dec 0.8905).
Proof. by_computation. Qed.

(** C5, amended.  One iteration of [train] whose target batch is not
    empty, whose source labels index the class weights and whose print
    frequency is not zero, does not raise and binds the upper bound to
    [upper * 0.01 + max * 0.99] and the lower bound to
    [lower * 0.01 + min * 0.99], where [max] and [min] are the extremes of
    the batch's raw combined scores; on finite values these are
    [0.01 * upper + 0.99 * max] and [0.01 * lower + 0.99 * min].  From
    [upper = 0] and the batch maxima 0.5, 0.9, 0.2 the upper bounds are
    0.495, 0.89595 and 0.2069595. *)
Theorem C5_running_bounds_recurrence {net batch}
    (K : collaborators net batch) (a : args) (o s : loc) (scw : tensor)
    (i : nat) (up lo : loc) (w : world net) (upper lower w_max w_min : fval)
    (w_s : tensor) (ob : optimizer_obj) (sb : scheduler_obj)
    (ob' : optimizer_obj) :
  let x_s := iterator_stream K (train_source_loader a)
               (positions w train_source_iter) in
  let x_t := iterator_stream K (train_target_loader a)
               (positions w train_target_iter) in
  let stats := target_forward K (parameters w) x_t in
  let raw := combine (ts_marginal_confidence <$> stats)
                     (ts_entropy <$> stats) in
  tensors w !! up = Some upper →
  tensors w !! lo = Some lower →
  tensor_max raw = Ok w_max →
  tensor_min raw = Ok w_min →
  index_select scw (labels_of K x_s) = Ok w_s →
  optimizers w !! o = Some ob →
  schedulers w !! s = Some sb →
  optimizers w !! sched_optimizer sb = Some ob' →
  arg_print_freq a ≠ 0%Z →
  (∃ up' lo' w',
     train_iteration K a o s scw i (up, lo) w = (Ok (up', lo'), w') ∧
     tensors w' !! up' = Some (upper * dec 0.01 + w_max * dec 0.99)%F ∧
     tensors w' !! lo' = Some (lower * dec 0.01 + w_min * dec 0.99)%F ∧
     (∀ u m, upper = Fin u → w_max = Fin m →
        tensors w' !! up' = Some (Fin (Q2Qc 0.01 * u + Q2Qc 0.99 * m))) ∧
     (∀ l m, lower = Fin l → w_min = Fin m →
        tensors w' !! lo' = Some (Fin (Q2Qc 0.01 * l + Q2Qc 0.99 * m)))) ∧
  score_upper_log (trace DemoRecurrence.final) =
    [dec 0.495; dec 0.89595; dec 0.2069595].
Proof.
  intros x_s x_t stats raw Hup Hlo Hmax Hmin Hws Ho Hs Ho' Hp.
  split; [|by_computation].
  destruct (train_iteration_run K a o s scw i up lo w _ _ _ _ _ _ _ _
              Hup Hlo Hmax Hmin Hws Ho Hs Ho' Hp) as (w' & Hrun & Ht & _).
  exists (length (tensors w)), (S (length (tensors w))), w'.
  split; [exact Hrun|].
  assert (H1 : tensors w' !! length (tensors w) = Some (smooth upper w_max)).
  { rewrite Ht, lookup_app_r by done. by rewrite Nat.sub_diag. }
  assert (H2 : tensors w' !! S (length (tensors w)) =
               Some (smooth lower w_min)).
  { rewrite Ht, lookup_app_r by lia.
    by replace (S (length (tensors w)) - length (tensors w))%nat
      with 1%nat by lia. }
  split; [exact H1|]. split; [exact H2|]. split.
  - intros u m -> ->. rewrite smooth_Fin in H1. exact H1.
  - intros l m -> ->. rewrite smooth_Fin in H2. exact H2.
Qed.

Lemma C5_running_bounds_recurrence_witness :
  tensors Demo.stage2_world !! 0%nat = Some (Fin 0) ∧
  tensors Demo.stage2_world !! 1%nat = Some (Fin 0) ∧
  tensor_max [dec 0.5; dec 0.9] = Ok (dec 0.9) ∧
  tensor_min [dec 0.5; dec 0.9] = Ok (dec 0.5) ∧
  (∃ up' lo' w',
     train_iteration Demo.collab Demo.args 1%nat 1%nat [Fin 1; Fin 0] 0%nat
       (0%nat, 1%nat) Demo.stage2_world = (Ok (up', lo'), w') ∧
     tensors w' !! up' = Some (Fin 0 * dec 0.01 + dec 0.9 * dec 0.99)%F ∧
     tensors w' !! lo' = Some (Fin 0 * dec 0.01 + dec 0.5 * dec 0.99)%F ∧
     (∀ u m, Fin 0 = Fin u → dec 0.9 = Fin m →
        tensors w' !! up' = Some (Fin (Q2Qc 0.01 * u + Q2Qc 0.99 * m))) ∧
     (∀ l m, Fin 0 = Fin l → dec 0.5 = Fin m →
        tensors w' !! lo' = Some (Fin (Q2Qc 0.01 * l + Q2Qc 0.99 * m)))) ∧
  score_upper_log (trace DemoRecurrence.final) =
    [dec 0.495; dec 0.89595; dec 0.2069595].
Proof.
  assert (Hmax : tensor_max [dec 0.5; dec 0.9] = Ok (dec 0.9))
    by by_computation.
  assert (Hmin : tensor_min [dec 0.5; dec 0.9] = Ok (dec 0.5))
    by by_computation.
  split; [reflexivity|]. split; [reflexivity|].
  split; [exact Hmax|]. split; [exact Hmin|].
  refine (C5_running_bounds_recurrence Demo.collab Demo.args 1%nat 1%nat
            [Fin 1; Fin 0] 0%nat 0%nat 1%nat Demo.stage2_world
            (Fin 0) (Fin 0) (dec 0.9) (dec 0.5) [Fin 1; Fin 0]
            _ _ _ eq_refl eq_refl _ _ _ eq_refl eq_refl eq_refl _).
  - by_computation.
  - by_computation.
  - by_computation.
  - simpl. lia.
Defined.

(** ** C2: the combined score in its calling contexts *)

Lemma static_score_inv mcs ents all_score :
  static_score mcs ents = Ok all_score →
  ∃ mc ent, norm (concat mcs) = Ok mc ∧ norm (concat ents) = Ok ent ∧
            all_score = combine mc ent.
Proof.
  unfold static_score, torch_cat. intros H.
  destruct mcs as [|m0 mcs]; [done|]. destruct ents as [|e0 ents].
  { cbn in H. by destruct (norm _). }
  cbn [mbind result_bind] in H.
  destruct (norm (concat (m0 :: mcs))) as [mc|]; [|done].
  destruct (norm (concat (e0 :: ents))) as [ent|]; [|done].
  exists mc, ent. split; [done|]. split; [done|]. by injection H.
Qed.

(** C2, as stated, fails in the training loop: the weights that [train]
    hands to the adversarial loss are not the combination of separately
    normalised statistics, neither with the updated running bounds nor with
    the bounds before the update. *)
Lemma C2_training_scores_are_not_separately_normalized :
  parameters Demo.final !! 0%nat ≠
    Some (separately_normalized [dec 0.5; dec 0.9] [dec 0.5; dec 0.1]
            (dec 0.891) (dec 0.495)) ∧
  parameters Demo.final !! 0%nat ≠
    Some (separately_normalized [dec 0.5; dec 0.9] [dec 0.5; dec 0.1]
            (Fin 0) (Fin 0)).
Proof. split; by_computation. Qed.

(** C2, amended.  In the one-shot passes ([calc_source_class_weight],
    [validate]) the score is [(norm(mc) + 1 - norm(ent)) / 2] with each
    statistic normalised by [norm] over the whole pass on its own.  In the
    training loop the raw statistics are combined first,
    [(mc + 1 - ent) / 2], and it is this combined score that is normalised
    against the running bounds, themselves updated from the extremes of the
    combined score. *)
Theorem C2_score_in_each_context {net batch}
    (K : collaborators net batch) (a : args) (o s : loc) (scw : tensor)
    (i : nat) (up lo : loc) (w : world net) (upper lower w_max w_min : fval)
    (w_s : tensor) (ob : optimizer_obj) (sb : scheduler_obj)
    (ob' : optimizer_obj) :
  let x_s := iterator_stream K (train_source_loader a)
               (positions w train_source_iter) in
  let x_t := iterator_stream K (train_target_loader a)
               (positions w train_target_iter) in
  let stats := target_forward K (parameters w) x_t in
  let raw := combine (ts_marginal_confidence <$> stats)
                     (ts_entropy <$> stats) in
  tensors w !! up = Some upper →
  tensors w !! lo = Some lower →
  tensor_max raw = Ok w_max →
  tensor_min raw = Ok w_min →
  index_select scw (labels_of K x_s) = Ok w_s →
  optimizers w !! o = Some ob →
  schedulers w !! s = Some sb →
  optimizers w !! sched_optimizer sb = Some ob' →
  arg_print_freq a ≠ 0%Z →
  (∀ L w0, (calc_source_class_weight K a L w0).1 =
           class_weight_of (num_classes K) a (pass_rows K L w0)) ∧
  (∀ L w0, (validate K a L w0).1 = metrics_of K a (pass_rows K L w0)) ∧
  (∀ mcs ents all_score,
     static_score mcs ents = Ok all_score →
     ∃ mc ent, norm (concat mcs) = Ok mc ∧ norm (concat ents) = Ok ent ∧
       all_score = zip_with (λ m e, (m + Fin 1 - e) / Fin 2)%F mc ent) ∧
  (∃ locals w',
     train_iteration K a o s scw i (up, lo) w = (Ok locals, w') ∧
     parameters w' =
       sgd_step K (parameters w) (opt_modules ob) (opt_lr ob)
         (adversarial_update x_s x_t w_s
            ((λ v, (v - (lower * dec 0.01 + w_min * dec 0.99))
                   / ((upper * dec 0.01 + w_max * dec 0.99)
                      - (lower * dec 0.01 + w_min * dec 0.99)))%F <$>
             zip_with (λ m e, (m + Fin 1 - e) / Fin 2)%F
               (ts_marginal_confidence <$> stats) (ts_entropy <$> stats)))).
Proof.
  intros x_s x_t stats raw Hup Hlo Hmax Hmin Hws Ho Hs Ho' Hfreq.
  split; [intros; by rewrite calc_source_class_weight_run|].
  split; [intros; by rewrite validate_run|].
  split; [apply static_score_inv|].
  destruct (train_iteration_run K a o s scw i up lo w _ _ _ _ _ _ _ _
              Hup Hlo Hmax Hmin Hws Ho Hs Ho' Hfreq)
    as (w' & Hrun & _ & Hp & _).
  eexists _, w'. split; [exact Hrun|]. exact Hp.
Qed.

Lemma C2_score_in_each_context_witness :
  tensors Demo.stage2_world !! 0%nat = Some (Fin 0) ∧
  tensors Demo.stage2_world !! 1%nat = Some (Fin 0) ∧
  tensor_max [dec 0.5; dec 0.9] = Ok (dec 0.9) ∧
  tensor_min [dec 0.5; dec 0.9] = Ok (dec 0.5) ∧
  (∀ L w0, (calc_source_class_weight Demo.collab Demo.args L w0).1 =
           class_weight_of (num_classes Demo.collab) Demo.args
             (pass_rows Demo.collab L w0)) ∧
  (∀ L w0, (validate Demo.collab Demo.args L w0).1 =
           metrics_of Demo.collab Demo.args (pass_rows Demo.collab L w0)) ∧
  (∀ mcs ents all_score,
     static_score mcs ents = Ok all_score →
     ∃ mc ent, norm (concat mcs) = Ok mc ∧ norm (concat ents) = Ok ent ∧
       all_score = zip_with (λ m e, (m + Fin 1 - e) / Fin 2)%F mc ent) ∧
  (∃ locals w',
     train_iteration Demo.collab Demo.args 1%nat 1%nat [Fin 1; Fin 0] 0%nat
       (0%nat, 1%nat) Demo.stage2_world = (Ok locals, w') ∧
     parameters w' =
       [ (λ v, (v - (Fin 0 * dec 0.01 + dec 0.5 * dec 0.99))
               / ((Fin 0 * dec 0.01 + dec 0.9 * dec 0.99)
                  - (Fin 0 * dec 0.01 + dec 0.5 * dec 0.99)))%F <$>
         zip_with (λ m e, (m + Fin 1 - e) / Fin 2)%F
           [dec 0.5; dec 0.9] [dec 0.5; dec 0.1] ]).
Proof.
  assert (Hmax : tensor_max [dec 0.5; dec 0.9] = Ok (dec 0.9))
    by by_computation.
  assert (Hmin : tensor_min [dec 0.5; dec 0.9] = Ok (dec 0.5))
    by by_computation.
  split; [reflexivity|]. split; [reflexivity|].
  split; [exact Hmax|]. split; [exact Hmin|].
  refine (C2_score_in_each_context Demo.collab Demo.args 1%nat 1%nat
            [Fin 1; Fin 0] 0%nat 0%nat 1%nat Demo.stage2_world
            (Fin 0) (Fin 0) (dec 0.9) (dec 0.5) [Fin 1; Fin 0]
            _ _ _ eq_refl eq_refl _ _ _ eq_refl eq_refl eq_refl _).
  - by_computation.
  - by_computation.
  - by_computation.
  - simpl. lia.
Defined.

(** ** C4: the all-equal case of the two normalisations *)

Lemma norm_all_equal (x : tensor) (m : fval) :
  tensor_max x = Ok m → tensor_min x = Ok m → m ≠ NaN →
  norm x = Ok (replicate (length x) (dec 0.5)).
Proof.
  intros Hmax Hmin Hm. unfold norm. rewrite Hmin, Hmax.
  cbn [mbind result_bind]. rewrite feqb_refl_finite by done.
  f_equal. induction x as [|v x IH]; [done|].
  cbn [fmap list_fmap length replicate]. f_equal.
  clear -x. induction x as [|u x IH]; [done|].
  cbn [fmap list_fmap length replicate]. by f_equal.
Qed.

Lemma running_normalize_equal_bounds (raw : tensor) (b : Qc) :
  Forall (λ v, ¬ is_finite v) (running_normalize raw (Fin b) (Fin b)).
Proof.
  unfold running_normalize. apply Forall_fmap, Forall_forall. intros v _.
  assert (Hz : (Fin b - Fin b)%F = Fin 0).
  { unfold fsub, fadd, fneg. f_equal. ring. }
  cbn beta. unfold compose. rewrite Hz.
  destruct v as [q| | |]; cbn [fsub fneg fadd fdiv].
  - rewrite decide_True by done.
    repeat case_decide; simpl; tauto.
  - rewrite decide_True by apply Qcle_refl. simpl; tauto.
  - rewrite decide_True by apply Qcle_refl. simpl; tauto.
  - simpl; tauto.
Qed.

(** C4, as stated, fails for the running normalisation: with batches of one
    sample the updated upper and lower bounds coincide, the run of [main]
    goes through without an error, and the normalised scores handed to the
    two updates are [+inf] and [nan]. *)
Lemma C4_running_normalization_is_unguarded :
  (run DemoDegenerate.collab DemoDegenerate.args [] None).1 = Ok () ∧
  score_upper_log (trace DemoDegenerate.final) = [dec 0.495; dec 0.495] ∧
  parameters DemoDegenerate.final = [[PInf]; [NaN]] ∧
  running_normalize [dec 0.5] (dec 0.495) (dec 0.495) = [PInf] ∧
  running_normalize [dec 0.495] (dec 0.495) (dec 0.495) = [NaN].
Proof. repeat split; by_computation. Qed.

(** C4, amended.  The static per-pass normalisation returns the constant
    0.5 for every entry whenever the maximum of the pass equals its minimum.
    The running normalisation of the training loop has no such guard: an
    iteration whose updated upper bound equals its updated lower bound does
    not raise, and every normalised score it hands to the update is [nan]
    or an infinity. *)
Theorem C4_normalization_when_max_equals_min {net batch}
    (K : collaborators net batch) (a : args) (o s : loc) (scw : tensor)
    (i : nat) (up lo : loc) (w : world net) (upper lower w_max w_min : fval)
    (w_s : tensor) (ob : optimizer_obj) (sb : scheduler_obj)
    (ob' : optimizer_obj) (b : Qc) :
  let x_s := iterator_stream K (train_source_loader a)
               (positions w train_source_iter) in
  let x_t := iterator_stream K (train_target_loader a)
               (positions w train_target_iter) in
  let stats := target_forward K (parameters w) x_t in
  let raw := combine (ts_marginal_confidence <$> stats)
                     (ts_entropy <$> stats) in
  tensors w !! up = Some upper →
  tensors w !! lo = Some lower →
  tensor_max raw = Ok w_max →
  tensor_min raw = Ok w_min →
  index_select scw (labels_of K x_s) = Ok w_s →
  optimizers w !! o = Some ob →
  schedulers w !! s = Some sb →
  optimizers w !! sched_optimizer sb = Some ob' →
  arg_print_freq a ≠ 0%Z →
  (upper * dec 0.01 + w_max * dec 0.99)%F = Fin b →
  (lower * dec 0.01 + w_min * dec 0.99)%F = Fin b →
  (∀ x m, tensor_max x = Ok m → tensor_min x = Ok m → m ≠ NaN →
          norm x = Ok (replicate (length x) (dec 0.5))) ∧
  (∃ locals w' w_t,
     train_iteration K a o s scw i (up, lo) w = (Ok locals, w') ∧
     parameters w' =
       sgd_step K (parameters w) (opt_modules ob) (opt_lr ob)
         (adversarial_update x_s x_t w_s w_t) ∧
     w_t = (λ v, (v - Fin b) / (Fin b - Fin b))%F <$> raw ∧
     Forall (λ v, ¬ is_finite v) w_t).
Proof.
  intros x_s x_t stats raw Hup Hlo Hmax Hmin Hws Ho Hs Ho' Hfreq Hu Hl.
  split; [exact norm_all_equal|].
  destruct (train_iteration_run K a o s scw i up lo w _ _ _ _ _ _ _ _
              Hup Hlo Hmax Hmin Hws Ho Hs Ho' Hfreq)
    as (w' & Hrun & _ & Hp & _).
  unfold smooth in Hp. rewrite Hu, Hl in Hp.
  eexists _, w', _. split; [exact Hrun|]. split; [exact Hp|].
  split; [reflexivity|]. apply running_normalize_equal_bounds.
Qed.

Lemma C4_normalization_when_max_equals_min_witness :
  tensors Demo.stage2_world !! 0%nat = Some (Fin 0) ∧
  tensors Demo.stage2_world !! 1%nat = Some (Fin 0) ∧
  tensor_max [dec 0.5] = Ok (dec 0.5) ∧
  tensor_min [dec 0.5] = Ok (dec 0.5) ∧
  (Fin 0 * dec 0.01 + dec 0.5 * dec 0.99)%F = dec 0.495 ∧
  (∀ x m, tensor_max x = Ok m → tensor_min x = Ok m → m ≠ NaN →
          norm x = Ok (replicate (length x) (dec 0.5))) ∧
  (∃ locals w' w_t,
     train_iteration DemoDegenerate.collab DemoDegenerate.args 1%nat 1%nat
       [Fin 1; Fin 0] 0%nat (0%nat, 1%nat) Demo.stage2_world
       = (Ok locals, w') ∧
     parameters w' = [w_t] ∧
     w_t = (λ v, (v - dec 0.495) / (dec 0.495 - dec 0.495))%F <$> [dec 0.5] ∧
     Forall (λ v, ¬ is_finite v) w_t).
Proof.
  assert (Hb : (Fin 0 * dec 0.01 + dec 0.5 * dec 0.99)%F = dec 0.495)
    by by_computation.
  split; [reflexivity|]. split; [reflexivity|].
  split; [reflexivity|]. split; [reflexivity|]. split; [exact Hb|].
  refine (C4_normalization_when_max_equals_min DemoDegenerate.collab
            DemoDegenerate.args 1%nat 1%nat [Fin 1; Fin 0] 0%nat 0%nat 1%nat
            Demo.stage2_world (Fin 0) (Fin 0) (dec 0.5) (dec 0.5) [Fin 1]
            _ _ _ (Q2Qc 0.495)
            eq_refl eq_refl _ _ _ eq_refl eq_refl eq_refl _ Hb Hb).
  - by_computation.
  - by_computation.
  - by_computation.
  - simpl. lia.
Defined.

(** ** C6: the source class weights and their mask *)

Lemma concat_fmap_rows {A B} (f : A → B) (ls : list (list A)) :
  concat ((λ rows : list A, f <$> rows) <$> ls) = f <$> concat ls.
Proof.
  induction ls as [|l ls IH]; [done|].
  cbn [fmap list_fmap concat]. by rewrite fmap_app, <-IH.
Qed.

Lemma selected_Forall (P : eval_sample → Prop) thr samples scores :
  Forall P samples → Forall P (selected thr samples scores).
Proof.
  rewrite !Forall_forall. intros HP x Hx. unfold selected in Hx.
  apply list_elem_of_fmap in Hx as ([y v] & -> & Hy).
  apply list_elem_of_filter in Hy as [_ Hy].
  apply HP. by eapply elem_of_zip_l.
Qed.

Lemma torch_cat_rows {A B} (f : A → B) (pass : list (list A)) :
  pass ≠ [] →
  torch_cat ((λ rows : list A, f <$> rows) <$> pass) = Ok (f <$> concat pass).
Proof.
  intros Hp. unfold torch_cat.
  destruct ((λ rows : list A, f <$> rows) <$> pass) as [|r0 rs] eqn:Eo.
  { by apply fmap_nil_inv in Eo. }
  by rewrite <-Eo, concat_fmap_rows.
Qed.

Lemma static_score_pass {A} (f g : A → fval) (pass : list (list A)) all_score :
  static_score ((λ rows : list A, f <$> rows) <$> pass)
               ((λ rows : list A, g <$> rows) <$> pass) = Ok all_score →
  pass ≠ [].
Proof. intros H ->. by cbn in H. Qed.

(** The class weights in terms of the selected samples. *)
Lemma calc_source_class_weight_selected {net batch}
    (K : collaborators net batch) a L (w : world net) all_score :
  static_score
    ((λ rows : list eval_sample, es_marginal_confidence <$> rows)
       <$> pass_rows K L w)
    ((λ rows : list eval_sample, es_entropy <$> rows) <$> pass_rows K L w)
    = Ok all_score →
  (calc_source_class_weight K a L w).1 =
    norm (mean_dim0 (num_classes K)
            (es_output <$> selected (arg_src_threshold a)
                             (concat (pass_rows K L w)) all_score)).
Proof.
  intros Hscore.
  rewrite calc_source_class_weight_run. cbn [fst]. unfold class_weight_of.
  rewrite Hscore. cbn [mbind result_bind].
  rewrite torch_cat_rows by (by eapply static_score_pass).
  cbn [mbind result_bind].
  by rewrite (mask_select_fmap es_output (arg_src_threshold a) _ all_score
                _ eq_refl).
Qed.

(** The metrics of a pass in terms of its confusion matrix. *)
Lemma validate_confusion {net batch}
    (K : collaborators net batch) a L (w : world net) all_score :
  static_score
    ((λ rows : list eval_sample, es_marginal_confidence <$> rows)
       <$> pass_rows K L w)
    ((λ rows : list eval_sample, es_entropy <$> rows) <$> pass_rows K L w)
    = Ok all_score →
  (validate K a L w).1 =
    summarize K
      (ConfusionMatrix_accs
         (confusion K a all_score
            (es_prediction <$> concat (pass_rows K L w))
            (es_label <$> concat (pass_rows K L w)))).
Proof.
  intros Hscore.
  rewrite validate_run. cbn [fst]. unfold metrics_of.
  rewrite Hscore. cbn [mbind result_bind].
  rewrite !torch_cat_rows by (by eapply static_score_pass).
  done.
Qed.

Lemma cut_mask_lookup a weights j v :
  weights !! j = Some v →
  cut_mask a weights !! j =
    Some (if fltb (arg_cut a) v then Fin 1 else Fin 0).
Proof. intros H. unfold cut_mask, fgtb. by rewrite list_lookup_fmap, H. Qed.

(** C6: when the selection is not empty, [calc_source_class_weight]
    returns the column-wise mean, normalised by [norm] into the unit
    interval, of the softmax rows of exactly the samples of the pass whose
    combined score is at least [src_threshold]; the mask of [main] is 1
    where the weight is strictly greater than [cut] and 0 elsewhere, so 0
    where the weight equals [cut]. *)
Theorem C6_class_weights_from_selected_samples {net batch}
    (K : collaborators net batch) (a : args) (L : DataLoader)
    (w : world net) (all_score : tensor) :
  let pass := pass_rows K L w in
  let samples := concat pass in
  let chosen := selected (arg_src_threshold a) samples all_score in
  static_score
    ((λ rows : list eval_sample, es_marginal_confidence <$> rows) <$> pass)
    ((λ rows : list eval_sample, es_entropy <$> rows) <$> pass)
    = Ok all_score →
  chosen ≠ [] →
  Forall (λ r, length (es_output r) = num_classes K ∧
               Forall is_finite (es_output r)) samples →
  (0 < num_classes K)%nat →
  ∃ weights,
    (calc_source_class_weight K a L w).1 = Ok weights ∧
    norm (column_means (num_classes K) (es_output <$> chosen)) = Ok weights ∧
    length weights = num_classes K ∧
    Forall unit_weight weights ∧
    (∀ j q c, weights !! j = Some (Fin q) → arg_cut a = Fin c →
       cut_mask a weights !! j =
         Some (if decide (c < q) then Fin 1 else Fin 0)) ∧
    (∀ j, weights !! j = Some (arg_cut a) →
       cut_mask a weights !! j = Some (Fin 0)).
Proof.
  intros pass samples chosen Hscore Hne Hrows HC.
  assert (Hsel : Forall (λ r, length (es_output r) = num_classes K ∧
                              Forall is_finite (es_output r)) chosen)
    by by apply selected_Forall.
  assert (Hlen : Forall (λ r, length r = num_classes K) (es_output <$> chosen)).
  { apply Forall_fmap. eapply Forall_impl; [exact Hsel|]. by intros r [? _]. }
  assert (Hfin : Forall (Forall is_finite) (es_output <$> chosen)).
  { apply Forall_fmap. eapply Forall_impl; [exact Hsel|]. by intros r [_ ?]. }
  assert (Hne' : es_output <$> chosen ≠ []).
  { intros E. apply Hne. by apply fmap_nil_inv in E. }
  destruct (column_means_finite _ _ Hne' Hfin Hlen) as (qs & Hqs & Hqlen).
  assert (Hqne : qs ≠ []).
  { intros ->. cbn in Hqlen. lia. }
  destruct (norm_finite qs Hqne) as (weights & Hnorm & Hwlen & Hunit).
  exists weights.
  assert (Hcw : norm (column_means (num_classes K) (es_output <$> chosen))
                = Ok weights) by by rewrite Hqs.
  split.
  { rewrite (calc_source_class_weight_selected K a L w all_score Hscore).
    fold pass samples chosen. by rewrite mean_dim0_column_means. }
  split; [exact Hcw|]. split; [congruence|]. split; [exact Hunit|].
  split.
  - intros j q c Hj Hc. rewrite (cut_mask_lookup _ _ _ _ Hj), Hc.
    cbn [fltb]. by case_bool_decide; case_decide.
  - intros j Hj. rewrite (cut_mask_lookup _ _ _ _ Hj).
    by rewrite fltb_irrefl.
Qed.

Lemma C6_class_weights_from_selected_samples_witness :
  static_score [[dec 0.8; dec 0.1]] [[dec 0.2; dec 0.9]] = Ok [Fin 1; Fin 0] ∧
  selected (dec 0.4) Demo.rows [Fin 1; Fin 0] =
    [Probe.sample 0 [dec 0.9; dec 0.1] 0 (dec 0.8) (dec 0.2)] ∧
  ∃ weights,
    (calc_source_class_weight Demo.collab Demo.args (val_loader Demo.args)
       Demo.stage2_world).1 = Ok weights ∧
    norm (column_means 2 [[dec 0.9; dec 0.1]]) = Ok weights ∧
    Forall unit_weight weights.
Proof.
  split; [by_computation|]. split; [vm_compute; reflexivity|].
  destruct (C6_class_weights_from_selected_samples Demo.collab Demo.args
              (val_loader Demo.args) Demo.stage2_world [Fin 1; Fin 0])
    as (weights & Hrun & Hnorm & _ & Hunit & _).
  - by_computation.
  - intros E. apply (f_equal length) in E. vm_compute in E. discriminate E.
  - by_computation.
  - vm_compute. lia.
  - exists weights. split; [exact Hrun|]. split; [exact Hnorm|]. exact Hunit.
Defined.

(** ** C7: the empty selection *)

(** C7, as stated, fails: with [--src-threshold 0.9] no sample of the pass
    is selected, [calc_source_class_weight] returns a vector of [nan]
    without any error, and the whole run of [main] ends normally. *)
Lemma C7_empty_selection_gives_nan_silently :
  static_score [[dec 0.8; dec 0.1; dec 0.7]] [[dec 0.9; dec 0.2; dec 0.3]]
    = Ok [dec 0.5; dec 0.5; Fin (Q2Qc (6 # 7))] ∧
  selected (arg_src_threshold DemoEmpty.args) DemoEmpty.rows
    [dec 0.5; dec 0.5; Fin (Q2Qc (6 # 7))] = [] ∧
  (calc_source_class_weight DemoEmpty.collab DemoEmpty.args
     (val_loader DemoEmpty.args) Demo.stage2_world).1 = Ok [NaN; NaN] ∧
  (run DemoEmpty.collab DemoEmpty.args [] None).1 = Ok ().
Proof.
  split; [by_computation|]. split; [vm_compute; reflexivity|].
  split; by_computation.
Qed.

(** C7, amended.  If no sample's combined score reaches [src_threshold],
    [calc_source_class_weight] neither fails nor falls back: it returns
    the class weight vector whose every entry is [nan], and the mask that
    [main] derives from it is 0 for every class. *)
Theorem C7_empty_selection_nan_weights_zero_mask {net batch}
    (K : collaborators net batch) (a : args) (L : DataLoader)
    (w : world net) (all_score : tensor) :
  static_score
    ((λ rows : list eval_sample, es_marginal_confidence <$> rows)
       <$> pass_rows K L w)
    ((λ rows : list eval_sample, es_entropy <$> rows) <$> pass_rows K L w)
    = Ok all_score →
  selected (arg_src_threshold a) (concat (pass_rows K L w)) all_score = [] →
  (0 < num_classes K)%nat →
  (calc_source_class_weight K a L w).1 = Ok (replicate (num_classes K) NaN) ∧
  cut_mask a (replicate (num_classes K) NaN)
    = replicate (num_classes K) (Fin 0).
Proof.
  intros Hscore Hempty HC. split; [|apply cut_mask_NaN].
  rewrite (calc_source_class_weight_selected K a L w all_score Hscore).
  rewrite Hempty. cbn [fmap list_fmap].
  rewrite mean_dim0_empty. by apply norm_NaN.
Qed.

Lemma C7_empty_selection_nan_weights_zero_mask_witness :
  (calc_source_class_weight DemoEmpty.collab DemoEmpty.args
     (val_loader DemoEmpty.args) Demo.stage2_world).1
    = Ok (replicate 2 NaN) ∧
  cut_mask DemoEmpty.args (replicate 2 NaN) = replicate 2 (Fin 0).
Proof.
  apply (C7_empty_selection_nan_weights_zero_mask DemoEmpty.collab
           DemoEmpty.args (val_loader DemoEmpty.args) Demo.stage2_world
           [dec 0.5; dec 0.5; Fin (Q2Qc (6 # 7))]).
  - by_computation.
  - vm_compute. reflexivity.
  - vm_compute. lia.
Defined.

(** ** C8: what the confusion matrix is updated with *)

Lemma confusion_pairs (f : Z → fval → Z) (g : Z → Z)
    (samples : list eval_sample) (scores : tensor) :
  zip (g <$> (es_label <$> samples))
      (zip_with f (es_prediction <$> samples) scores)
  = zip_with (λ r s, (g (es_label r), f (es_prediction r) s)) samples scores.
Proof.
  revert scores. induction samples as [|r samples IH]; intros [|s scores];
    try done.
  cbn [fmap list_fmap zip_with]. by rewrite <-IH.
Qed.

Lemma ConfusionMatrix_update_new n labels predictions r c :
  (r < n)%nat → (c < n)%nat →
  ∃ row,
    cm_mat (ConfusionMatrix_update (ConfusionMatrix_new n) labels predictions)
      !! r = Some row ∧
    length row = n ∧
    row !! c = Some (count_pairs (Z.of_nat r) (Z.of_nat c)
                       (zip labels predictions)).
Proof.
  intros Hr Hc. unfold ConfusionMatrix_update, ConfusionMatrix_new.
  cbn [cm_mat cm_num_classes].
  rewrite list_lookup_imap, lookup_replicate_2 by done. cbn [fmap option_fmap option_map].
  eexists. split; [reflexivity|]. split.
  - by rewrite length_imap, length_replicate.
  - by rewrite list_lookup_imap, lookup_replicate_2.
Qed.

(** C8: [validate] updates a confusion matrix of [num_classes + 1] rows and
    columns with, per sample, the label remapped to the unknown index
    [num_classes] when it is at least [num_classes], and the prediction
    overwritten by that same index when the sample's combined score is below
    [threshold], whatever the classifier predicted; entry [(r, c)] of the
    matrix counts the samples with remapped label [r] and final prediction
    [c]. *)
Theorem C8_unknown_overwrite_and_remap {net batch}
    (K : collaborators net batch) (a : args) (L : DataLoader)
    (w : world net) (all_score : tensor) :
  let samples := concat (pass_rows K L w) in
  let unknown_class := Z.of_nat (num_classes K) in
  let final_label (r : eval_sample) : Z :=
    if decide (unknown_class ≤ es_label r)%Z then unknown_class
    else es_label r in
  let final_prediction (r : eval_sample) (s : fval) : Z :=
    if fltb s (arg_threshold a) then unknown_class else es_prediction r in
  static_score
    ((λ rows : list eval_sample, es_marginal_confidence <$> rows)
       <$> pass_rows K L w)
    ((λ rows : list eval_sample, es_entropy <$> rows) <$> pass_rows K L w)
    = Ok all_score →
  ∃ confmat,
    (validate K a L w).1 = summarize K (ConfusionMatrix_accs confmat) ∧
    confmat = confusion K a all_score (es_prediction <$> samples)
                (es_label <$> samples) ∧
    length (cm_mat confmat) = (num_classes K + 1)%nat ∧
    (∀ r c, (r < num_classes K + 1)%nat → (c < num_classes K + 1)%nat →
       ∃ row, cm_mat confmat !! r = Some row ∧
              length row = (num_classes K + 1)%nat ∧
              row !! c = Some (count_pairs (Z.of_nat r) (Z.of_nat c)
                (zip_with (λ r s, (final_label r, final_prediction r s))
                   samples all_score))) ∧
    (∀ r s, fltb s (arg_threshold a) = true →
       final_prediction r s = unknown_class) ∧
    (∀ r, (Z.of_nat (num_classes K) ≤ es_label r)%Z →
       final_label r = unknown_class).
Proof.
  intros samples unknown_class final_label final_prediction Hscore.
  eexists. split; [exact (validate_confusion K a L w all_score Hscore)|].
  split; [reflexivity|]. fold samples.
  unfold confusion, overwrite_unknown, remap_labels. cbn zeta.
  split.
  { unfold ConfusionMatrix_update, ConfusionMatrix_new.
    cbn [cm_mat cm_num_classes]. by rewrite length_imap, length_replicate. }
  split.
  { intros r c Hr Hc.
    destruct (ConfusionMatrix_update_new (num_classes K + 1)
      ((λ l : Z, if decide (Z.of_nat (num_classes K) ≤ l)%Z
                 then Z.of_nat (num_classes K) else l)
         <$> (es_label <$> samples))
      (zip_with (λ p s, if fltb s (arg_threshold a)
                        then Z.of_nat (num_classes K) else p)
         (es_prediction <$> samples) all_score) r c Hr Hc)
      as (row & Hrow & Hlen & Hcell).
    exists row. split; [exact Hrow|]. split; [exact Hlen|].
    rewrite Hcell. by rewrite confusion_pairs. }
  split.
  - intros r s Hs. unfold final_prediction. by rewrite Hs.
  - intros r Hl. unfold final_label, unknown_class. by rewrite decide_True.
Qed.

Lemma C8_unknown_overwrite_and_remap_witness :
  static_score [[dec 0.9; dec 0.9; dec 0.1]] [[dec 0.1; dec 0.1; dec 0.9]]
    = Ok [Fin 1; Fin 1; Fin 0] ∧
  ∃ confmat,
    (validate DemoZero.collab DemoZero.args (val_loader DemoZero.args)
       Demo.stage2_world).1
      = summarize DemoZero.collab (ConfusionMatrix_accs confmat) ∧
    cm_mat confmat = [[0; 1; 1]; [0; 0; 0]; [1; 0; 0]]%nat.
Proof.
  split; [by_computation|].
  destruct (C8_unknown_overwrite_and_remap DemoZero.collab DemoZero.args
              (val_loader DemoZero.args) Demo.stage2_world
              [Fin 1; Fin 1; Fin 0])
    as (confmat & Hrun & -> & _).
  - by_computation.
  - eexists. split; [exact Hrun|]. vm_compute. reflexivity.
Defined.

(** ** C9: the H-score *)

(** C9, as stated, fails: on an evaluation set where both the known and the
    unknown accuracy are zero, [validate] raises [ZeroDivisionError], and so
    does the run of [main] that reaches it. *)
Lemma C9_h_score_division_is_unguarded :
  ConfusionMatrix_accs
    (confusion DemoZero.collab DemoZero.args [Fin 1; Fin 1; Fin 0]
       (es_prediction <$> DemoZero.rows) (es_label <$> DemoZero.rows))
    = [Fin 0; NaN; Fin 0] ∧
  (validate DemoZero.collab DemoZero.args (val_loader DemoZero.args)
     Demo.stage2_world).1 = Raise ZeroDivisionError ∧
  (run DemoZero.collab DemoZero.args [] None).1 = Raise ZeroDivisionError.
Proof. repeat split; by_computation. Qed.

(** C9, amended.  With [known] the mean accuracy over the first
    [num_common_classes] classes and [unknown] the accuracy of the last
    class, both in percent, [validate] returns the H-score
    [2 * known * unknown / (known + unknown)] whenever [known + unknown] is
    not zero; when it is zero, as when both accuracies are zero, the
    division is not guarded and [validate] raises [ZeroDivisionError]. *)
Theorem C9_h_score_of_validate {net batch}
    (K : collaborators net batch) (a : args) (L : DataLoader)
    (w : world net) (all_score : tensor) :
  let samples := concat (pass_rows K L w) in
  let accs :=
    ConfusionMatrix_accs
      (confusion K a all_score (es_prediction <$> samples)
         (es_label <$> samples)) in
  let known :=
    (tensor_mean (take (num_common_classes K) accs) * Fin (Qc_of_Z 100))%F in
  static_score
    ((λ rows : list eval_sample, es_marginal_confidence <$> rows)
       <$> pass_rows K L w)
    ((λ rows : list eval_sample, es_entropy <$> rows) <$> pass_rows K L w)
    = Ok all_score →
  ∃ unknown_acc,
    last accs = Some unknown_acc ∧
    let unknown := (unknown_acc * Fin (Qc_of_Z 100))%F in
    ((known + unknown)%F ≠ Fin 0 →
       ∃ mean_acc,
         (validate K a L w).1 =
           Ok (mean_acc, (Fin 2 * known * unknown / (known + unknown))%F)) ∧
    ((known + unknown)%F = Fin 0 →
       (validate K a L w).1 = Raise ZeroDivisionError) ∧
    (known = Fin 0 → unknown = Fin 0 →
       (validate K a L w).1 = Raise ZeroDivisionError).
Proof.
  intros samples accs known Hscore.
  assert (Hlast : is_Some (last accs)).
  { destruct (last accs) eqn:E; [by eexists|].
    apply last_None in E. apply (f_equal length) in E.
    unfold accs, ConfusionMatrix_accs, confusion, ConfusionMatrix_update,
      ConfusionMatrix_new in E.
    cbn [cm_mat cm_num_classes] in E.
    rewrite !length_imap, length_replicate in E. cbn in E. lia. }
  destruct Hlast as [unknown_acc Hlast].
  exists unknown_acc. split; [exact Hlast|]. intros unknown.
  assert (Hrun : (validate K a L w).1 =
    (h_score ← py_div (Fin 2 * known * unknown)%F (known + unknown)%F;
     Ok ((tensor_sum (take (num_common_classes K) accs) + unknown_acc)
           / of_count (num_common_classes K + 1) * Fin (Qc_of_Z 100),
         h_score)%F)).
  { rewrite (validate_confusion K a L w all_score Hscore).
    fold samples. fold accs. unfold summarize. rewrite Hlast.
    reflexivity. }
  assert (Hzero : (known + unknown)%F = Fin 0 →
                  (validate K a L w).1 = Raise ZeroDivisionError).
  { intros Hz. rewrite Hrun. unfold py_div. by rewrite Hz, decide_True. }
  split; [|split; [exact Hzero|]].
  - intros Hnz. eexists. rewrite Hrun. unfold py_div.
    rewrite decide_False by done. reflexivity.
  - intros Hk Hu. apply Hzero. rewrite Hk, Hu. cbn [fadd]. f_equal; ring.
Qed.

Lemma C9_h_score_of_validate_witness :
  static_score [[dec 0.9; dec 0.9; dec 0.1]] [[dec 0.1; dec 0.1; dec 0.9]]
    = Ok [Fin 1; Fin 1; Fin 0] ∧
  (validate DemoZero.collab DemoZero.args (val_loader DemoZero.args)
     Demo.stage2_world).1 = Raise ZeroDivisionError ∧
  static_score [[dec 0.8; dec 0.1]] [[dec 0.2; dec 0.9]]
    = Ok [Fin 1; Fin 0] ∧
  ∃ mean_acc,
    (validate Demo.collab Demo.args (val_loader Demo.args)
       Demo.stage2_world).1 = Ok (mean_acc, Fin (Qc_of_Z 100)).
Proof.
  split; [by_computation|]. split; [|split; [by_computation|]].
  - destruct (C9_h_score_of_validate DemoZero.collab DemoZero.args
                (val_loader DemoZero.args) Demo.stage2_world
                [Fin 1; Fin 1; Fin 0])
      as (u & Hu & _ & Hz & _).
    + by_computation.
    + vm_compute in Hu. injection Hu as <-. apply Hz. by_computation.
  - destruct (C9_h_score_of_validate Demo.collab Demo.args
                (val_loader Demo.args) Demo.stage2_world [Fin 1; Fin 0])
      as (u & Hu & Hnz & _).
    + by_computation.
    + vm_compute in Hu. injection Hu as <-.
      destruct Hnz as [mean_acc Hrun]; [by_computation|].
      exists mean_acc. rewrite Hrun. f_equal. f_equal. by_computation.
Defined.

(** ** What the training stages leave alone *)

Section Frame.
Context {net batch : Type} (K : collaborators net batch).
Context {X : Type} (f : world net → X).
Implicit Types w : world net.

#[local] Existing Instance M_ret.
#[local] Existing Instance M_bind.

(** [f] looks at nothing the training stages write. *)
Hypothesis f_trace : ∀ t w, f (set_trace t w) = f w.
Hypothesis f_tensors : ∀ ts w, f (set_tensors ts w) = f w.
Hypothesis f_optimizers : ∀ os w, f (set_optimizers os w) = f w.
Hypothesis f_schedulers : ∀ ss w, f (set_schedulers ss w) = f w.
Hypothesis f_parameters : ∀ p w, f (set_parameters p w) = f w.
Hypothesis f_positions : ∀ ps w, f (set_positions ps w) = f w.

Lemma preserves_bind {A B} (m : M A) (k : A → M B) :
  preserves f m → (∀ a, preserves f (k a)) → preserves f (m ≫= k).
Proof.
  intros Hm Hk w. rewrite bind_run. specialize (Hm w).
  destruct (m w) as [[a|e] w1]; simpl in *; [by rewrite Hk | done].
Qed.

Lemma preserves_ret {A} (a : A) : preserves f (mret a).
Proof. by intros w. Qed.

Lemma preserves_raise {A} e : preserves f (raise e : M A).
Proof. by intros w. Qed.

Lemma preserves_lift {A} (r : result A) : preserves f (lift r).
Proof. by intros w. Qed.

Lemma preserves_display a i : preserves f (display a i).
Proof. intros w. unfold display. by case_decide. Qed.

Lemma preserves_get_parameters : preserves f get_parameters.
Proof. by intros w. Qed.

Lemma preserves_emit e : preserves f (emit e).
Proof. intros w. apply f_trace. Qed.

Lemma preserves_new_tensor v : preserves f (new_tensor v).
Proof. intros w. apply f_tensors. Qed.

Lemma preserves_read_tensor l : preserves f (read_tensor l).
Proof. intros w. unfold read_tensor. by destruct (tensors w !! l). Qed.

Lemma preserves_SGD ms : preserves f (SGD ms).
Proof. intros w. apply f_optimizers. Qed.

Lemma preserves_set_lr o lr : preserves f (set_lr o lr).
Proof.
  intros w. unfold set_lr.
  destruct (optimizers w !! o); [apply f_optimizers | done].
Qed.

Lemma preserves_new_scheduler o : preserves f (new_scheduler o).
Proof. intros w. apply f_schedulers. Qed.

Lemma preserves_LambdaLR o : preserves f (LambdaLR o).
Proof.
  apply preserves_bind; [apply preserves_set_lr|].
  intros _. apply preserves_new_scheduler.
Qed.

Lemma preserves_next a it : preserves f (next K a it).
Proof. intros w. apply f_positions. Qed.

Lemma preserves_optimizer_step_ o u : preserves f (optimizer_step_ K o u).
Proof.
  intros w. unfold optimizer_step_.
  destruct (optimizers w !! o); [|done].
  cbn [emit snd]. by rewrite f_trace, f_parameters, f_optimizers.
Qed.

Lemma preserves_scheduler_step_ s : preserves f (scheduler_step_ s).
Proof.
  intros w. unfold scheduler_step_.
  destruct (schedulers w !! s) as [sb|]; [|done].
  rewrite <-(f_schedulers
    (<[s := {| sched_optimizer := sched_optimizer sb;
               sched_last_epoch := sched_last_epoch sb + 1 |}]>
       (schedulers w)) w).
  apply (preserves_bind (set_lr _ _) (λ _, emit _));
    [apply preserves_set_lr | intros _; apply preserves_emit].
Qed.

Lemma preserves_for_each {A} (l : list A) (body : A → M unit) :
  (∀ x, preserves f (body x)) → preserves f (for_each l body).
Proof.
  intros Hb. induction l as [|x l IH]; [apply preserves_ret|].
  apply preserves_bind; [apply Hb | intros; apply IH].
Qed.

Lemma preserves_for_fold {A S} (l : list A) (s : S) (body : A → S → M S) :
  (∀ x s, preserves f (body x s)) → preserves f (for_fold l s body).
Proof.
  intros Hb. revert s. induction l as [|x l IH]; intros s;
    [apply preserves_ret|].
  apply preserves_bind; [apply Hb | intros; apply IH].
Qed.
End Frame.

Ltac preserves_step :=
  lazymatch goal with
  | |- preserves _ (mret _) => apply preserves_ret
  | |- preserves _ (raise _) => apply preserves_raise
  | |- preserves _ (lift _) => apply preserves_lift
  | |- preserves _ (display _ _) => apply preserves_display
  | |- preserves _ get_parameters => apply preserves_get_parameters
  | |- preserves _ (_ ≫= _) => apply preserves_bind
  | |- preserves _ (new_tensor _) => apply preserves_new_tensor
  | |- preserves _ (read_tensor _) => apply preserves_read_tensor
  | |- preserves _ (next _ _ _) => apply preserves_next
  | |- preserves _ (SGD _) => apply preserves_SGD
  | |- preserves _ (LambdaLR _) => apply preserves_LambdaLR
  | |- preserves _ (for_each _ _) => apply preserves_for_each
  | |- preserves _ (for_fold _ _ _) => apply preserves_for_fold
  | |- preserves _ (emit _) => apply preserves_emit
  | |- preserves _ (optimizer_step_ _ _ _) => apply preserves_optimizer_step_
  | |- preserves _ (scheduler_step_ _) => apply preserves_scheduler_step_
  end.

Ltac preserves_go :=
  repeat
    (repeat match goal with |- ∀ _, _ => intro end;
     repeat match goal with
            | p : (_ * _)%type |- _ => destruct p
            end;
     cbn beta iota zeta;
     first [ preserves_step | done ]).

Section FrameStages.
Context {net batch : Type} (K : collaborators net batch).
Implicit Types w : world net.

#[local] Existing Instance M_ret.
#[local] Existing Instance M_bind.

Local Abbreviation checkpoints := (@checkpoints net).

(** No training stage and no evaluation pass touches the checkpoint
    files. *)
Lemma pretrain_checkpoints a o s epoch :
  preserves checkpoints (pretrain K a o s epoch).
Proof. unfold pretrain. preserves_go. Qed.

Lemma train_checkpoints a o s scw up lo epoch :
  preserves checkpoints (train K a o s scw up lo epoch).
Proof. unfold train, train_iteration. preserves_go. Qed.

Lemma train_ens_classifier_checkpoints a it o s i epoch :
  preserves checkpoints (train_ens_classifier K a it o s i epoch).
Proof. unfold train_ens_classifier. preserves_go. Qed.

Lemma refresh_epoch_checkpoints a o ss epoch :
  preserves checkpoints (refresh_epoch K a o ss epoch).
Proof.
  unfold refresh_epoch. apply preserves_for_each; [done..|]. intros i.
  destruct (ss !! i); [apply train_ens_classifier_checkpoints|].
  by apply preserves_raise.
Qed.
End FrameStages.

(** ** Counting what a stage consumes *)

Section Counting.
Context {net batch : Type} (K : collaborators net batch).
Implicit Types (w : world net) (f : world net → Z).

#[local] Existing Instance M_ret.
#[local] Existing Instance M_bind.

Local Abbreviation drawn := (@drawn net).
Local Abbreviation steps_of := (@steps_of net).
Local Abbreviation epoch_of := (@epoch_of net).

Lemma advances_bind {A B} f n1 n2 (m : M A) (k : A → M B) :
  advances f n1 m → (∀ a, advances f n2 (k a)) →
  advances f (n1 + n2) (m ≫= k).
Proof.
  intros Hm Hk w b w2 Hrun.
  apply bind_inv_Ok in Hrun as (a & w1 & H1 & H2).
  rewrite (Hk a w1 b w2 H2), (Hm w a w1 H1). lia.
Qed.

Lemma advances_preserves {A} f (m : M A) :
  preserves f m → advances f 0 m.
Proof.
  intros Hm w a w' Hrun. specialize (Hm w). rewrite Hrun in Hm.
  cbn [snd] in Hm. lia.
Qed.

Lemma advances_eq {A} f n n' (m : M A) :
  advances f n m → n = n' → advances f n' m.
Proof. by intros H <-. Qed.

(** A stage followed by steps that leave the counter alone. *)
Lemma advances_then {A B} f n (m : M A) (k : A → M B) :
  advances f n m → (∀ a, preserves f (k a)) → advances f n (m ≫= k).
Proof.
  intros Hm Hk. eapply advances_eq.
  - apply advances_bind; [exact Hm|]. intros a.
    apply advances_preserves, Hk.
  - lia.
Qed.

(** Steps that leave the counter alone, followed by a stage. *)
Lemma advances_after {A B} f n (m : M A) (k : A → M B) :
  preserves f m → (∀ a, advances f n (k a)) → advances f n (m ≫= k).
Proof.
  intros Hm Hk. eapply advances_eq.
  - apply advances_bind; [apply advances_preserves, Hm | exact Hk].
  - lia.
Qed.

Lemma advances_for_each {A} f (g : A → Z) (l : list A) (body : A → M unit) :
  (∀ x, advances f (g x) (body x)) →
  advances f (foldr (λ x acc, g x + acc)%Z 0%Z l) (for_each l body).
Proof.
  intros Hb. induction l as [|x l IH]; cbn [foldr for_each].
  - apply advances_preserves. by intros w.
  - apply advances_bind; [apply Hb | intros _; apply IH].
Qed.

Lemma advances_for_fold {A S} f (g : A → Z) (l : list A) (s : S)
    (body : A → S → M S) :
  (∀ x s, advances f (g x) (body x s)) →
  advances f (foldr (λ x acc, g x + acc)%Z 0%Z l) (for_fold l s body).
Proof.
  intros Hb. revert s. induction l as [|x l IH]; intros s;
    cbn [foldr for_fold].
  - apply advances_preserves. by intros w.
  - apply advances_bind; [apply Hb | intros s'; apply IH].
Qed.

Lemma foldr_const_sum {A} (n : Z) (l : list A) :
  foldr (λ _ acc, n + acc)%Z 0%Z l = (n * Z.of_nat (length l))%Z.
Proof. induction l as [|x l IH]; cbn [foldr length]; lia. Qed.

Lemma length_range n : Z.of_nat (length (range n)) = Z.max 0 n.
Proof. unfold range. rewrite length_seq. lia. Qed.

(** *** The three counters under the steps of the driver *)

Lemma next_drawn a it it0 :
  advances (drawn it0) (if decide (it0 = it) then 1 else 0) (next K a it).
Proof.
  intros w [k x] w' [= _ _ <-]. unfold drawn. cbn.
  case_decide; subst; lia.
Qed.

Lemma next_preserves_other a it it0 :
  it0 ≠ it → preserves (drawn it0) (next K a it).
Proof.
  intros Hne w. unfold drawn. cbn. by rewrite decide_False.
Qed.

Lemma optimizer_step_steps o u :
  advances (steps_of o) 1 (optimizer_step_ K o u).
Proof.
  intros w [] w'. unfold optimizer_step_, steps_of.
  destruct (optimizers w !! o) as [ob|] eqn:Ho; [|done].
  intros [= <-]. cbn.
  rewrite list_lookup_insert_eq by (by eapply lookup_lt_Some).
  cbn. lia.
Qed.

Lemma set_lr_steps o o' lr : preserves (steps_of o) (set_lr o' lr).
Proof.
  intros w. unfold set_lr, steps_of.
  destruct (optimizers w !! o') as [ob|] eqn:Ho'; [|done]. cbn.
  destruct (decide (o = o')) as [->|Hne].
  - rewrite list_lookup_insert_eq by (by eapply lookup_lt_Some).
    by rewrite Ho'.
  - by rewrite list_lookup_insert_ne.
Qed.

Lemma scheduler_step_steps o s : preserves (steps_of o) (scheduler_step_ s).
Proof.
  intros w. unfold scheduler_step_.
  destruct (schedulers w !! s) as [sb|]; [|done].
  set (w1 := set_schedulers _ w).
  change (steps_of o w) with (steps_of o w1).
  apply (preserves_bind (steps_of o) (set_lr _ _) (λ _, emit _));
    [apply set_lr_steps | by intros _ w2].
Qed.

Lemma scheduler_step_epoch s :
  advances (epoch_of s) 1 (scheduler_step_ s).
Proof.
  intros w [] w'. unfold scheduler_step_, epoch_of.
  destruct (schedulers w !! s) as [sb|] eqn:Hs; [|done].
  rewrite bind_run. unfold set_lr. cbn.
  destruct (optimizers w !! sched_optimizer sb); [|done].
  intros [= <-]. cbn.
  by rewrite list_lookup_insert_eq by (by eapply lookup_lt_Some).
Qed.
End Counting.

Ltac frame_step :=
  lazymatch goal with
  | |- preserves _ (_ ≫= _) => apply preserves_bind
  | |- preserves _ (for_each _ _) => apply preserves_for_each
  | |- preserves _ (for_fold _ _ _) => apply preserves_for_fold
  | |- preserves _ (next _ _ _) =>
      first [ solve [apply preserves_next; done]
            | solve [apply next_preserves_other; done] ]
  | |- preserves _ (scheduler_step_ _) =>
      first [ solve [apply preserves_scheduler_step_; done]
            | apply scheduler_step_steps ]
  | |- preserves _ _ => solve [preserves_step; done]
  end.

Ltac frame_go :=
  repeat
    (repeat match goal with |- ∀ _, _ => intro end;
     repeat match goal with
            | p : (_ * _)%type |- _ => destruct p
            end;
     cbn beta iota zeta;
     frame_step).

(** Walk down a chain of binds to the one step [prim] counts, with the
    steps before and after it leaving the counter alone. *)
Ltac advances_chain prim :=
  repeat
    (repeat match goal with |- ∀ _, _ => intro end;
     repeat match goal with
            | p : (_ * _)%type |- _ => destruct p
            end;
     cbn beta iota zeta;
     first [ solve [ apply advances_then; [ prim | frame_go ] ]
           | apply advances_after; [ solve [frame_go] | ] ]).

Section StageCounts.
Context {net batch : Type} (K : collaborators net batch).
Implicit Types (w : world net) (f : world net → Z).

#[local] Existing Instance M_ret.
#[local] Existing Instance M_bind.

Local Abbreviation drawn := (@drawn net).
Local Abbreviation steps_of := (@steps_of net).
Local Abbreviation epoch_of := (@epoch_of net).

Lemma next_drawn_same a it : advances (drawn it) 1 (next K a it).
Proof.
  eapply advances_eq; [apply next_drawn | by rewrite decide_True].
Qed.

Lemma advances_raise {A} f n e : advances f n (raise e : M A).
Proof. by intros w a w'. Qed.

(** A loop of [iters] iterations, each moving the counter by one. *)
Lemma advances_loop f (iters : Z) (body : nat → M unit) :
  (∀ i, advances f 1 (body i)) →
  advances f (Z.max 0 iters) (for_each (range iters) body).
Proof.
  intros Hb. eapply advances_eq.
  - apply (advances_for_each f (λ _, 1%Z)), Hb.
  - rewrite foldr_const_sum, length_range. lia.
Qed.

Lemma advances_fold_loop {S} f (iters : Z) (s : S) (body : nat → S → M S) :
  (∀ i s, advances f 1 (body i s)) →
  advances f (Z.max 0 iters) (for_fold (range iters) s body).
Proof.
  intros Hb. eapply advances_eq.
  - apply (advances_for_fold f (λ _, 1%Z)), Hb.
  - rewrite foldr_const_sum, length_range. lia.
Qed.

(** *** Pretraining *)

(** The five draws of one pretraining iteration, one per head. *)
Lemma pretrain_heads_drawn a i (acc0 : list batch) :
  (i < 5)%nat →
  advances (drawn (ens_iters i)) 1
    (for_fold (seq 0 5) acc0 (λ classifier_idx acc,
       '(k, x) ← next K a (ens_iters classifier_idx);
       emit (forward backbone true (ens_loader a classifier_idx) k);;
       emit (forward (ensemble (Z.of_nat classifier_idx)) true
               (ens_loader a classifier_idx) k);;
       mret (acc ++ [x]))).
Proof.
  intros Hi. eapply advances_eq.
  - apply (advances_for_fold _
             (λ idx, if decide (ens_iters i = ens_iters idx)
                     then 1%Z else 0%Z)).
    intros idx acc. apply advances_then; [apply next_drawn | frame_go].
  - do 5 (destruct i as [|i];
          [cbn [foldr seq]; repeat case_decide; try congruence; lia|]).
    lia.
Qed.

Lemma pretrain_source_drawn a o s epoch :
  advances (drawn train_source_iter) (Z.max 0 (arg_iters_per_epoch a))
    (pretrain K a o s epoch).
Proof.
  unfold pretrain. apply advances_after; [frame_go|]. intros _.
  apply advances_loop. intros i.
  advances_chain ltac:(apply next_drawn_same).
Qed.

Lemma pretrain_head_drawn a o s epoch i :
  (i < 5)%nat →
  advances (drawn (ens_iters i)) (Z.max 0 (arg_iters_per_epoch a))
    (pretrain K a o s epoch).
Proof.
  intros Hi. unfold pretrain. apply advances_after; [frame_go|]. intros _.
  apply advances_loop. intros j.
  advances_chain ltac:(by apply pretrain_heads_drawn).
Qed.

Lemma pretrain_steps a o s epoch :
  advances (steps_of o) (Z.max 0 (arg_iters_per_epoch a))
    (pretrain K a o s epoch).
Proof.
  unfold pretrain. apply advances_after; [frame_go|]. intros _.
  apply advances_loop. intros i.
  advances_chain ltac:(apply optimizer_step_steps).
Qed.

Lemma pretrain_epochs a o s epoch :
  advances (epoch_of s) (Z.max 0 (arg_iters_per_epoch a))
    (pretrain K a o s epoch).
Proof.
  unfold pretrain. apply advances_after; [frame_go|]. intros _.
  apply advances_loop. intros i.
  advances_chain ltac:(apply scheduler_step_epoch).
Qed.

Lemma pretrain_target_untouched a o s epoch :
  preserves (drawn train_target_iter) (pretrain K a o s epoch).
Proof. unfold pretrain. frame_go. Qed.

Lemma pretrain_tensors a o s epoch :
  preserves tensors (pretrain K a o s epoch).
Proof. unfold pretrain. frame_go. Qed.
(** *** Adversarial training *)

Lemma train_counts f a o s scw up lo epoch :
  (∀ i locals, advances f 1 (train_iteration K a o s scw i locals)) →
  preserves f (read_tensor up) → preserves f (read_tensor lo) →
  (∀ e, preserves f (emit e)) →
  advances f (Z.max 0 (arg_iters_per_epoch a))
    (train K a o s scw up lo epoch).
Proof.
  intros Hit Hup Hlo Hemit. unfold train.
  apply advances_after; [exact Hup|]. intros upper.
  apply advances_after; [exact Hlo|]. intros lower.
  apply advances_after; [apply Hemit|]. intros _.
  apply advances_then; [by apply advances_fold_loop|].
  intros locals w. done.
Qed.

Lemma train_source_drawn a o s scw up lo epoch :
  advances (drawn train_source_iter) (Z.max 0 (arg_iters_per_epoch a))
    (train K a o s scw up lo epoch).
Proof.
  apply train_counts; [|frame_go..].
  intros i [u l]. unfold train_iteration.
  advances_chain ltac:(apply next_drawn_same).
Qed.

Lemma train_target_drawn a o s scw up lo epoch :
  advances (drawn train_target_iter) (Z.max 0 (arg_iters_per_epoch a))
    (train K a o s scw up lo epoch).
Proof.
  apply train_counts; [|frame_go..].
  intros i [u l]. unfold train_iteration.
  advances_chain ltac:(apply next_drawn_same).
Qed.

Lemma train_steps a o s scw up lo epoch :
  advances (steps_of o) (Z.max 0 (arg_iters_per_epoch a))
    (train K a o s scw up lo epoch).
Proof.
  apply train_counts; [|frame_go..].
  intros i [u l]. unfold train_iteration.
  advances_chain ltac:(apply optimizer_step_steps).
Qed.

Lemma train_epochs a o s scw up lo epoch :
  advances (epoch_of s) (Z.max 0 (arg_iters_per_epoch a))
    (train K a o s scw up lo epoch).
Proof.
  apply train_counts; [|frame_go..].
  intros i [u l]. unfold train_iteration.
  advances_chain ltac:(apply scheduler_step_epoch).
Qed.

Lemma train_tensors a o s scw up lo epoch :
  advances (λ w, Z.of_nat (length (tensors w)))
    (2 * Z.max 0 (arg_iters_per_epoch a))
    (train K a o s scw up lo epoch).
Proof.
  unfold train.
  apply advances_after; [frame_go|]. intros upper.
  apply advances_after; [frame_go|]. intros lower.
  apply advances_after; [frame_go|]. intros _.
  apply advances_then; [|by intros locals w].
  eapply advances_eq.
  - apply (advances_for_fold _ (λ _, 2%Z)). intros i [u l].
    unfold train_iteration.
    do 8 (repeat match goal with |- ∀ _, _ => intro end;
          repeat match goal with
                 | p : (_ * _)%type |- _ => destruct p
                 end;
          cbn beta iota zeta;
          apply advances_after; [solve [frame_go]|]).
    intros w_max.
    change 2%Z with (1 + 1)%Z. apply advances_bind.
    { intros w l1 w' [= _ <-]. cbn. rewrite length_app. cbn. lia. }
    intros l1.
    apply advances_after; [solve [frame_go]|]. intros lower'.
    apply advances_after; [solve [frame_go]|]. intros w_min.
    apply advances_then; [|frame_go].
    intros w l2 w' [= _ <-]. cbn. rewrite length_app. cbn. lia.
  - rewrite foldr_const_sum, length_range. lia.
Qed.

Lemma train_heads_untouched a o s scw up lo epoch i :
  preserves (drawn (ens_iters i)) (train K a o s scw up lo epoch).
Proof. unfold train, train_iteration. frame_go. Qed.

(** *** Ensemble refresh *)

Lemma train_ens_classifier_drawn a it o s i epoch :
  advances (drawn it) (Z.max 0 (arg_iters_per_epoch a / 2))
    (train_ens_classifier K a it o s i epoch).
Proof.
  unfold train_ens_classifier. apply advances_after; [frame_go|].
  intros _. apply advances_loop. intros j.
  advances_chain ltac:(apply next_drawn_same).
Qed.

Lemma train_ens_classifier_steps a it o s i epoch :
  advances (steps_of o) (Z.max 0 (arg_iters_per_epoch a / 2))
    (train_ens_classifier K a it o s i epoch).
Proof.
  unfold train_ens_classifier. apply advances_after; [frame_go|].
  intros _. apply advances_loop. intros j.
  advances_chain ltac:(apply optimizer_step_steps).
Qed.

Lemma train_ens_classifier_others a it it0 o s i epoch :
  it0 ≠ it →
  preserves (drawn it0) (train_ens_classifier K a it o s i epoch).
Proof. intros Hne. unfold train_ens_classifier. frame_go. Qed.

Lemma train_ens_classifier_tensors a it o s i epoch :
  preserves tensors (train_ens_classifier K a it o s i epoch).
Proof. unfold train_ens_classifier. frame_go. Qed.

Lemma refresh_epoch_head_drawn a o ss epoch i :
  (i < 5)%nat →
  advances (drawn (ens_iters i)) (Z.max 0 (arg_iters_per_epoch a / 2))
    (refresh_epoch K a o ss epoch).
Proof.
  intros Hi. unfold refresh_epoch. eapply advances_eq.
  - apply (advances_for_each _
             (λ j, if decide (j = i)
                   then Z.max 0 (arg_iters_per_epoch a / 2) else 0%Z)).
    intros j. destruct (ss !! j) as [s|]; [|apply advances_raise].
    case_decide as Hj.
    + subst j. apply train_ens_classifier_drawn.
    + apply advances_preserves, train_ens_classifier_others. congruence.
  - do 5 (destruct i as [|i];
          [cbn [foldr seq]; repeat case_decide; try congruence; lia|]).
    lia.
Qed.

Lemma refresh_epoch_steps a o ss epoch :
  advances (steps_of o) (5 * Z.max 0 (arg_iters_per_epoch a / 2))
    (refresh_epoch K a o ss epoch).
Proof.
  unfold refresh_epoch. eapply advances_eq.
  - apply (advances_for_each _
             (λ _, Z.max 0 (arg_iters_per_epoch a / 2))).
    intros j. destruct (ss !! j) as [s|]; [|apply advances_raise].
    apply train_ens_classifier_steps.
  - rewrite foldr_const_sum, length_seq. lia.
Qed.

Lemma refresh_epoch_others a o ss epoch it0 :
  (∀ i, it0 ≠ ens_iters i) →
  preserves (drawn it0) (refresh_epoch K a o ss epoch).
Proof.
  intros Hne. unfold refresh_epoch. apply preserves_for_each. intros j.
  destruct (ss !! j) as [s|]; [|by intros w].
  by apply train_ens_classifier_others.
Qed.

Lemma refresh_epoch_tensors a o ss epoch :
  preserves tensors (refresh_epoch K a o ss epoch).
Proof.
  unfold refresh_epoch. apply preserves_for_each. intros j.
  destruct (ss !! j) as [s|]; [|by intros w].
  apply train_ens_classifier_tensors.
Qed.
End StageCounts.

(** ** Arithmetic of the scores and the bounds *)

Section Numeric.
Implicit Types (u l M m q : Qc).

Lemma Qc_001_pos : 0 < Q2Qc 0.01.
Proof. apply (bool_decide_unpack _). vm_compute. exact I. Qed.

Lemma Qc_099_pos : 0 < Q2Qc 0.99.
Proof. apply (bool_decide_unpack _). vm_compute. exact I. Qed.

Lemma Qc_sum_zero a b : 0 ≤ a → 0 ≤ b → a + b = 0 → a = 0 ∧ b = 0.
Proof.
  intros Ha Hb E.
  assert (Eb : b = - a).
  { replace b with (a + b - a) by ring. rewrite E. ring. }
  assert (Ha0 : a = 0).
  { apply Qcle_antisym; [|exact Ha].
    apply Qcopp_le_compat in Hb. rewrite Eb in Hb.
    replace (- - a) with a in Hb by ring.
    replace (- 0) with 0 in Hb by ring. exact Hb. }
  split; [exact Ha0|]. rewrite Eb, Ha0. ring.
Qed.

(** The span of the updated bounds (lines 371-372). *)
Lemma smooth_span u l M m :
  (Q2Qc 0.01 * u + Q2Qc 0.99 * M) - (Q2Qc 0.01 * l + Q2Qc 0.99 * m)
  = Q2Qc 0.01 * (u - l) + Q2Qc 0.99 * (M - m).
Proof. ring. Qed.

Lemma Qc_sub_nonneg a b : a ≤ b ↔ 0 ≤ b - a.
Proof. apply Qcle_minus_iff. Qed.

Lemma Qc_sub_pos a b : a < b ↔ 0 < b - a.
Proof. apply Qclt_minus_iff. Qed.


Lemma smooth_equal u l M m :
  l ≤ u → m ≤ M →
  (Q2Qc 0.01 * u + Q2Qc 0.99 * M = Q2Qc 0.01 * l + Q2Qc 0.99 * m
   ↔ u = l ∧ M = m).
Proof.
  intros Hl Hm. split; [|by intros [-> ->]].
  intros E.
  assert (E0 : Q2Qc 0.01 * (u - l) + Q2Qc 0.99 * (M - m) = 0).
  { rewrite <-smooth_span, E. ring. }
  apply Qc_sum_zero in E0 as [E1 E2].
  - apply Qcmult_integral in E1 as [E1|E1];
      [by pose proof Qc_001_pos as H; rewrite E1 in H;
          apply (irreflexivity Qclt) in H|].
    apply Qcmult_integral in E2 as [E2|E2];
      [by pose proof Qc_099_pos as H; rewrite E2 in H;
          apply (irreflexivity Qclt) in H|].
    split.
    + replace u with (u - l + l) by ring. rewrite E1. ring.
    + replace M with (M - m + m) by ring. rewrite E2. ring.
  - apply Qcmult_nonneg_nonneg;
      [apply Qclt_le_weak, Qc_001_pos | by apply (proj1 (Qc_sub_nonneg _ _))].
  - apply Qcmult_nonneg_nonneg;
      [apply Qclt_le_weak, Qc_099_pos | by apply (proj1 (Qc_sub_nonneg _ _))].
Qed.

Lemma running_normalize_finite (qs : list Qc) (u' l' : Qc) :
  u' ≠ l' →
  running_normalize (Fin <$> qs) (Fin u') (Fin l')
  = Fin <$> ((λ q, (q - l') / (u' - l')) <$> qs).
Proof.
  intros Hne. unfold running_normalize.
  rewrite <-!list_fmap_compose. apply list_fmap_ext. intros i q _.
  unfold compose. cbn beta. rewrite !fsub_Fin, fdiv_Fin; [done|].
  intros E. apply Hne. replace u' with (u' - l' + l') by ring.
  rewrite E. ring.
Qed.

Lemma Qc_001_099 : Q2Qc 0.01 + Q2Qc 0.99 = 1.
Proof. apply (bool_decide_unpack _). vm_compute. exact I. Qed.

Lemma Qc_pos_neq_0 a : 0 < a → a ≠ 0.
Proof. intros H E. rewrite E in H. by apply (irreflexivity Qclt) in H. Qed.

Lemma Qc_div_gt_1 n d : 0 < d → d < n → 1 < n / d.
Proof.
  intros Hd Hn. unfold Qcdiv.
  rewrite <-(Qcmult_inv_r d) by (by apply Qc_pos_neq_0).
  apply Qcmult_lt_mono_pos_r; [by apply Qcinv_pos | done].
Qed.

(** From the bounds [(0, 0)], the top score of a batch is normalised
    to more than 1. *)
Lemma first_top_weight M m :
  0 ≤ m → m < M →
  1 < (M - (Q2Qc 0.01 * 0 + Q2Qc 0.99 * m))
      / ((Q2Qc 0.01 * 0 + Q2Qc 0.99 * M)
         - (Q2Qc 0.01 * 0 + Q2Qc 0.99 * m)).
Proof.
  intros Hm HM. apply Qc_div_gt_1.
  - rewrite smooth_span. replace (Q2Qc 0.01 * (0 - 0)) with 0 by ring.
    rewrite Qcplus_0_l. apply Qcmult_pos_pos; [apply Qc_099_pos|].
    by apply (proj1 (Qc_sub_pos _ _)).
  - apply (proj1 (Qcplus_lt_mono_r _ _ _)).
    apply (proj2 (Qc_sub_pos _ _)).
    replace (M - (Q2Qc 0.01 * 0 + Q2Qc 0.99 * M))
      with (Q2Qc 0.01 * M).
    + apply Qcmult_pos_pos; [apply Qc_001_pos|].
      by eapply Qcle_lt_trans.
    + transitivity ((Q2Qc 0.01 + Q2Qc 0.99) * M
                    - (Q2Qc 0.01 * 0 + Q2Qc 0.99 * M)); [ring|].
      rewrite Qc_001_099. ring.
Qed.

Lemma foldl_Qcmax_in a (qs : list Qc) : foldl Qcmax a qs ∈ a :: qs.
Proof.
  revert a. induction qs as [|q qs IH]; intros a; [by left|].
  cbn [foldl]. specialize (IH (Qcmax a q)).
  apply elem_of_cons in IH as [->|IH].
  - unfold Qcmax. case_decide; [by right; left | by left].
  - by right; right.
Qed.

Lemma tensor_max_attained (qs : list Qc) M :
  tensor_max (Fin <$> qs) = Ok (Fin M) → ∃ i, qs !! i = Some M.
Proof.
  destruct qs as [|q qs]; [done|]. cbn [fmap list_fmap tensor_max].
  rewrite foldl_fmax2_Fin. intros [= <-].
  apply list_elem_of_lookup, foldl_Qcmax_in.
Qed.

(** The raw combined score of statistics in the unit interval. *)
Lemma combine_unit a b :
  0 ≤ a → a ≤ 1 → 0 ≤ b → b ≤ 1 →
  0 ≤ (a + 1 - b) / 2 ∧ (a + 1 - b) / 2 ≤ 1.
Proof.
  intros Ha0 Ha1 Hb0 Hb1.
  assert (H2 : (0 : Qc) < 2) by (apply (bool_decide_unpack _); exact I).
  assert (Hi : 0 < / 2) by (by apply Qcinv_pos).
  unfold Qcdiv. split.
  - apply Qcmult_nonneg_nonneg; [|by apply Qclt_le_weak].
    replace (a + 1 - b) with (a + (1 - b)) by ring.
    apply Qcplus_nonneg_nonneg; [done|].
    by apply (proj1 (Qc_sub_nonneg _ _)).
  - apply (Qcle_trans _ (2 * / 2));
      [|rewrite Qcmult_inv_r by (by apply Qc_pos_neq_0);
        apply Qcle_refl].
    apply Qcmult_le_mono_nonneg_r; [by apply Qclt_le_weak|].
    apply (proj2 (Qc_sub_nonneg _ _)).
    replace (2 - (a + 1 - b)) with ((1 - a) + b) by ring.
    apply Qcplus_nonneg_nonneg; [|done].
    by apply (proj1 (Qc_sub_nonneg _ _)).
Qed.

(** The harmonic mean of two positive numbers lies between them. *)
Lemma harmonic_between k u :
  0 < k → k ≤ u →
  k ≤ 2 * k * u / (k + u) ∧ 2 * k * u / (k + u) ≤ u.
Proof.
  intros Hk Hku.
  assert (Hu : 0 < u) by (by eapply Qclt_le_trans).
  assert (Hs : 0 < k + u) by (by apply Qcplus_pos_pos).
  assert (Hi : 0 ≤ / (k + u)) by (by apply Qclt_le_weak, Qcinv_pos).
  assert (Hd : 0 ≤ u - k) by (by apply (proj1 (Qc_sub_nonneg _ _))).
  unfold Qcdiv. split.
  - apply (Qcle_trans _ (k * (k + u) * / (k + u))).
    { rewrite <-Qcmult_assoc, Qcmult_inv_r by (by apply Qc_pos_neq_0).
      rewrite Qcmult_1_r. apply Qcle_refl. }
    apply Qcmult_le_mono_nonneg_r; [done|].
    apply (proj2 (Qc_sub_nonneg _ _)).
    replace (2 * k * u - k * (k + u)) with (k * (u - k)) by ring.
    apply Qcmult_nonneg_nonneg; [by apply Qclt_le_weak | done].
  - apply (Qcle_trans _ (u * (k + u) * / (k + u))).
    2:{ rewrite <-Qcmult_assoc, Qcmult_inv_r by (by apply Qc_pos_neq_0).
        rewrite Qcmult_1_r. apply Qcle_refl. }
    apply Qcmult_le_mono_nonneg_r; [done|].
    apply (proj2 (Qc_sub_nonneg _ _)).
    replace (u * (k + u) - 2 * k * u) with (u * (u - k)) by ring.
    apply Qcmult_nonneg_nonneg; [by apply Qclt_le_weak | done].
Qed.
End Numeric.

Section Indexing.
Lemma mapM_result_Ok {A B} (f : A → result B) (l : list A) (ys : list B) :
  mapM f l = Ok ys → Forall2 (λ x y, f x = Ok y) l ys.
Proof.
  revert ys. induction l as [|x l IH]; intros ys.
  - intros [= <-]. constructor.
  - cbn [mapM]. destruct (f x) as [y|e] eqn:Hx; [|done].
    cbn [mbind result_bind].
    destruct (mapM f l) as [ys'|e]; [|done].
    intros [= <-]. constructor; [done | by apply IH].
Qed.

Lemma index_select_elements (t : tensor) (idx : list Z) (ys : tensor) :
  index_select t idx = Ok ys →
  length ys = length idx ∧ Forall (λ y, y ∈ t) ys.
Proof.
  intros H. apply mapM_result_Ok in H. split.
  - symmetry. by eapply Forall2_length.
  - induction H as [|i y idx ys Hy _ IH]; constructor; [|done].
    cbn zeta in Hy. case_decide; [|done].
    destruct (t !! _) as [v|] eqn:Hv; [|done].
    injection Hy as <-. by eapply list_elem_of_lookup_2.
Qed.
End Indexing.

(** ** The order of the stages *)

Section Appends.
Context {net batch : Type} (K : collaborators net batch).
Context {X : Type}.
Implicit Types (w : world net) (f : world net → list X).

#[local] Existing Instance M_ret.
#[local] Existing Instance M_bind.

Lemma appends_bind {A B} f l1 l2 (m : M A) (k : A → M B) :
  appends f l1 m → (∀ a, appends f l2 (k a)) →
  appends f (l1 ++ l2) (m ≫= k).
Proof.
  intros Hm Hk w b w2 Hrun.
  apply bind_inv_Ok in Hrun as (a & w1 & H1 & H2).
  by rewrite (Hk a w1 b w2 H2), (Hm w a w1 H1), app_assoc.
Qed.

Lemma appends_preserves {A} f (m : M A) :
  preserves f m → appends f [] m.
Proof.
  intros Hm w a w' Hrun. specialize (Hm w). rewrite Hrun in Hm.
  cbn [snd] in Hm. by rewrite app_nil_r.
Qed.

Lemma appends_eq {A} f l l' (m : M A) :
  appends f l m → l = l' → appends f l' m.
Proof. by intros H <-. Qed.

Lemma appends_then {A B} f l (m : M A) (k : A → M B) :
  appends f l m → (∀ a, preserves f (k a)) → appends f l (m ≫= k).
Proof.
  intros Hm Hk. eapply appends_eq.
  - apply appends_bind; [exact Hm|]. intros a.
    apply appends_preserves, Hk.
  - apply app_nil_r.
Qed.

Lemma appends_after {A B} f l (m : M A) (k : A → M B) :
  preserves f m → (∀ a, appends f l (k a)) → appends f l (m ≫= k).
Proof.
  intros Hm Hk. eapply appends_eq.
  - apply appends_bind; [apply appends_preserves, Hm | exact Hk].
  - done.
Qed.

Lemma appends_raise {A} f l e : appends f l (raise e : M A).
Proof. by intros w a w'. Qed.

Lemma appends_for_each {A} f (g : A → list X) (l : list A)
    (body : A → M unit) :
  (∀ x, appends f (g x) (body x)) →
  appends f (l ≫= g) (for_each l body).
Proof.
  intros Hb. induction l as [|x l IH]; cbn [for_each].
  - apply appends_preserves. by intros w.
  - eapply appends_eq.
    + apply (appends_bind f (g x) (l ≫= g));
        [apply Hb | intros _; apply IH].
    + done.
Qed.

Lemma appends_for_fold {A S} f (g : A → list X) (l : list A) (s : S)
    (body : A → S → M S) :
  (∀ x s, appends f (g x) (body x s)) →
  appends f (l ≫= g) (for_fold l s body).
Proof.
  intros Hb. revert s. induction l as [|x l IH]; intros s; cbn [for_fold].
  - apply appends_preserves. by intros w.
  - eapply appends_eq.
    + apply (appends_bind f (g x) (l ≫= g));
        [apply Hb | intros s'; apply IH].
    + done.
Qed.
End Appends.

Section ScheduleSteps.
Context {net batch : Type} (K : collaborators net batch).
Implicit Types w : world net.

#[local] Existing Instance M_ret.
#[local] Existing Instance M_bind.

Local Abbreviation schedule := (@schedule net).

Lemma schedule_snoc w e :
  schedule (set_trace (trace w ++ [e]) w)
  = schedule w ++ from_option (λ s, [s]) [] (stage_label e).
Proof.
  unfold schedule. cbn [trace set_trace]. rewrite omap_app.
  f_equal; cbn; by destruct (stage_label e).
Qed.

Lemma emit_schedule_plain e :
  stage_label e = None → preserves schedule (emit e).
Proof.
  intros He w. cbn [emit snd]. rewrite schedule_snoc, He.
  apply app_nil_r.
Qed.

Lemma emit_schedule e s :
  stage_label e = Some s → appends schedule [s] (emit e).
Proof.
  intros He w [] w' [= <-]. by rewrite schedule_snoc, He.
Qed.

Lemma optimizer_step_schedule o u :
  preserves schedule (optimizer_step_ K o u).
Proof.
  intros w. unfold optimizer_step_.
  destruct (optimizers w !! o); [|done].
  cbn [emit snd]. rewrite schedule_snoc. cbn. by rewrite app_nil_r.
Qed.

Lemma scheduler_step_schedule s : preserves schedule (scheduler_step_ s).
Proof.
  intros w. unfold scheduler_step_.
  destruct (schedulers w !! s) as [sb|]; [|done].
  set (w1 := set_schedulers _ w).
  change (schedule w) with (schedule w1).
  apply (preserves_bind schedule (set_lr _ _) (λ _, emit _)).
  - by apply preserves_set_lr.
  - intros _. by apply emit_schedule_plain.
Qed.

Lemma save_latest_schedule : preserves schedule (save_latest (net := net)).
Proof. by intros w. Qed.

Lemma copy_latest_to_best_schedule :
  preserves schedule (copy_latest_to_best (net := net)).
Proof. by intros w. Qed.

Lemma load_best_schedule : preserves schedule (load_best K).
Proof. intros w. unfold load_best. by destruct (best_checkpoint w). Qed.

Lemma pass_events_unlabelled L ks : omap stage_label (pass_events L ks) = [].
Proof.
  unfold pass_events. induction ks as [|k ks IH]; [done|].
  cbn. exact IH.
Qed.

Lemma schedule_call_pass (t : list event) e s L ks :
  stage_label e = Some s →
  omap stage_label (t ++ e :: pass_events L ks)
  = omap stage_label t ++ [s].
Proof.
  intros He. rewrite omap_app. f_equal.
  change (e :: pass_events L ks) with ([e] ++ pass_events L ks).
  rewrite omap_app, pass_events_unlabelled, app_nil_r.
  cbn. by rewrite He.
Qed.

Lemma calc_source_class_weight_schedule a L :
  appends schedule [Sweights L] (calc_source_class_weight K a L).
Proof.
  intros w r w' Hrun. rewrite calc_source_class_weight_run in Hrun.
  injection Hrun as _ <-. unfold schedule. cbn [trace set_trace].
  by apply schedule_call_pass.
Qed.

Lemma validate_schedule a L :
  appends schedule [Svalidate L] (validate K a L).
Proof.
  intros w r w' Hrun. rewrite validate_run in Hrun.
  injection Hrun as _ <-. unfold schedule. cbn [trace set_trace].
  by apply schedule_call_pass.
Qed.
End ScheduleSteps.

Ltac schedule_step :=
  lazymatch goal with
  | |- preserves _ (emit _) => solve [apply emit_schedule_plain; done]
  | |- preserves _ (optimizer_step_ _ _ _) => apply optimizer_step_schedule
  | |- preserves _ (scheduler_step_ _) => apply scheduler_step_schedule
  | |- preserves _ save_latest => apply save_latest_schedule
  | |- preserves _ copy_latest_to_best => apply copy_latest_to_best_schedule
  | |- preserves _ (load_best _) => apply load_best_schedule
  | |- preserves _ (SGD _) => solve [apply preserves_SGD; done]
  | |- preserves _ (LambdaLR _) => solve [apply preserves_LambdaLR; done]
  | |- _ => frame_step
  end.

Ltac schedule_go :=
  repeat
    (repeat match goal with |- ∀ _, _ => intro end;
     repeat match goal with
            | p : (_ * _)%type |- _ => destruct p
            end;
     cbn beta iota zeta;
     schedule_step).

Section ScheduleStages.
Context {net batch : Type} (K : collaborators net batch).
Implicit Types w : world net.

#[local] Existing Instance M_ret.
#[local] Existing Instance M_bind.

Local Abbreviation schedule := (@schedule net).

Lemma pretrain_schedule a o s epoch :
  appends schedule [Spretrain epoch] (pretrain K a o s epoch).
Proof.
  unfold pretrain. apply appends_then; [by apply emit_schedule|].
  schedule_go.
Qed.

Lemma train_schedule a o s scw up lo epoch :
  appends schedule [Strain epoch] (train K a o s scw up lo epoch).
Proof.
  unfold train.
  apply appends_after; [schedule_go|]. intros upper.
  apply appends_after; [schedule_go|]. intros lower.
  apply appends_then; [by apply emit_schedule|].
  unfold train_iteration. schedule_go.
Qed.

Lemma train_ens_classifier_schedule a it o s i epoch :
  appends schedule [Srefresh i epoch]
    (train_ens_classifier K a it o s i epoch).
Proof.
  unfold train_ens_classifier.
  apply appends_then; [by apply emit_schedule|]. schedule_go.
Qed.

Lemma refresh_epoch_schedule a o ss epoch :
  appends schedule ((λ i, Srefresh i epoch) <$> seq 0 5)
    (refresh_epoch K a o ss epoch).
Proof.
  unfold refresh_epoch. eapply appends_eq.
  - apply (appends_for_each _ (λ i, [Srefresh i epoch])). intros i.
    destruct (ss !! i) as [s|]; [|apply appends_raise].
    apply train_ens_classifier_schedule.
  - reflexivity.
Qed.

Lemma stage2_epoch_schedule a o s eo ss scw up lo epoch best :
  appends schedule (epoch_schedule a epoch)
    (stage2_epoch K a o s eo ss scw up lo epoch best).
Proof.
  unfold stage2_epoch, epoch_schedule. destruct best as [best_acc best_h].
  apply (appends_bind schedule [Strain epoch]); [apply train_schedule|].
  intros _. apply appends_bind; [apply refresh_epoch_schedule|].
  intros _. apply appends_then; [apply validate_schedule|].
  intros [acc h]. apply preserves_bind; [schedule_go|]. intros _.
  cbn zeta. destruct (fgtb h best_h); schedule_go.
Qed.

Lemma main_schedule a :
  arg_phase a = PhaseTrain →
  appends schedule (training_schedule a) (main K a).
Proof.
  intros Hphase. unfold main, training_schedule. rewrite Hphase.
  rewrite decide_True by done.
  apply appends_after; [schedule_go|]. intros _.
  apply appends_after; [schedule_go|]. intros o1.
  apply appends_after; [schedule_go|]. intros s1.
  apply appends_bind.
  { eapply appends_eq.
    - apply (appends_for_each _ (λ epoch, [Spretrain epoch])).
      intros epoch. apply pretrain_schedule.
    - generalize (range (arg_epochs_pretrain a)). intros l.
      induction l as [|x l IH]; [done|]. cbn. by rewrite <-IH. }
  intros _.
  apply appends_after; [schedule_go|]. intros o2.
  apply appends_after; [schedule_go|]. intros s2.
  apply appends_after; [schedule_go|]. intros o3.
  apply appends_after; [schedule_go|]. intros s3.
  apply appends_after; [schedule_go|]. intros up.
  apply appends_after; [schedule_go|]. intros lo.
  apply (appends_bind schedule [Sweights (val_loader a)]);
    [apply calc_source_class_weight_schedule|].
  intros scw. cbn zeta.
  apply appends_bind.
  { apply (appends_for_fold _ (epoch_schedule a)). intros epoch best.
    apply stage2_epoch_schedule. }
  intros _. apply appends_after; [schedule_go|]. intros _.
  apply appends_then; [apply validate_schedule|]. schedule_go.
Qed.
End ScheduleStages.

(** * Further properties of the driver *)

(** ** The bounds handed to [train] *)

(** X1.  In every run of [main], whatever the arguments, the data and the
    networks, every call of [train] is handed bounds that hold zero: the
    tensors created at lines 195-196 are never written, since [train]
    rebinds its own names (lines 371-372). *)
Theorem X1_every_train_call_gets_zero_bounds {net batch}
    (K : collaborators net batch) (a : args) (init : net)
    (on_disk : option net) (epoch : nat) (upper lower : fval) :
  call_train epoch upper lower ∈ trace (run K a init on_disk).2 →
  upper = Fin 0 ∧ lower = Fin 0.
Proof. apply train_always_receives_zero_bounds. Qed.

Lemma X1_every_train_call_gets_zero_bounds_witness :
  call_train 1%nat (Fin 0) (Fin 0)
    ∈ trace (run Demo.collab Demo.args [] None).2 ∧
  Fin 0 = Fin 0 ∧ Fin 0 = Fin 0.
Proof.
  assert (H : call_train 1%nat (Fin 0) (Fin 0)
                ∈ trace (run Demo.collab Demo.args [] None).2)
    by by_computation.
  split; [exact H|].
  exact (X1_every_train_call_gets_zero_bounds Demo.collab Demo.args [] None
           1%nat (Fin 0) (Fin 0) H).
Defined.

(** ** The evaluation-mode passes *)

(** X2.  [calc_source_class_weight] and [validate] change nothing but the
    log, whether they return or raise: parameters, optimizers, schedulers,
    tensors, iterator positions and checkpoints are as before, and the log
    grows by the call followed, for every batch of the loader in order, by
    the backbone and the ensemble forward with gradients off. *)
Theorem X2_evaluation_passes_are_read_only {net batch}
    (K : collaborators net batch) (a : args) (L : DataLoader)
    (w : world net) :
  let n := length (loader_batches K L) in
  let unchanged (w' : world net) :=
    parameters w' = parameters w ∧ optimizers w' = optimizers w ∧
    schedulers w' = schedulers w ∧ tensors w' = tensors w ∧
    positions w' = positions w ∧
    latest_checkpoint w' = latest_checkpoint w ∧
    best_checkpoint w' = best_checkpoint w in
  (unchanged (calc_source_class_weight K a L w).2 ∧
   trace (calc_source_class_weight K a L w).2 =
     trace w ++ call_calc_source_class_weight L :: pass_events L (seq 0 n)) ∧
  (unchanged (validate K a L w).2 ∧
   trace (validate K a L w).2 =
     trace w ++ call_validate L :: pass_events L (seq 0 n)).
Proof.
  intros n unchanged.
  rewrite calc_source_class_weight_run, validate_run. by repeat split.
Qed.

(** X3.  On a loader that yields no batch, both passes raise
    [RuntimeError]: [torch.cat] is handed an empty list (lines 318 and
    473). *)
Theorem X3_evaluation_of_an_empty_loader_raises {net batch}
    (K : collaborators net batch) (a : args) (L : DataLoader)
    (w : world net) :
  loader_batches K L = [] →
  (calc_source_class_weight K a L w).1 = Raise RuntimeError ∧
  (validate K a L w).1 = Raise RuntimeError.
Proof.
  intros HL. rewrite calc_source_class_weight_run, validate_run.
  unfold pass_rows. rewrite HL. done.
Qed.

Lemma X3_evaluation_of_an_empty_loader_raises_witness :
  (calc_source_class_weight (Probe.collab 2 1 [] (λ _ _, Demo.a_batch))
     Demo.args (val_loader Demo.args) Demo.stage2_world).1
    = Raise RuntimeError ∧
  (validate (Probe.collab 2 1 [] (λ _ _, Demo.a_batch))
     Demo.args (val_loader Demo.args) Demo.stage2_world).1
    = Raise RuntimeError.
Proof.
  exact (X3_evaluation_of_an_empty_loader_raises
           (Probe.collab 2 1 [] (λ _ _, Demo.a_batch)) Demo.args
           (val_loader Demo.args) Demo.stage2_world eq_refl).
Defined.

(** ** The test phase *)

(** X4.  With [--phase test], [main] needs the best checkpoint of an
    earlier run: without it the run raises [FileNotFoundError] before
    anything else happens.  With it, the run is one evaluation pass over
    the test loader on the loaded parameters: no optimizer, scheduler or
    tensor is created, the parameters stay the loaded ones and no
    checkpoint is written. *)
Theorem X4_test_phase_evaluates_the_checkpoint {net batch}
    (K : collaborators net batch) (a : args) (init : net)
    (on_disk : option net) :
  arg_phase a = PhaseTest →
  (on_disk = None →
     run K a init on_disk =
       (Raise FileNotFoundError, initial_world init on_disk)) ∧
  (∀ saved, on_disk = Some saved →
     let loaded := load_state_dict K init saved in
     let w' := (run K a init on_disk).2 in
     (run K a init on_disk).1 =
       (metrics_of K a
          (eval_forward K loaded <$> loader_batches K (test_loader a))
        ≫= λ _, Ok ()) ∧
     parameters w' = loaded ∧
     optimizers w' = [] ∧ schedulers w' = [] ∧ tensors w' = [] ∧
     latest_checkpoint w' = None ∧ best_checkpoint w' = Some saved ∧
     trace w' =
       call_validate (test_loader a) ::
       pass_events (test_loader a)
         (seq 0 (length (loader_batches K (test_loader a))))).
Proof.
  intros Hphase. unfold run, main. rewrite Hphase.
  rewrite decide_False by done. split.
  - intros ->. reflexivity.
  - intros saved ->. cbn zeta.
    rewrite bind_run. unfold load_best.
    cbn [initial_world best_checkpoint parameters].
    rewrite bind_run, validate_run. unfold pass_rows.
    cbn [set_parameters parameters trace app].
    destruct (metrics_of K a _) as [[acc h]|e]; by repeat split.
Qed.

Lemma X4_test_phase_evaluates_the_checkpoint_witness :
  run Demo.collab DemoTest.args [] None =
    (Raise FileNotFoundError, initial_world [] None) ∧
  (run Demo.collab DemoTest.args [] (Some [[Fin 1]])).1 = Ok () ∧
  parameters (run Demo.collab DemoTest.args [] (Some [[Fin 1]])).2 = [] ∧
  optimizers (run Demo.collab DemoTest.args [] (Some [[Fin 1]])).2 = [].
Proof.
  destruct (X4_test_phase_evaluates_the_checkpoint Demo.collab DemoTest.args
              [] None eq_refl) as [Hnone _].
  destruct (X4_test_phase_evaluates_the_checkpoint Demo.collab DemoTest.args
              [] (Some [[Fin 1]]) eq_refl) as [_ Hsome].
  destruct (Hsome _ eq_refl) as (Hr & Hp & Ho & _).
  split; [exact (Hnone eq_refl)|]. split; [|split; [exact Hp | exact Ho]].
  rewrite Hr. by_computation.
Defined.

(** ** Checkpoints *)

(** X5.  An epoch of stage 2 that returns has evaluated the parameters it
    ends with on the validation loader and saved them as the latest
    checkpoint.  The best checkpoint is overwritten, by these parameters,
    exactly when the H-score of that evaluation is strictly greater than
    the best so far (never on a [nan]); otherwise it stays as it was, and
    so does the best H-score.  The best accuracy becomes the evaluation's
    unless the old one is strictly greater. *)
Theorem X5_best_checkpoint_follows_h_score {net batch}
    (K : collaborators net batch) (a : args)
    (o s eo : loc) (ss : list loc) (scw : tensor) (up lo : loc)
    (epoch : nat) (best_acc best_h_score : fval) (w : world net)
    (acc' h_score' : fval) :
  (stage2_epoch K a o s eo ss scw up lo epoch (best_acc, best_h_score) w).1
    = Ok (acc', h_score') →
  let w' :=
    (stage2_epoch K a o s eo ss scw up lo epoch (best_acc, best_h_score) w).2
  in
  ∃ acc h_score,
    metrics_of K a (pass_rows K (val_loader a) w') = Ok (acc, h_score) ∧
    acc' = (if fgtb best_acc acc then best_acc else acc) ∧
    latest_checkpoint w' = Some (parameters w') ∧
    (if fgtb h_score best_h_score
     then h_score' = h_score ∧ best_checkpoint w' = Some (parameters w')
     else h_score' = best_h_score ∧
          best_checkpoint w' = best_checkpoint w).
Proof.
  unfold stage2_epoch. rewrite bind_run.
  pose proof (train_checkpoints K a o s scw up lo epoch w) as H1.
  destruct (train K a o s scw up lo epoch w) as [[[]|e] w1]; [|done].
  rewrite bind_run.
  pose proof (refresh_epoch_checkpoints K a eo ss epoch w1) as H2.
  destruct (refresh_epoch K a eo ss epoch w1) as [[[]|e] w2]; [|done].
  assert (Hb : best_checkpoint w2 = best_checkpoint w).
  { cbn [snd] in H1, H2. rewrite H1 in H2. by injection H2. }
  rewrite bind_run, validate_run. unfold pass_rows.
  destruct (metrics_of K a (eval_forward K (parameters w2) <$> _))
    as [[acc h_score]|e] eqn:Hm; [|done].
  rewrite bind_run. cbn [save_latest].
  destruct (fgtb h_score best_h_score) eqn:Hh.
  - rewrite bind_run. cbn [copy_latest_to_best]. cbn.
    intros [= <- <-]. exists acc, h_score. rewrite Hm, Hh. done.
  - cbn. intros [= <- <-]. exists acc, h_score. rewrite Hm, Hh. done.
Qed.

Lemma X5_best_checkpoint_follows_h_score_witness :
  ∃ acc h_score,
    metrics_of Demo.collab Demo.args
      (pass_rows Demo.collab (val_loader Demo.args)
         (stage2_epoch Demo.collab Demo.args 1%nat 1%nat 2%nat
            (replicate 5 2%nat) [Fin 1; Fin 0] 0%nat 1%nat 0%nat
            (Fin 0, Fin 0) Demo.stage2_world).2) = Ok (acc, h_score) ∧
    fgtb h_score (Fin 0) = true ∧
    best_checkpoint
      (stage2_epoch Demo.collab Demo.args 1%nat 1%nat 2%nat
         (replicate 5 2%nat) [Fin 1; Fin 0] 0%nat 1%nat 0%nat
         (Fin 0, Fin 0) Demo.stage2_world).2
    = Some (parameters
        (stage2_epoch Demo.collab Demo.args 1%nat 1%nat 2%nat
           (replicate 5 2%nat) [Fin 1; Fin 0] 0%nat 1%nat 0%nat
           (Fin 0, Fin 0) Demo.stage2_world).2).
Proof.
  assert (H : (stage2_epoch Demo.collab Demo.args 1%nat 1%nat 2%nat
                 (replicate 5 2%nat) [Fin 1; Fin 0] 0%nat 1%nat 0%nat
                 (Fin 0, Fin 0) Demo.stage2_world).1
              = Ok (Fin (Qc_of_Z 100), Fin (Qc_of_Z 100)))
    by by_computation.
  destruct (X5_best_checkpoint_follows_h_score Demo.collab Demo.args
              1%nat 1%nat 2%nat (replicate 5 2%nat) [Fin 1; Fin 0]
              0%nat 1%nat 0%nat (Fin 0) (Fin 0) Demo.stage2_world _ _ H)
    as (acc & h_score & Hm & _ & _ & Hbest).
  exists acc, h_score. split; [exact Hm|].
  destruct (fgtb h_score (Fin 0)) eqn:Hh.
  - split; [reflexivity | exact (proj2 Hbest)].
  - exfalso. destruct Hbest as [Hbest _]. vm_compute in Hm.
    injection Hm as _ <-. discriminate Hh.
Defined.

Section EndOfTraining.
Context {net batch : Type} (K : collaborators net batch).
Implicit Types w : world net.

#[local] Existing Instance M_ret.
#[local] Existing Instance M_bind.

Lemma triple_bind_any {A B} (m : M A) (f : A → M B)
    (Q : result B → world net → Prop) :
  (∀ a, triple (λ _, True) (f a) Q) →
  (∀ e w, Q (Raise e) w) →
  triple (λ _, True) (m ≫= f) Q.
Proof.
  intros Hf Hr. apply (triple_bind (λ _ _, True)); [done | done |].
  intros e w _. apply Hr.
Qed.

Lemma final_test_ended_on_best a :
  triple (λ _, True)
    (load_best K ≫= λ _, validate K a (test_loader a) ≫= λ _, mret ())
    (ended_on_best K a).
Proof.
  intros w _. rewrite bind_run. unfold load_best.
  destruct (best_checkpoint w) as [saved|] eqn:Hb; [|done].
  rewrite bind_run, validate_run. unfold pass_rows.
  cbn [set_parameters parameters].
  destruct (metrics_of K a _) as [m|e] eqn:Hm; [|done].
  intros _. exists saved, (parameters w), (trace w), m.
  split; [exact Hb|]. split; [reflexivity|]. split; [reflexivity|].
  exact Hm.
Qed.

Lemma main_ended_on_best a :
  arg_phase a = PhaseTrain →
  triple (λ _, True) (main K a) (ended_on_best K a).
Proof.
  intros Hphase. unfold main. rewrite Hphase.
  do 12 (apply triple_bind_any; [intros ? | done]).
  apply final_test_ended_on_best.
Qed.

Lemma triple_bind_no_best {A B} (m : M A) (f : A → M B)
    (Q : result B → world net → Prop) :
  preserves checkpoints m →
  (∀ a, triple no_best (f a) Q) →
  (∀ e w, Q (Raise e) w) →
  triple no_best (m ≫= f) Q.
Proof.
  intros Hm Hf Hr. apply (triple_bind (λ _, no_best)); [|done|].
  - intros w Hw. red. specialize (Hm w). unfold checkpoints in Hm.
    injection Hm as _ ->. exact Hw.
  - intros e w _. apply Hr.
Qed.

Lemma calc_source_class_weight_checkpoints a L :
  preserves checkpoints (calc_source_class_weight K a L).
Proof. intros w. by rewrite calc_source_class_weight_run. Qed.

(** An epoch whose validation H-score is not strictly positive leaves
    the best checkpoint missing and the best H-score at zero. *)
Lemma stage2_epoch_no_best a o s eo ss scw up lo epoch best_acc w :
  (∀ params acc h_score,
     metrics_of K a (eval_forward K params <$>
                       loader_batches K (val_loader a))
       = Ok (acc, h_score) →
     fgtb h_score (Fin 0) = false) →
  no_best w →
  no_best (stage2_epoch K a o s eo ss scw up lo epoch
             (best_acc, Fin 0) w).2 ∧
  ∀ r, (stage2_epoch K a o s eo ss scw up lo epoch
          (best_acc, Fin 0) w).1 = Ok r → r.2 = Fin 0.
Proof.
  intros Hh Hw. unfold stage2_epoch. rewrite bind_run.
  pose proof (train_checkpoints K a o s scw up lo epoch w) as H1.
  destruct (train K a o s scw up lo epoch w) as [[[]|e] w1].
  2:{ cbn [snd] in *. split; [|done]. red.
      unfold checkpoints in H1. by injection H1 as _ ->. }
  rewrite bind_run.
  pose proof (refresh_epoch_checkpoints K a eo ss epoch w1) as H2.
  assert (Hb : no_best (refresh_epoch K a eo ss epoch w1).2).
  { red. cbn [snd] in H1. rewrite H1 in H2.
    unfold checkpoints in H2. by injection H2 as _ ->. }
  destruct (refresh_epoch K a eo ss epoch w1) as [[[]|e] w2]; [|done].
  cbn [snd] in Hb.
  rewrite bind_run, validate_run. unfold pass_rows.
  destruct (metrics_of K a (eval_forward K (parameters w2) <$> _))
    as [[acc h_score]|e] eqn:Hm; [|done].
  rewrite bind_run. cbn [save_latest].
  rewrite (Hh _ _ _ Hm). cbn. split; [exact Hb|]. by intros r [= <-].
Qed.

Lemma stage2_loop_no_best a o s eo ss scw up lo (l : list nat) best_acc :
  (∀ params acc h_score,
     metrics_of K a (eval_forward K params <$>
                       loader_batches K (val_loader a))
       = Ok (acc, h_score) →
     fgtb h_score (Fin 0) = false) →
  ∀ w, no_best w →
  no_best (for_fold l (best_acc, Fin 0)
             (stage2_epoch K a o s eo ss scw up lo) w).2.
Proof.
  intros Hh. revert best_acc.
  induction l as [|epoch l IH]; intros best_acc w Hw; [done|].
  cbn [for_fold]. rewrite bind_run.
  destruct (stage2_epoch_no_best a o s eo ss scw up lo epoch best_acc w
              Hh Hw) as [Hb Hr].
  destruct (stage2_epoch K a o s eo ss scw up lo epoch (best_acc, Fin 0) w)
    as [[[acc' h']|e] w1]; [|done].
  cbn [snd] in Hb. specialize (Hr _ eq_refl). cbn in Hr. subst h'.
  by apply IH.
Qed.

Lemma main_without_best a :
  arg_phase a = PhaseTrain →
  (arg_epochs a ≤ 0)%Z ∨
  (∀ params acc h_score,
     metrics_of K a (eval_forward K params <$>
                       loader_batches K (val_loader a))
       = Ok (acc, h_score) →
     fgtb h_score (Fin 0) = false) →
  triple no_best (main K a) (λ r _, r ≠ Ok ()).
Proof.
  intros Hphase Hcase. unfold main. rewrite Hphase.
  rewrite decide_True by done.
  apply triple_bind_no_best; [preserves_go | intros _ | done].
  apply triple_bind_no_best; [preserves_go | intros o1 | done].
  apply triple_bind_no_best; [preserves_go | intros s1 | done].
  apply triple_bind_no_best; [| intros _ | done].
  { apply preserves_for_each; [done..|]. intros epoch.
    apply pretrain_checkpoints. }
  apply triple_bind_no_best; [preserves_go | intros o2 | done].
  apply triple_bind_no_best; [preserves_go | intros s2 | done].
  apply triple_bind_no_best; [preserves_go | intros o3 | done].
  apply triple_bind_no_best; [preserves_go | intros s3 | done].
  apply triple_bind_no_best; [preserves_go | intros up | done].
  apply triple_bind_no_best; [preserves_go | intros lo | done].
  apply triple_bind_no_best;
    [apply calc_source_class_weight_checkpoints | intros scw | done].
  intros w Hw. rewrite bind_run.
  assert (Hb : no_best
    (for_fold (range (arg_epochs a)) (Fin 0, Fin 0)
       (stage2_epoch K a o2 s2 o3 (replicate 5 s3) (cut_mask a scw) up lo)
       w).2).
  { destruct Hcase as [He|Hh].
    - unfold range. replace (Z.to_nat (arg_epochs a)) with 0%nat by lia.
      exact Hw.
    - by apply stage2_loop_no_best. }
  destruct (for_fold _ _ _ w) as [[best|e] w1]; [|done].
  cbn [snd] in Hb. rewrite bind_run. unfold load_best.
  red in Hb. by rewrite Hb.
Qed.
End EndOfTraining.

(** X6.  A training run that ends normally ends on the best checkpoint:
    that checkpoint exists, the final parameters are the ones loaded from
    it (not the ones the last epoch left), and the last thing the run did is
    one evaluation pass over the test loader, which returned. *)
Theorem X6_training_ends_on_the_best_checkpoint {net batch}
    (K : collaborators net batch) (a : args) (init : net)
    (on_disk : option net) :
  arg_phase a = PhaseTrain →
  (run K a init on_disk).1 = Ok () →
  let w' := (run K a init on_disk).2 in
  ∃ saved before t m,
    best_checkpoint w' = Some saved ∧
    parameters w' = load_state_dict K before saved ∧
    trace w' = t ++ call_validate (test_loader a) ::
                 pass_events (test_loader a)
                   (seq 0 (length (loader_batches K (test_loader a)))) ∧
    metrics_of K a (pass_rows K (test_loader a) w') = Ok m.
Proof.
  intros Hphase Hok.
  exact (main_ended_on_best K a Hphase (initial_world init on_disk) I Hok).
Qed.

Lemma X6_training_ends_on_the_best_checkpoint_witness :
  ∃ saved before t m,
    best_checkpoint (run Demo.collab Demo.args [] None).2 = Some saved ∧
    parameters (run Demo.collab Demo.args [] None).2
      = load_state_dict Demo.collab before saved ∧
    trace (run Demo.collab Demo.args [] None).2
      = t ++ call_validate (test_loader Demo.args) ::
          pass_events (test_loader Demo.args)
            (seq 0 (length (loader_batches Demo.collab
                              (test_loader Demo.args)))) ∧
    metrics_of Demo.collab Demo.args
      (pass_rows Demo.collab (test_loader Demo.args)
         (run Demo.collab Demo.args [] None).2) = Ok m.
Proof.
  apply (X6_training_ends_on_the_best_checkpoint Demo.collab Demo.args
           [] None eq_refl).
  by_computation.
Defined.

(** X7.  A training run that starts without a best checkpoint cannot end
    normally when there is no epoch ([--epochs] zero or negative), nor when
    no validation ever gives an H-score strictly greater than zero (zero
    and [nan] do not count): nothing is ever copied to the best
    checkpoint, and the load before the final test fails. *)
Theorem X7_no_best_checkpoint_no_normal_end {net batch}
    (K : collaborators net batch) (a : args) (init : net) :
  arg_phase a = PhaseTrain →
  (arg_epochs a ≤ 0)%Z ∨
  (∀ params acc h_score,
     metrics_of K a (eval_forward K params <$>
                       loader_batches K (val_loader a))
       = Ok (acc, h_score) →
     fgtb h_score (Fin 0) = false) →
  (run K a init None).1 ≠ Ok ().
Proof.
  intros Hphase Hcase.
  exact (main_without_best K a Hphase Hcase (initial_world init None)
           eq_refl).
Qed.

Lemma X7_no_best_checkpoint_no_normal_end_witness :
  metrics_of DemoNoUnknown.collab Demo.args [DemoNoUnknown.rows]
    = Ok (NaN, NaN) ∧
  (run DemoNoUnknown.collab Demo.args [] None).1 ≠ Ok () ∧
  (run DemoNoUnknown.collab Demo.args [] None).1 = Raise FileNotFoundError.
Proof.
  split; [by_computation|]. split; [|by_computation].
  apply (X7_no_best_checkpoint_no_normal_end DemoNoUnknown.collab Demo.args
           [] eq_refl).
  right. intros params acc h_score Hm. vm_compute in Hm.
  injection Hm as _ <-. reflexivity.
Defined.

(** ** What each stage draws and steps *)

Lemma advances_run {net A} (f : world net → Z) (n : Z) (m : M A)
    (w : world net) (a : A) :
  advances f n m → (m w).1 = Ok a → f (m w).2 = (f w + n)%Z.
Proof.
  intros Hm Hr. destruct (m w) as [r w'] eqn:E. cbn in *. subst r.
  exact (Hm w a w' E).
Qed.

Lemma preserves_drawn {net A} (it : iterator) (m : M A) (w : world net) :
  preserves (drawn it) m → positions (m w).2 it = positions w it.
Proof. intros Hm. specialize (Hm w). unfold drawn in Hm. lia. Qed.

(** X8.  Each stage keeps to its own data, whether it returns or raises:
    pretraining and the ensemble refresh never draw a target batch (the
    refresh draws from the perturbed-source iterators only), adversarial
    training never draws from a perturbed-source iterator, no stage
    touches a checkpoint, and only adversarial training creates tensors. *)
Theorem X8_stages_keep_to_their_data {net batch}
    (K : collaborators net batch) (a : args) (w : world net) :
  (∀ o s epoch,
     let w' := (pretrain K a o s epoch w).2 in
     positions w' train_target_iter = positions w train_target_iter ∧
     tensors w' = tensors w ∧ checkpoints w' = checkpoints w) ∧
  (∀ o s scw up lo epoch,
     let w' := (train K a o s scw up lo epoch w).2 in
     (∀ i, positions w' (ens_iters i) = positions w (ens_iters i)) ∧
     checkpoints w' = checkpoints w) ∧
  (∀ o ss epoch,
     let w' := (refresh_epoch K a o ss epoch w).2 in
     positions w' train_source_iter = positions w train_source_iter ∧
     positions w' train_target_iter = positions w train_target_iter ∧
     tensors w' = tensors w ∧ checkpoints w' = checkpoints w).
Proof.
  split; [|split].
  - intros o s epoch. cbn zeta. split; [|split].
    + apply preserves_drawn, pretrain_target_untouched.
    + apply pretrain_tensors.
    + apply pretrain_checkpoints.
  - intros o s scw up lo epoch. cbn zeta. split.
    + intros i. apply preserves_drawn, train_heads_untouched.
    + apply train_checkpoints.
  - intros o ss epoch. cbn zeta. split; [|split; [|split]].
    + by apply preserves_drawn, refresh_epoch_others.
    + by apply preserves_drawn, refresh_epoch_others.
    + apply refresh_epoch_tensors.
    + apply refresh_epoch_checkpoints.
Qed.

(** X9.  A pretraining epoch that returns has drawn exactly
    [iters_per_epoch] batches from the source iterator and from each of
    the five perturbed-source iterators, and has stepped its optimizer and
    its scheduler exactly [iters_per_epoch] times: one combined update per
    iteration (none at all for a negative count). *)
Theorem X9_pretrain_epoch_budget {net batch}
    (K : collaborators net batch) (a : args) (o s : loc) (epoch : nat)
    (w : world net) :
  (pretrain K a o s epoch w).1 = Ok () →
  let n := Z.max 0 (arg_iters_per_epoch a) in
  let w' := (pretrain K a o s epoch w).2 in
  drawn train_source_iter w' = (drawn train_source_iter w + n)%Z ∧
  (∀ i, (i < 5)%nat →
        drawn (ens_iters i) w' = (drawn (ens_iters i) w + n)%Z) ∧
  steps_of o w' = (steps_of o w + n)%Z ∧
  epoch_of s w' = (epoch_of s w + n)%Z.
Proof.
  intros Hr. cbn zeta. split; [|split; [|split]].
  - exact (advances_run _ _ _ w () (pretrain_source_drawn K a o s epoch) Hr).
  - intros i Hi.
    exact (advances_run _ _ _ w ()
             (pretrain_head_drawn K a o s epoch i Hi) Hr).
  - exact (advances_run _ _ _ w () (pretrain_steps K a o s epoch) Hr).
  - exact (advances_run _ _ _ w () (pretrain_epochs K a o s epoch) Hr).
Qed.

Lemma X9_pretrain_epoch_budget_witness :
  (pretrain Demo.collab Demo.args 0%nat 0%nat 0%nat Demo.stage2_world).1
    = Ok () ∧
  drawn train_source_iter
    (pretrain Demo.collab Demo.args 0%nat 0%nat 0%nat Demo.stage2_world).2
    = 2%Z ∧
  steps_of 0%nat
    (pretrain Demo.collab Demo.args 0%nat 0%nat 0%nat Demo.stage2_world).2
    = 2%Z.
Proof.
  assert (H : (pretrain Demo.collab Demo.args 0%nat 0%nat 0%nat
                 Demo.stage2_world).1 = Ok ()) by by_computation.
  destruct (X9_pretrain_epoch_budget Demo.collab Demo.args 0%nat 0%nat
              0%nat Demo.stage2_world H) as (H1 & _ & H3 & _).
  split; [exact H|]. split; [exact H1 | exact H3].
Defined.

(** X10.  An epoch of adversarial training that returns has drawn exactly
    [iters_per_epoch] source batches and as many target batches, has
    stepped its optimizer and its scheduler exactly [iters_per_epoch]
    times, and has created two new tensors per iteration for the bounds. *)
Theorem X10_train_epoch_budget {net batch}
    (K : collaborators net batch) (a : args) (o s : loc) (scw : tensor)
    (up lo : loc) (epoch : nat) (w : world net) :
  (train K a o s scw up lo epoch w).1 = Ok () →
  let n := Z.max 0 (arg_iters_per_epoch a) in
  let w' := (train K a o s scw up lo epoch w).2 in
  drawn train_source_iter w' = (drawn train_source_iter w + n)%Z ∧
  drawn train_target_iter w' = (drawn train_target_iter w + n)%Z ∧
  steps_of o w' = (steps_of o w + n)%Z ∧
  epoch_of s w' = (epoch_of s w + n)%Z ∧
  Z.of_nat (length (tensors w')) =
    (Z.of_nat (length (tensors w)) + 2 * n)%Z.
Proof.
  intros Hr. cbn zeta. split; [|split; [|split; [|split]]].
  - exact (advances_run _ _ _ w ()
             (train_source_drawn K a o s scw up lo epoch) Hr).
  - exact (advances_run _ _ _ w ()
             (train_target_drawn K a o s scw up lo epoch) Hr).
  - exact (advances_run _ _ _ w ()
             (train_steps K a o s scw up lo epoch) Hr).
  - exact (advances_run _ _ _ w ()
             (train_epochs K a o s scw up lo epoch) Hr).
  - exact (advances_run _ _ _ w ()
             (train_tensors K a o s scw up lo epoch) Hr).
Qed.

Lemma X10_train_epoch_budget_witness :
  (train Demo.collab Demo.args 1%nat 1%nat [Fin 1; Fin 0] 0%nat 1%nat
     0%nat Demo.stage2_world).1 = Ok () ∧
  drawn train_target_iter
    (train Demo.collab Demo.args 1%nat 1%nat [Fin 1; Fin 0] 0%nat 1%nat
       0%nat Demo.stage2_world).2 = 2%Z ∧
  length (tensors
    (train Demo.collab Demo.args 1%nat 1%nat [Fin 1; Fin 0] 0%nat 1%nat
       0%nat Demo.stage2_world).2) = 6%nat.
Proof.
  assert (H : (train Demo.collab Demo.args 1%nat 1%nat [Fin 1; Fin 0]
                 0%nat 1%nat 0%nat Demo.stage2_world).1 = Ok ())
    by by_computation.
  destruct (X10_train_epoch_budget Demo.collab Demo.args 1%nat 1%nat
              [Fin 1; Fin 0] 0%nat 1%nat 0%nat Demo.stage2_world H)
    as (_ & H2 & _ & _ & H5).
  split; [exact H|]. split; [exact H2|].
  apply Nat2Z.inj. rewrite H5. reflexivity.
Defined.

(** X11.  A refresh epoch that returns has drawn exactly
    [iters_per_epoch // 2] batches from each of the five perturbed-source
    iterators, head [i] from its own iterator, and has stepped the one
    optimizer it is handed [5 * (iters_per_epoch // 2)] times. *)
Theorem X11_refresh_epoch_budget {net batch}
    (K : collaborators net batch) (a : args) (o : loc) (ss : list loc)
    (epoch : nat) (w : world net) :
  (refresh_epoch K a o ss epoch w).1 = Ok () →
  let m := Z.max 0 (arg_iters_per_epoch a / 2) in
  let w' := (refresh_epoch K a o ss epoch w).2 in
  (∀ i, (i < 5)%nat →
        drawn (ens_iters i) w' = (drawn (ens_iters i) w + m)%Z) ∧
  steps_of o w' = (steps_of o w + 5 * m)%Z.
Proof.
  intros Hr. cbn zeta. split.
  - intros i Hi.
    exact (advances_run _ _ _ w ()
             (refresh_epoch_head_drawn K a o ss epoch i Hi) Hr).
  - exact (advances_run _ _ _ w () (refresh_epoch_steps K a o ss epoch) Hr).
Qed.

Lemma X11_refresh_epoch_budget_witness :
  (refresh_epoch Demo.collab Demo.args 2%nat (replicate 5 2%nat) 0%nat
     Demo.stage2_world).1 = Ok () ∧
  drawn (ens_iters 3)
    (refresh_epoch Demo.collab Demo.args 2%nat (replicate 5 2%nat) 0%nat
       Demo.stage2_world).2 = 1%Z ∧
  steps_of 2%nat
    (refresh_epoch Demo.collab Demo.args 2%nat (replicate 5 2%nat) 0%nat
       Demo.stage2_world).2 = 5%Z.
Proof.
  assert (H : (refresh_epoch Demo.collab Demo.args 2%nat (replicate 5 2%nat)
                 0%nat Demo.stage2_world).1 = Ok ()) by by_computation.
  destruct (X11_refresh_epoch_budget Demo.collab Demo.args 2%nat
              (replicate 5 2%nat) 0%nat Demo.stage2_world H) as [H1 H2].
  split; [exact H|]. split; [exact (H1 3%nat ltac:(lia)) | exact H2].
Defined.

(** ** A print frequency of zero *)

Section ZeroFrequency.
Context {net batch : Type} (K : collaborators net batch).
Implicit Types w : world net.

#[local] Existing Instance M_ret.
#[local] Existing Instance M_bind.

Local Abbreviation shared_at := (@shared_at net).

Lemma pretrain_zero_frequency a o s ms e st epoch w :
  arg_print_freq a = 0%Z →
  (0 < arg_iters_per_epoch a)%Z →
  shared_at s o ms e st w →
  ∃ w', pretrain K a o s epoch w = (Raise ZeroDivisionError, w') ∧
        shared_at s o ms (e + 1) (S st) w'.
Proof.
  intros Hp Hi H. unfold pretrain. rewrite bind_run. cbn [emit].
  unfold range.
  destruct (Z.to_nat (arg_iters_per_epoch a)) as [|n] eqn:En; [lia|].
  cbn [seq for_each]. rewrite bind_run.
  rewrite bind_run. cbn [next]. wsimpl.
  rewrite bind_run. cbn [emit]. wsimpl.
  rewrite bind_run. cbn [for_fold].
  do 5 (rewrite bind_run; rewrite bind_run; cbn [next]; wsimpl;
        rewrite bind_run; cbn [emit]; wsimpl;
        rewrite bind_run; cbn [emit]; wsimpl;
        cbn [mret M_ret]).
  rewrite bind_run.
  match goal with
  | |- context [optimizer_step_ K o ?u ?w1] =>
      destruct (optimizer_step_shared K s o ms e st u w1 H)
        as (w2 & -> & H2 & _)
  end.
  rewrite bind_run.
  destruct (scheduler_step_shared s o ms e (S st) w2 H2)
    as (w3 & -> & H3 & _).
  unfold display. rewrite decide_True by done.
  exists w3. done.
Qed.
End ZeroFrequency.

(** X12.  With [--print-freq 0] a training run that has at least one
    pretraining iteration stops in the first one with
    [ZeroDivisionError], raised by [i % args.print_freq] (line 291) after
    the update of that iteration: the pretraining optimizer has taken one
    step and its scheduler stands at epoch 1. *)
Theorem X12_zero_print_frequency_stops_the_run {net batch}
    (K : collaborators net batch) (a : args) (init : net)
    (on_disk : option net) :
  arg_phase a = PhaseTrain →
  arg_print_freq a = 0%Z →
  (0 < arg_epochs_pretrain a)%Z →
  (0 < arg_iters_per_epoch a)%Z →
  (run K a init on_disk).1 = Raise ZeroDivisionError ∧
  steps_of 0%nat (run K a init on_disk).2 = 1%Z ∧
  epoch_of 0%nat (run K a init on_disk).2 = 1%Z.
Proof.
  intros Hphase Hp He Hi. unfold run, main. rewrite Hphase.
  rewrite decide_True by done.
  rewrite bind_run. cbn [mret M_ret].
  rewrite bind_run. cbn [SGD initial_world optimizers length app].
  rewrite bind_run. unfold LambdaLR. rewrite bind_run.
  unfold set_lr. wsimpl. cbn [lookup list_lookup].
  cbn [new_scheduler]. wsimpl. cbn [length app].
  rewrite bind_run. unfold range.
  destruct (Z.to_nat (arg_epochs_pretrain a)) as [|n] eqn:En; [lia|].
  cbn [seq for_each]. rewrite bind_run.
  change (length (schedulers (initial_world init on_disk))) with 0%nat.
  match goal with
  | |- context [pretrain K a ?o ?s ?ep ?w1] =>
      destruct (pretrain_zero_frequency K a o s
                  [classifier; ens_classifier] 0 0%nat ep w1 Hp Hi)
        as (w2 & -> & [Hs Ho]); [by split|]
  end.
  cbn [fst snd]. unfold steps_of, epoch_of. rewrite Hs, Ho. done.
Qed.

Lemma X12_zero_print_frequency_stops_the_run_witness :
  (run Demo.collab DemoZeroFrequency.args [] None).1
    = Raise ZeroDivisionError ∧
  steps_of 0%nat (run Demo.collab DemoZeroFrequency.args [] None).2 = 1%Z ∧
  epoch_of 0%nat (run Demo.collab DemoZeroFrequency.args [] None).2 = 1%Z.
Proof.
  apply (X12_zero_print_frequency_stops_the_run Demo.collab
           DemoZeroFrequency.args [] None eq_refl eq_refl);
    simpl; lia.
Defined.

(** ** The scores and the running bounds *)



(** X14.  Every epoch starts from the bounds [(0, 0)]; from them, on a
    batch whose scores are not negative and not all equal, the target
    weight of a top-scoring sample is strictly greater than 1: the
    running normalisation does not keep the weights in the unit
    interval. *)
Theorem X14_first_weights_exceed_one (qs : list Qc) (M m : Qc) :
  tensor_max (Fin <$> qs) = Ok (Fin M) →
  tensor_min (Fin <$> qs) = Ok (Fin m) →
  0 ≤ m → m < M →
  ∃ u' l',
    smooth (Fin 0) (Fin M) = Fin u' ∧
    smooth (Fin 0) (Fin m) = Fin l' ∧
    (∃ i, qs !! i = Some M) ∧
    ∀ i, qs !! i = Some M →
      ∃ top,
        running_normalize (Fin <$> qs) (Fin u') (Fin l') !! i
          = Some (Fin top) ∧
        1 < top.
Proof.
  intros HM Hm H0 Hlt.
  exists (Q2Qc 0.01 * 0 + Q2Qc 0.99 * M), (Q2Qc 0.01 * 0 + Q2Qc 0.99 * m).
  split; [apply smooth_Fin|]. split; [apply smooth_Fin|].
  split; [by eapply tensor_max_attained|].
  intros i Hi.
  assert (Hd : Q2Qc 0.01 * 0 + Q2Qc 0.99 * M
               ≠ Q2Qc 0.01 * 0 + Q2Qc 0.99 * m).
  { intros E. apply smooth_equal in E as [_ ->];
      [by apply (irreflexivity Qclt) in Hlt | apply Qcle_refl
      | by apply Qclt_le_weak]. }
  rewrite (running_normalize_finite qs _ _ Hd).
  rewrite !list_lookup_fmap, Hi. eexists. split; [reflexivity|].
  by apply first_top_weight.
Qed.

Lemma X14_first_weights_exceed_one_witness :
  ∃ u' l',
    smooth (Fin 0) (dec 0.9) = Fin u' ∧
    smooth (Fin 0) (dec 0.5) = Fin l' ∧
    (∃ i, [Q2Qc 0.5; Q2Qc 0.9] !! i = Some (Q2Qc 0.9)) ∧
    ∀ i, [Q2Qc 0.5; Q2Qc 0.9] !! i = Some (Q2Qc 0.9) →
      ∃ top,
        running_normalize (Fin <$> [Q2Qc 0.5; Q2Qc 0.9]) (Fin u') (Fin l')
          !! i = Some (Fin top) ∧
        1 < top.
Proof.
  apply (X14_first_weights_exceed_one [Q2Qc 0.5; Q2Qc 0.9]
           (Q2Qc 0.9) (Q2Qc 0.5)); by_computation.
Defined.

(** X15.  The source weights of an iteration are binary: when
    [source_class_weight[labels_s]] (line 376) returns on the mask that
    [main] computes (line 200), there is one weight per label and each is
    0 or 1. *)
Theorem X15_source_weights_are_binary (a : args) (weights : tensor)
    (labels_s : list Z) (w_s : tensor) :
  index_select (cut_mask a weights) labels_s = Ok w_s →
  length w_s = length labels_s ∧
  Forall (λ v, v = Fin 0 ∨ v = Fin 1) w_s.
Proof.
  intros H. apply index_select_elements in H as [Hlen Hall].
  split; [exact Hlen|]. eapply Forall_impl; [exact Hall|].
  intros v Hv. unfold cut_mask in Hv.
  apply list_elem_of_fmap in Hv as (x & -> & _).
  destruct (fgtb x (arg_cut a)); [by right | by left].
Qed.

Lemma X15_source_weights_are_binary_witness :
  index_select (cut_mask Demo.args [Fin 1; Fin 0]) [0; 1; -1]%Z
    = Ok [Fin 1; Fin 0; Fin 0] ∧
  length [Fin 1; Fin 0; Fin 0] = length [0; 1; -1]%Z ∧
  Forall (λ v, v = Fin 0 ∨ v = Fin 1) [Fin 1; Fin 0; Fin 0].
Proof.
  assert (H : index_select (cut_mask Demo.args [Fin 1; Fin 0]) [0; 1; -1]%Z
              = Ok [Fin 1; Fin 0; Fin 0]) by by_computation.
  split; [exact H|].
  exact (X15_source_weights_are_binary Demo.args [Fin 1; Fin 0]
           [0; 1; -1]%Z [Fin 1; Fin 0; Fin 0] H).
Defined.

(** X16.  When the marginal confidence and the entropy of every sample
    lie in the unit interval, so does the raw combined score
    [(marginal_confidence + 1 - entropy) / 2] (lines 320, 370 and 475). *)
Theorem X16_raw_score_in_unit_interval (marginal_confidence entropy : list Qc) :
  Forall (λ q, 0 ≤ q ∧ q ≤ 1) marginal_confidence →
  Forall (λ q, 0 ≤ q ∧ q ≤ 1) entropy →
  Forall unit_weight
    (combine (Fin <$> marginal_confidence) (Fin <$> entropy)).
Proof.
  intros Hm. revert entropy.
  induction Hm as [|a mc [Ha0 Ha1] _ IH]; intros [|b ent] He;
    try constructor.
  - apply Forall_cons in He as [[Hb0 Hb1] _].
    exists ((a + 1 - b) / 2). split; [|by apply combine_unit].
    cbn. rewrite decide_False by done. done.
  - apply Forall_cons in He as [_ He]. by apply IH.
Qed.

Lemma X16_raw_score_in_unit_interval_witness :
  Forall unit_weight
    (combine (Fin <$> [Q2Qc 0.5; Q2Qc 0.9]) (Fin <$> [Q2Qc 0.5; Q2Qc 0.1])).
Proof.
  apply (X16_raw_score_in_unit_interval [Q2Qc 0.5; Q2Qc 0.9]
           [Q2Qc 0.5; Q2Qc 0.1]);
    repeat constructor; by_computation.
Defined.

(** ** The H-score *)

Lemma h_score_of_finite (k u : Qc) :
  k + u ≠ 0 →
  h_score_of (Fin k) (Fin u) = Ok (Fin (2 * k * u / (k + u))).
Proof.
  intros Hs. unfold h_score_of, py_div. cbn [fmul fadd].
  rewrite decide_False.
  - by rewrite fdiv_Fin.
  - intros E. apply Hs.
    exact (f_equal (λ v, match v with Fin q => q | _ => 0 end) E).
Qed.

(** X17.  For two accuracies that are not negative and not both zero, the
    H-score of line 491 is defined and lies between the smaller and the
    larger of the two; it is zero as soon as one of them is zero, and
    equal to both when they are equal. *)
Theorem X17_h_score_between_the_accuracies (known unknown : Qc) :
  0 ≤ known → 0 ≤ unknown → 0 < known + unknown →
  ∃ h,
    h_score_of (Fin known) (Fin unknown) = Ok (Fin h) ∧
    Qcmin known unknown ≤ h ∧ h ≤ Qcmax known unknown ∧
    (known = 0 ∨ unknown = 0 → h = 0) ∧
    (known = unknown → h = known).
Proof.
  intros Hk Hu Hs.
  assert (Hnz : known + unknown ≠ 0) by (by apply Qc_pos_neq_0).
  exists (2 * known * unknown / (known + unknown)).
  split; [by apply h_score_of_finite|].
  assert (Hzero : known = 0 ∨ unknown = 0 →
                  2 * known * unknown / (known + unknown) = 0).
  { intros [->| ->]; unfold Qcdiv; ring. }
  assert (Heq : known = unknown →
                2 * known * unknown / (known + unknown) = known).
  { intros <-. field. exact Hnz. }
  split; [|split; [|split; [exact Hzero | exact Heq]]].
  - unfold Qcmin. case_decide as Hlt.
    + (* unknown < known *)
      destruct (Qcle_lt_or_eq _ _ Hu) as [Hu'|<-];
        [|rewrite Hzero by (by right); apply Qcle_refl].
      replace (2 * known * unknown / (known + unknown))
        with (2 * unknown * known / (unknown + known))
        by (unfold Qcdiv; f_equal; [ring | f_equal; ring]).
      apply harmonic_between; [done | by apply Qclt_le_weak].
    + apply Qcnot_lt_le in Hlt.
      destruct (Qcle_lt_or_eq _ _ Hk) as [Hk'|<-];
        [|rewrite Hzero by (by left); apply Qcle_refl].
      by apply harmonic_between.
  - unfold Qcmax. case_decide as Hlt.
    + (* known < unknown *)
      destruct (Qcle_lt_or_eq _ _ Hk) as [Hk'|<-];
        [|rewrite Hzero by (by left); exact Hu].
      apply harmonic_between; [done | by apply Qclt_le_weak].
    + apply Qcnot_lt_le in Hlt.
      destruct (Qcle_lt_or_eq _ _ Hu) as [Hu'|<-];
        [|rewrite Hzero by (by right); exact Hk].
      replace (2 * known * unknown / (known + unknown))
        with (2 * unknown * known / (unknown + known))
        by (unfold Qcdiv; f_equal; [ring | f_equal; ring]).
      by apply harmonic_between.
Qed.

Lemma X17_h_score_between_the_accuracies_witness :
  ∃ h,
    h_score_of (Fin (Qc_of_Z 50)) (Fin (Qc_of_Z 100)) = Ok (Fin h) ∧
    Qcmin (Qc_of_Z 50) (Qc_of_Z 100) ≤ h ∧
    h ≤ Qcmax (Qc_of_Z 50) (Qc_of_Z 100) ∧
    (Qc_of_Z 50 = 0 ∨ Qc_of_Z 100 = 0 → h = 0) ∧
    (Qc_of_Z 50 = Qc_of_Z 100 → h = Qc_of_Z 50).
Proof.
  apply (X17_h_score_between_the_accuracies (Qc_of_Z 50) (Qc_of_Z 100));
    by_computation.
Defined.

(** ** The schedule of a training run *)

(** X18.  A training run that ends normally has called its stages in
    exactly this order: [pretrain] for the epochs [0 .. epochs_pretrain -
    1]; the class-weight pass on the validation loader; for each epoch
    [0 .. epochs - 1], [train], then [train_ens_classifier] for the heads
    0 to 4, then [validate] on the validation loader; and at the end
    [validate] on the test loader. *)
Theorem X18_schedule_of_a_training_run {net batch}
    (K : collaborators net batch) (a : args) (init : net)
    (on_disk : option net) :
  arg_phase a = PhaseTrain →
  (run K a init on_disk).1 = Ok () →
  schedule (run K a init on_disk).2 = training_schedule a.
Proof.
  intros Hphase Hr. unfold run in *.
  destruct (main K a (initial_world init on_disk)) as [r w'] eqn:E.
  cbn in Hr. subst r.
  exact (main_schedule K a Hphase _ _ _ E).
Qed.

Lemma X18_schedule_of_a_training_run_witness :
  schedule (run Demo.collab Demo.args [] None).2 =
    [ Sweights (val_loader Demo.args);
      Strain 0; Srefresh 0 0; Srefresh 1 0; Srefresh 2 0; Srefresh 3 0;
      Srefresh 4 0; Svalidate (val_loader Demo.args);
      Strain 1; Srefresh 0 1; Srefresh 1 1; Srefresh 2 1; Srefresh 3 1;
      Srefresh 4 1; Svalidate (val_loader Demo.args);
      Svalidate (test_loader Demo.args) ].
Proof.
  apply (X18_schedule_of_a_training_run Demo.collab Demo.args [] None
           eq_refl).
  by_computation.
Defined.
